(** * GeNN code generator: merged groups, parallel dispatch and the OpenCL backend

    A shallow embedding of the parts of the generator that the
    specification talks about:

    - [ModelSpecMerged::createMergedGroups]
      (include/genn/genn/code_generator/modelSpecMerged.h),
    - [CUDA::CodeGenerator::genParallelGroup] (backend/cuda_backend.h),
    - fragments of [Backend::genNeuronUpdate] and [Backend::genSynapseUpdate],
      [genMergedGroupKernelParams], [setMergedGroupKernelParams],
      [Backend::genExtraGlobalParamPush], [Backend::genExtraGlobalParamPull],
      [Backend::genEmitSpike], [Backend::genKernelDimensions],
      [Backend::divideKernelStreamInParts] and
      [Backend::getPresynapticUpdateStrategy]
      (src/genn/backends/opencl/backend.cc),
    - [genGroupStartIDs], [genMergedKernelDataStructures],
      [genAtomicAddFloat], fragments of [Backend::genInit], the variable
      functions [Backend::genVariableDefinition], [genVariablePush],
      [genVariablePull], [genCurrentVariablePush], [genCurrentSpikePush],
      [genPopulationRNG], [addDeviceType], [isDeviceType] and their
      companions, [getNumSynapseDynamicsThreads] and [getFloatAtomicAdd]
      (src/genn/backends/opencl/backend.cc),
    - the loads and stores of the neuron state
      (src/genn/code_generator/generateNeuronUpdate.cc).

    The generator writes text.  A [CodeStream] is modelled by the sequence
    of values inserted into it with [operator<<]; C++ exceptions by an
    error result that leaves the stream as it was when the exception was
    thrown; reference parameters by explicit state.

    Part I holds the embedding, Part II the theorems. *)

From Stdlib Require Import List String Ascii NArith Lia Permutation Bool.
From stdpp Require Import gmap strings.
Import ListNotations.

Open Scope string_scope.
Open Scope list_scope.

(* ===================================================================== *)
(** * Part I: the embedding                                               *)
(* ===================================================================== *)

(** ** size_t arithmetic *)

Module SizeT.

(** [size_t] is a 64-bit unsigned integer: a value of [N] below [2^64];
    every operation of the source on it wraps around. *)
Definition modulus : N := (2 ^ 64)%N.

Definition wrap (n : N) : N := (n mod modulus)%N.

Definition add (a b : N) : N := wrap (a + b).

Definition mul (a b : N) : N := wrap (a * b).

(** [a - b] on unsigned operands. *)
Definition sub (a b : N) : N := wrap (a + modulus - wrap b).

(** Modelled from the spec: [ceilDivide] is declared in the backend's
    utils header, which is missing; section 4.8 describes it as the
    ceiling of the quotient ("ceilDiv(idTotal, workgroupSize)").
    The numerator is computed in [size_t]. *)
Definition ceilDivide (numerator denominator : N) : N :=
  (add numerator (sub denominator 1) / denominator)%N.

(** Modelled from the spec: [padSize] is declared in the same missing
    header; section 4.5 describes the padded size as "the per-member
    thread count rounded up to a workgroup-size multiple". *)
Definition padSize (size blockSize : N) : N :=
  mul (ceilDivide size blockSize) blockSize.

End SizeT.

(** ** The code stream and the generator monad *)

Module CodeStream.

(** One value inserted into a [CodeStream] with [operator<<]. *)
Inductive tok : Type :=
| Str (s : string)     (* a string literal or a [std::string] *)
| Num (n : N)          (* a [size_t] or [unsigned int] value *)
| Endl                 (* [std::endl] *)
| OB (id : N)          (* [CodeStream::OB(id)] *)
| CB (id : N)          (* [CodeStream::CB(id)] *)
| ScopeB               (* construction of a [CodeStream::Scope] *)
| ScopeE.              (* its destruction *)

(** The stream: everything inserted so far, oldest first. *)
Definition t : Type := list tok.

Definition tok_eqb (a b : tok) : bool :=
  match a, b with
  | Str x, Str y => String.eqb x y
  | Num x, Num y => N.eqb x y
  | Endl, Endl => true
  | OB x, OB y => N.eqb x y
  | CB x, CB y => N.eqb x y
  | ScopeB, ScopeB => true
  | ScopeE, ScopeE => true
  | _, _ => false
  end.

(** Consecutive insertions of strings produce the concatenated text,
    however the text was cut into insertions: [flat] cuts every string
    into its characters. *)
Definition explode (x : tok) : list tok :=
  match x with
  | Str s => map (fun c => Str (String c EmptyString)) (list_ascii_of_string s)
  | other => [other]
  end.

Definition flat (ts : list tok) : list tok := flat_map explode ts.

(** Two token sequences that produce the same text. *)
Definition same_text (a b : list tok) : Prop := flat a = flat b.

(** [needle] occurs in [hay] as a contiguous block. *)
Fixpoint prefixb (needle hay : list tok) : bool :=
  match needle, hay with
  | [], _ => true
  | x :: n', y :: h' => tok_eqb x y && prefixb n' h'
  | _ :: _, [] => false
  end.

Fixpoint infixb (needle hay : list tok) : bool :=
  prefixb needle hay ||
  match hay with
  | [] => false
  | _ :: h' => infixb needle h'
  end.

(** The emitted text contains the text of [stmt]. *)
Definition contains (out stmt : list tok) : bool :=
  infixb (flat stmt) (flat out).

End CodeStream.

Export CodeStream(tok(..)).

(** Exceptions thrown by the generator. *)
Inductive exn : Type :=
| runtime_error (what : string)       (* [std::runtime_error] *)
| ToBeImplemented (what : string)     (* [Utils::ToBeImplemented] *)
| out_of_range                        (* [std::out_of_range] of [substr] *)
| substitution_exists (name : string) (* a failed [addVarSubstitution] *)
| substitution_missing (name : string)(* a failed lookup of a substitution *)
| assertion_failed                    (* a failed [assert] *)
| empty_front.                        (* [front()] of an empty vector *)

(** A computation with mutable state [S] that returns an [A] or throws;
    the state an exception leaves behind is the state at the throw. *)
Definition M (S A : Type) : Type := S -> (exn + A) * S.

Definition ret {S A} (a : A) : M S A := fun s => (inr a, s).

Definition throw {S A} (e : exn) : M S A := fun s => (inl e, s).

Definition bind {S A B} (m : M S A) (k : A -> M S B) : M S B :=
  fun s =>
    match m s with
    | (inr a, s') => k a s'
    | (inl e, s') => (inl e, s')
    end.

Definition lift {S A} (r : exn + A) : M S A := fun s => (r, s).

Declare Scope gen_scope.
Delimit Scope gen_scope with gen.
Notation "'let!' x ':=' m 'in' k" := (bind m (fun x => k))
  (at level 10, x name, m at level 100, k at level 200) : gen_scope.
Notation "m ';;' k" := (bind m (fun _ => k))
  (at level 100, k at level 200, right associativity) : gen_scope.
Open Scope gen_scope.

(** A generator whose only state is the stream it writes to. *)
Definition Gen (A : Type) : Type := M CodeStream.t A.

(** [os << x1 << ... << xn]. *)
Definition emit (ts : list tok) : Gen unit := fun os => (inr tt, os ++ ts).

(** [{ CodeStream::Scope b(os); body }]: the scope is opened, the body
    runs, and the destructor closes the scope on every exit path. *)
Definition Scope {A} (body : Gen A) : Gen A :=
  fun os =>
    let '(r, os') := body (os ++ [ScopeB]) in (r, os' ++ [ScopeE]).

(** [g] returns [a] and appends [ts] to whatever stream it is run on. *)
Definition writes {A} (g : Gen A) (a : A) (ts : list tok) : Prop :=
  forall os, g os = (inr a, os ++ ts).

(** A generator run inside a function that also holds a reference [R]. *)
Definition onStream {R A} (g : Gen A) : M (CodeStream.t * R) A :=
  fun '(os, r) => let '(x, os') := g os in (x, (os', r)).

Definition getRef {R} : M (CodeStream.t * R) R := fun '(os, r) => (inr r, (os, r)).

Definition putRef {R} (r : R) : M (CodeStream.t * R) unit := fun '(os, _) => (inr tt, (os, r)).

(** ** Substitutions *)

Module Substitutions.

(** Modelled from the spec: the class [Substitutions] (substitutions.h,
    substitution_stack.h) is missing.  Section 3: "A pair of mappings:
    (variables: name -> replacement string) and (functions: name ->
    (arity, template)), plus a pointer to a parent frame.  Lookup walks
    parent chain.  A frame never mutates its parent".  The frames the
    embedded code builds outlive no change of their parents, so a frame
    holds its parent by value. *)
Inductive t : Type :=
| Root (vars : gmap string string) (funcs : gmap string (nat * string))
| Child (vars : gmap string string) (funcs : gmap string (nat * string)) (parent : t).

Definition vars (s : t) : gmap string string :=
  match s with Root v _ => v | Child v _ _ => v end.

Definition funcs (s : t) : gmap string (nat * string) :=
  match s with Root _ f => f | Child _ f _ => f end.

Definition setVars (v : gmap string string) (s : t) : t :=
  match s with Root _ f => Root v f | Child _ f p => Child v f p end.

Definition setFuncs (f : gmap string (nat * string)) (s : t) : t :=
  match s with Root v _ => Root v f | Child v _ p => Child v f p end.

(** Modelled from the spec: [Substitutions s(&parent)], a new frame with
    a pointer to its parent (section 3). *)
Definition child (parent : t) : t := Child empty empty parent.

(** Modelled from the spec: section 4.2, "addVarSubstitution(name, repl,
    allowOverride=false): fails if name exists in this frame and
    override not requested". *)
Definition addVarSubstitution (name repl : string) (allowOverride : bool) (s : t)
  : exn + t :=
  match vars s !! name with
  | Some _ =>
      if allowOverride then inr (setVars (<[name := repl]> (vars s)) s)
      else inl (substitution_exists name)
  | None => inr (setVars (<[name := repl]> (vars s)) s)
  end.

(** Modelled from the spec: section 4.2, "addFuncSubstitution(name,
    arity, template): same rule". *)
Definition addFuncSubstitution (name : string) (arity : nat) (template : string)
           (allowOverride : bool) (s : t) : exn + t :=
  match funcs s !! name with
  | Some _ =>
      if allowOverride then inr (setFuncs (<[name := (arity, template)]> (funcs s)) s)
      else inl (substitution_exists name)
  | None => inr (setFuncs (<[name := (arity, template)]> (funcs s)) s)
  end.

(** Modelled from the spec: section 3, "Lookup walks parent chain". *)
Fixpoint lookup (name : string) (s : t) : option string :=
  match s with
  | Root v _ => v !! name
  | Child v _ p =>
      match v !! name with
      | Some r => Some r
      | None => lookup name p
      end
  end.

(** Modelled from the spec: section 4.2, "get(name): walks parent chain;
    fails if undefined" ([operator[]], [getVarSubstitution]). *)
Definition get (name : string) (s : t) : exn + string :=
  match lookup name s with
  | Some r => inr r
  | None => inl (substitution_missing name)
  end.

End Substitutions.

(** ** Parallel group dispatch (backend/cuda_backend.h) *)

Module Dispatch.
Section GenParallelGroup.

(** The group type [T] and the three callbacks of [genParallelGroup]. *)
Context {T : Type}.
Variable getPaddedSizeFunc : T -> N.
Variable filter : T -> bool.
(** [handler(os, g.second, popSubs)]: the handler writes to the stream
    and may add substitutions to the frame it is handed. *)
Variable handler : T -> Substitutions.t -> Gen Substitutions.t.

(** The state of the loop: the stream [os] and the reference [idStart];
    [popSubs] is a local of the function. *)
Definition St : Type := (CodeStream.t * N)%type.

(** The body of [for (const auto &g : groups)], lines 79-102.  [groups]
    is a [std::map] keyed by name: its entries in key order. *)
Fixpoint groupLoop (groups : list (string * T)) (popSubs : Substitutions.t)
  : M St unit :=
  match groups with
  | [] => ret tt
  | (name, g) :: rest =>
      if filter g then
        let paddedSize := getPaddedSizeFunc g in
        onStream (emit [Str "// Group "; Str name; Endl]) ;;
        let! idStart := getRef in
        let! popSubs1 :=
          (if (idStart =? 0)%N then
             onStream (emit [Str "if(id < "; Num paddedSize; Str ")"; OB 1]) ;;
             lift (Substitutions.addVarSubstitution "id" "id" false popSubs)
           else
             onStream (emit [Str "if(id >= "; Num idStart; Str " && id < ";
                             Num (SizeT.add idStart paddedSize); Str ")"; OB 1]) ;;
             onStream (emit [Str "const unsigned int lid = id - "; Num idStart;
                             Str ";"; Endl]) ;;
             lift (Substitutions.addVarSubstitution "id" "lid" false popSubs)) in
        let! popSubs2 := onStream (handler g popSubs1) in
        putRef (SizeT.add idStart paddedSize) ;;
        onStream (emit [CB 1; Endl]) ;;
        groupLoop rest popSubs2
      else groupLoop rest popSubs
  end.

(** [genParallelGroup(os, kernelSubs, groups, idStart, getPaddedSizeFunc,
    filter, handler)], lines 71-103: [popSubs] is constructed once,
    before the loop. *)
Definition genParallelGroup (kernelSubs : Substitutions.t)
           (groups : list (string * T)) : M St unit :=
  let popSubs := Substitutions.child kernelSubs in
  groupLoop groups popSubs.

(** The groups that pass the filter, in emission order. *)
Definition dispatched (groups : list (string * T)) : list (string * T) :=
  List.filter (fun g => filter (snd g)) groups.

(** The thread-id range [[START, START+PAD)] of each dispatched group
    when every group is handled: [START] advances by [PAD]. *)
Fixpoint ranges (idStart : N) (gs : list (string * T)) : list (N * N) :=
  match gs with
  | [] => []
  | (_, g) :: rest =>
      (idStart, SizeT.add idStart (getPaddedSizeFunc g))
        :: ranges (SizeT.add idStart (getPaddedSizeFunc g)) rest
  end.

End GenParallelGroup.
End Dispatch.

(** ** Group merging (modelSpecMerged.h) *)

Module Merge.
Section CreateMergedGroups.

Context {Group Role : Type}.

(** Modelled from the spec: the merged-group classes (groupMerged.h) are
    missing.  Section 3: a merged group has a "stable index (0-based
    within its role); role tag; ordered vector of references to member
    groups; the first member serves as archetype".  The constructor
    called at line 130 receives the index, the prefix, the members and
    the role. *)
Record MergedGroup : Type := mkMergedGroup {
  getIndex : N;
  getPrefix : string;
  getGroups : list Group;
  getRole : Role
}.

(** [getArchetype()] is [m_Groups.front()]. *)
Definition getArchetype (m : MergedGroup) : exn + Group :=
  match getGroups m with
  | g :: _ => inr g
  | [] => inl empty_front
  end.

(** The compatibility predicate [M canMerge]. *)
Variable canMerge : Group -> Group -> bool.

(** [for(auto &p : protoMergedGroups)], lines 102-115: the scan stops at
    the first proto-merged group whose front accepts [group]; the flag is
    [existingMergedGroupFound]. *)
Fixpoint searchProto (group : Group) (protoMergedGroups : list (list Group))
  : exn + (bool * list (list Group)) :=
  match protoMergedGroups with
  | [] => inr (false, [])
  | p :: rest =>
      match p with
      | [] => inl assertion_failed
      | front :: _ =>
          if canMerge front group then inr (true, (p ++ [group]) :: rest)
          else
            match searchProto group rest with
            | inr (found, rest') => inr (found, p :: rest')
            | inl e => inl e
            end
      end
  end.

(** One iteration of the [while] loop after [group] was taken, lines
    101-122. *)
Definition mergeStep (group : Group) (protoMergedGroups : list (list Group))
  : exn + list (list Group) :=
  match searchProto group protoMergedGroups with
  | inr (true, proto') => inr proto'
  | inr (false, proto') => inr (proto' ++ [[group]])
  | inl e => inl e
  end.

(** [while(!unmergedGroups.empty())], lines 96-123.  [pending] lists the
    groups in the order the loop takes them. *)
Fixpoint mergeLoop (pending : list Group) (protoMergedGroups : list (list Group))
  : exn + list (list Group) :=
  match pending with
  | [] => inr protoMergedGroups
  | group :: rest =>
      match mergeStep group protoMergedGroups with
      | inr proto' => mergeLoop rest proto'
      | inl e => inl e
      end
  end.

(** [for(size_t i = 0; i < protoMergedGroups.size(); i++)], lines
    129-132.  [i] stays below the size of a vector, so [i++] does not
    wrap. *)
Fixpoint buildMerged (i : N) (prefix : string) (role : Role)
         (protoMergedGroups : list (list Group)) : list MergedGroup :=
  match protoMergedGroups with
  | [] => []
  | p :: rest => mkMergedGroup i prefix p role :: buildMerged (N.succ i) prefix role rest
  end.

(** [createMergedGroups(unmergedGroups, mergedGroups, prefix, role,
    backend, canMerge)], lines 89-133.  The loop takes the last element
    of [unmergedGroups] each time ([back()], [pop_back()]); both vectors
    are passed by reference, the result holds what they are afterwards. *)
Definition createMergedGroups (unmergedGroups : list Group)
           (mergedGroups : list MergedGroup) (prefix : string) (role : Role)
  : exn + (list Group * list MergedGroup) :=
  match mergeLoop (rev unmergedGroups) [] with
  | inr protoMergedGroups =>
      inr ([], mergedGroups ++ buildMerged 0 prefix role protoMergedGroups)
  | inl e => inl e
  end.

(** The overload for a [std::map] of groups and a filter, lines 135-151.
    [groups] lists the entries of the map in key order. *)
Definition createMergedGroups_map (groups : list (string * Group))
           (mergedGroups : list MergedGroup) (prefix : string) (role : Role)
           (filter : Group -> bool) : exn + list MergedGroup :=
  let unmergedGroups := map snd (List.filter (fun g => filter (snd g)) groups) in
  match createMergedGroups unmergedGroups mergedGroups prefix role with
  | inr (_, merged) => inr merged
  | inl e => inl e
  end.

(** First fit, in the words of the specification (section 4.3): "find
    the first existing proto-merged-group whose archetype is compatible;
    if found, append to it; otherwise start a new one". *)
Definition accepts (group : Group) (p : list Group) : bool :=
  match p with
  | archetype :: _ => canMerge archetype group
  | [] => false
  end.

Inductive FirstFit (group : Group) : list (list Group) -> list (list Group) -> Prop :=
| FirstFit_append (before after : list (list Group)) (p : list Group) :
    Forall (fun q => accepts group q = false) before ->
    accepts group p = true ->
    FirstFit group (before ++ p :: after) (before ++ (p ++ [group]) :: after)
| FirstFit_new (proto : list (list Group)) :
    Forall (fun q => accepts group q = false) proto ->
    FirstFit group proto (proto ++ [[group]]).

(** The groups of [pending] placed one after the other by first fit. *)
Inductive FirstFitRun : list Group -> list (list Group) -> list (list Group) -> Prop :=
| FirstFitRun_done (proto : list (list Group)) : FirstFitRun [] proto proto
| FirstFitRun_step (group : Group) (rest : list Group) (p0 p1 p2 : list (list Group)) :
    FirstFit group p0 p1 ->
    FirstFitRun rest p1 p2 ->
    FirstFitRun (group :: rest) p0 p2.

Definition nonempty (p : list Group) : Prop := p <> [].

(** Every member after the archetype was accepted by the archetype. *)
Definition archetypeAccepts (p : list Group) : Prop :=
  match p with
  | [] => True
  | archetype :: others => Forall (fun b => canMerge archetype b = true) others
  end.

End CreateMergedGroups.

Arguments MergedGroup : clear implicits.

End Merge.

(** ** Presynaptic update strategies (backend.cc, lines 155-158, 1993-1996,
       2182-2194) *)

Module PresynapticUpdateStrategy.
Section Registry.

(** The synapse group type and its [getName()]. *)
Context {SynapseGroupInternal : Type}.
Variable getName : SynapseGroupInternal -> string.

(** The interface [PresynapticUpdateStrategy::Base]: the virtual methods
    that backend.cc calls on a strategy found in the registry. *)
Record Base : Type := mkStrategy {
  isCompatible : SynapseGroupInternal -> bool;
  getNumThreads : SynapseGroupInternal -> N;
  getSynapticMatrixRowStride : SynapseGroupInternal -> N
}.

(** [s_PresynapticUpdateStrategies]: the registry, in registration order. *)
Definition Registry : Type := list Base.

(** The initial registry: [PreSpan], then [PostSpan]. *)
Definition initialRegistry (PreSpan PostSpan : Base) : Registry := [PreSpan; PostSpan].

(** [addPresynapticUpdateStrategy]: [push_back]. *)
Definition addPresynapticUpdateStrategy (strategy : Base) (r : Registry) : Registry :=
  r ++ [strategy].

(** The loop from [rbegin()] to [rend()]. *)
Fixpoint scan (reversed : list Base) (sg : SynapseGroupInternal) : option Base :=
  match reversed with
  | [] => None
  | s :: rest => if isCompatible s sg then Some s else scan rest sg
  end.

Definition getPresynapticUpdateStrategy (r : Registry) (sg : SynapseGroupInternal)
  : exn + Base :=
  match scan (rev r) sg with
  | Some s => inr s
  | None =>
      inl (runtime_error
             ("Unable to find a suitable presynaptic update strategy for synapse group '"
                +:+ getName sg +:+ "'"))
  end.

(** [getNumPresynapticUpdateThreads], lines 1968-1971. *)
Definition getNumPresynapticUpdateThreads (r : Registry) (sg : SynapseGroupInternal)
  : exn + N :=
  match getPresynapticUpdateStrategy r sg with
  | inr s => inr (getNumThreads s sg)
  | inl e => inl e
  end.

End Registry.
End PresynapticUpdateStrategy.

(** ** Kernel source literals (backend.cc, lines 2173-2180) *)

Module KernelSource.

(** The double-quote character. *)
Definition dquote : string := String "034"%char EmptyString.

(** [std::string::substr(pos, len)]: throws when [pos] is beyond the end,
    and otherwise returns at most [len] characters. *)
Definition substr (s : string) (pos len : N) : exn + string :=
  if (pos <=? N.of_nat (String.length s))%N
  then inr (String.substring (N.to_nat pos) (N.to_nat len) s)
  else inl out_of_range.

(** [for(size_t i = 0; i < parts; i++)] with [count] iterations left; the
    operands of the chain of [<<] are evaluated from left to right. *)
Fixpoint partsLoop (count : nat) (i : N) (kernelStr : string) (partLength : N)
  : Gen unit :=
  match count with
  | O => ret tt
  | S count' =>
      emit [Str ("R" +:+ dquote +:+ "(")] ;;
      let! part := lift (substr kernelStr (SizeT.mul i partLength) partLength) in
      emit [Str part; Str (")" +:+ dquote); Endl] ;;
      partsLoop count' (N.succ i) kernelStr partLength
  end.

Definition divideKernelStreamInParts (kernelCode : string) (partLength : N) : Gen unit :=
  let kernelStr := kernelCode in
  let parts := SizeT.ceilDivide (N.of_nat (String.length kernelStr)) partLength in
  partsLoop (N.to_nat parts) 0 kernelStr partLength.

End KernelSource.

(** ** Extra global parameters (backend.cc, lines 1711-1726) *)

Module ExtraGlobalParam.
Section VarLocation.

(** [VarLocation] is a set of flags; its declaration is missing, so the
    bit of [VarLocation::ZERO_COPY] is a parameter. *)
Definition VarLocation : Type := N.
Variable ZERO_COPY : VarLocation.

(** [locA & locB] on [VarLocation], an operator declared with the
    enumeration: whether the two sets of flags share a flag. *)
Definition hasFlag (locA locB : VarLocation) : bool := negb (N.land locA locB =? 0)%N.

Definition genExtraGlobalParamPush (type name : string) (loc : VarLocation)
           (countVarName prefix : string) : Gen unit :=
  if negb (hasFlag loc ZERO_COPY)
  then throw (ToBeImplemented "genExtraGlobalParamPush")
  else ret tt.

Definition genExtraGlobalParamPull (type name : string) (loc : VarLocation)
           (countVarName prefix : string) : Gen unit :=
  if negb (hasFlag loc ZERO_COPY)
  then throw (ToBeImplemented "genExtraGlobalParamPull")
  else ret tt.

End VarLocation.
End ExtraGlobalParam.

(** ** The OpenCL backend (src/genn/backends/opencl/backend.cc) *)

Module OpenCL.

Import Merge.

(** The kernels, in the order of the entries of [Backend::KernelNames]
    (lines 145-153); the enumeration itself is declared in the missing
    backend.h. *)
Inductive Kernel : Type :=
| KernelNeuronUpdate
| KernelPresynapticUpdate
| KernelPostsynapticUpdate
| KernelSynapseDynamicsUpdate
| KernelInitialize
| KernelInitializeSparse
| KernelPreNeuronReset
| KernelPreSynapseReset.

Definition KernelNames (k : Kernel) : string :=
  match k with
  | KernelNeuronUpdate => "updateNeuronsKernel"
  | KernelPresynapticUpdate => "updatePresynapticKernel"
  | KernelPostsynapticUpdate => "updatePostsynapticKernel"
  | KernelSynapseDynamicsUpdate => "updateSynapseDynamicsKernel"
  | KernelInitialize => "initializeKernel"
  | KernelInitializeSparse => "initializeSparseKernel"
  | KernelPreNeuronReset => "preNeuronResetKernel"
  | KernelPreSynapseReset => "preSynapseResetKernel"
  end.

(** Modelled from the spec: the role tags of section 3; the type
    [MergedGroup::Role] is declared in the missing groupMerged.h. *)
Inductive Role : Type :=
| RoleNeuronUpdate | RoleNeuronSpikeQueueUpdate | RoleNeuronInit
| RolePresynapticUpdate | RolePostsynapticUpdate | RoleSynapseDynamics
| RoleSynapseDenseInit | RoleSynapseConnectivityInit | RoleSynapseSparseInit
| RoleSynapseDendriticDelayUpdate.

(** What backend.cc asks of a neuron group; the class is declared in the
    missing neuronGroupInternal.h. *)
Record NeuronGroupInternal : Type := mkNeuronGroup {
  getNumNeurons : N;
  getNumDelaySlots : N;
  isDelayRequired : bool;
  isSpikeEventRequired : bool;
  isTrueSpikeRequired : bool;
  isSpikeTimeRequired : bool;
  isSimRNGRequired : bool;
  (** [getNeuronModel()->getThresholdConditionCode()] *)
  getThresholdConditionCode : string
}.

Definition NeuronGroupMerged : Type := MergedGroup NeuronGroupInternal Role.

(** [std::string::empty()]. *)
Definition string_empty (s : string) : bool :=
  match s with EmptyString => true | String _ _ => false end.

(** [groups.size()] *)
Definition size {A} (v : list A) : N := N.of_nat (List.length v).

(** *** Kernel parameters, lines 83-103 *)

(** [for(size_t i = 0; i < groups.size(); i++)] of
    [genMergedGroupKernelParams] with [count] iterations left. *)
Fixpoint genMergedGroupKernelParams_loop (count : nat) (i groupsSize : N)
         (name : string) (includeFinalComma : bool) : Gen unit :=
  match count with
  | O => ret tt
  | S count' =>
      emit [Str "__global struct Merged"; Str name; Str "Group"; Num i;
            Str " *d_merged"; Str name; Str "Group"; Num i] ;;
      (if includeFinalComma || negb (i =? SizeT.sub groupsSize 1)%N
       then emit [Str ", "] else ret tt) ;;
      genMergedGroupKernelParams_loop count' (N.succ i) groupsSize name includeFinalComma
  end.

Definition genMergedGroupKernelParams {T} (groups : list T) (name : string)
           (includeFinalComma : bool) : Gen unit :=
  genMergedGroupKernelParams_loop (List.length groups) 0 (size groups) name includeFinalComma.

Fixpoint setMergedGroupKernelParams_loop (count : nat) (i : N)
         (kernelName name : string) : Gen unit :=
  match count with
  | O => ret tt
  | S count' =>
      emit [Str "CHECK_OPENCL_ERRORS("; Str kernelName; Str ".setArg("; Num i;
            Str ", d_merged"; Str name; Str "Group"; Num i; Str "));"; Endl] ;;
      setMergedGroupKernelParams_loop count' (N.succ i) kernelName name
  end.

Definition setMergedGroupKernelParams {T} (kernelName : string) (groups : list T)
           (name : string) : Gen unit :=
  setMergedGroupKernelParams_loop (List.length groups) 0 kernelName name.

(** *** [Backend::genEmitSpike], lines 2121-2125.  The operands of a
    chain of [<<] are evaluated from left to right. *)
Definition genEmitSpike (subs : Substitutions.t) (suffix : string) : Gen unit :=
  emit [Str "const unsigned int spk"; Str suffix; Str "Idx = atomic_add(&shSpk";
        Str suffix; Str "Count, 1);"; Endl] ;;
  emit [Str "shSpk"; Str suffix; Str "[spk"; Str suffix; Str "Idx] = "] ;;
  let! id := lift (Substitutions.get "id" subs) in
  emit [Str id; Str ";"; Endl].

Definition barrier : list tok := [Str "barrier(CLK_LOCAL_MEM_FENCE);"; Endl].

Section Backend.

(** [m_KernelWorkGroupSizes]. *)
Variable KernelWorkGroupSizes : Kernel -> N.

(** Methods of the merged neuron groups that groupMerged.h declares:
    [getPrevQueueOffset()], [getCurrentQueueOffset()] and
    [genMergedGroupSpikeCountReset(os)]. *)
Variable getPrevQueueOffset : NeuronGroupMerged -> string.
Variable getCurrentQueueOffset : NeuronGroupMerged -> string.
Variable genMergedGroupSpikeCountReset : NeuronGroupMerged -> Gen unit.

(** [model.getTimePrecision()]. *)
Variable timePrecision : string.

(** The handler types: a handler writes to the stream and may add
    substitutions to the frame it receives. *)
Definition GroupHandler : Type :=
  NeuronGroupMerged -> Substitutions.t -> Gen Substitutions.t.
Definition EmitHandler : Type :=
  NeuronGroupMerged -> Substitutions.t -> Gen unit.
Definition NeuronGroupSimHandler : Type :=
  NeuronGroupMerged -> Substitutions.t -> EmitHandler -> EmitHandler -> Gen Substitutions.t.

(** *** [Backend::genKernelDimensions], lines 2127-2133 *)
Definition globalWorkSize (kernel : Kernel) (numThreads : N) : N :=
  let numOfWorkGroups := SizeT.ceilDivide numThreads (KernelWorkGroupSizes kernel) in
  SizeT.mul (KernelWorkGroupSizes kernel) numOfWorkGroups.

Definition genKernelDimensions (kernel : Kernel) (numThreads : N) : Gen unit :=
  emit [Str "const cl::NDRange globalWorkSize("; Num (globalWorkSize kernel numThreads);
        Str ", 1);"; Endl] ;;
  emit [Str "const cl::NDRange localWorkSize("; Num (KernelWorkGroupSizes kernel);
        Str ", 1);"; Endl].

(** *** The pre-neuron-reset kernel, lines 236-268 *)

(** The loop of lines 246-266; [idPreNeuronReset] is a local of
    [genNeuronUpdate] that the host code reads afterwards. *)
Fixpoint genPreNeuronReset_groups (groups : list NeuronGroupMerged)
         (idPreNeuronReset : N) : Gen N :=
  match groups with
  | [] => ret idPreNeuronReset
  | n :: rest =>
      emit [Str "// merged"; Num (getIndex n); Endl] ;;
      (if (idPreNeuronReset =? 0)%N
       then emit [Str "if(id < "; Num (size (getGroups n)); Str ")"]
       else emit [Str "if(id >= "; Num idPreNeuronReset; Str " && id < ";
                  Num (SizeT.add idPreNeuronReset (size (getGroups n))); Str ")"]) ;;
      Scope (
        emit [Str "__global struct MergedNeuronSpikeQueueUpdateGroup"; Num (getIndex n);
              Str " *group = &d_mergedNeuronSpikeQueueUpdateGroup"; Num (getIndex n);
              Str "[id - "; Num idPreNeuronReset; Str "]; "; Endl] ;;
        let! archetype := lift (getArchetype n) in
        (if isDelayRequired archetype
         then emit [Str "*group->spkQuePtr  = (*group->spkQuePtr + 1) % ";
                    Num (getNumDelaySlots archetype); Str ";"; Endl]
         else ret tt) ;;
        genMergedGroupSpikeCountReset n) ;;
      genPreNeuronReset_groups rest (SizeT.add idPreNeuronReset (size (getGroups n)))
  end.

Definition genPreNeuronResetKernel (groups : list NeuronGroupMerged) : Gen N :=
  emit [Str "__kernel void "; Str (KernelNames KernelPreNeuronReset); Str "("] ;;
  genMergedGroupKernelParams groups "NeuronSpikeQueueUpdate" false ;;
  emit [Str ")"] ;;
  let! idPreNeuronReset :=
    Scope (emit [Str "const unsigned int id = get_global_id(0);"; Endl] ;;
           genPreNeuronReset_groups groups 0) in
  emit [Endl] ;;
  ret idPreNeuronReset.

(** *** The neuron-update kernel: signature, lines 273-275 *)
Definition genNeuronUpdateKernelSignature (groups : list NeuronGroupMerged) : Gen unit :=
  emit [Str "__kernel void "; Str (KernelNames KernelNeuronUpdate); Str "("] ;;
  genMergedGroupKernelParams groups "NeuronUpdate" true ;;
  emit [Str timePrecision; Str " t)"].

(** *** The neuron-update kernel: the group handler, lines 320-425 *)

(** Lines 356-424: what the handler emits after [simHandler] returned. *)
Definition genSpikeCompaction (wuVarUpdateHandler : GroupHandler)
           (ng : NeuronGroupMerged) (archetype : NeuronGroupInternal)
           (popSubs : Substitutions.t) : Gen unit :=
  emit [Str "barrier(CLK_LOCAL_MEM_FENCE);"; Endl] ;;
  (if isSpikeEventRequired archetype then
     emit [Str "if (localId == 1)"] ;;
     Scope (
       emit [Str "if (shSpkEvntCount > 0)"] ;;
       Scope (
         emit [Str "shPosSpkEvnt = atomic_add(&group->spkCntEvnt"] ;;
         if isDelayRequired archetype
         then emit [Str "[*group->spkQuePtr], shSpkEvntCount);"; Endl]
         else emit [Str "[0], shSpkEvntCount);"; Endl])) ;;
     emit [Str "barrier(CLK_LOCAL_MEM_FENCE);"; Endl]
   else ret tt) ;;
  (if negb (string_empty (getThresholdConditionCode archetype)) then
     emit [Str "if (localId == 0)"] ;;
     Scope (
       emit [Str "if (shSpkCount > 0)"] ;;
       Scope (
         emit [Str "shPosSpk = atomic_add(&group->spkCnt"] ;;
         if isDelayRequired archetype && isTrueSpikeRequired archetype
         then emit [Str "[*group->spkQuePtr], shSpkCount);"; Endl]
         else emit [Str "[0], shSpkCount);"; Endl])) ;;
     emit [Str "barrier(CLK_LOCAL_MEM_FENCE);"; Endl]
   else ret tt) ;;
  let queueOffset := if isDelayRequired archetype then "writeDelayOffset + " else "" in
  (if isSpikeEventRequired archetype then
     emit [Str "if (localId < shSpkEvntCount)"] ;;
     Scope (
       emit [Str "group->spkEvnt["; Str queueOffset;
             Str "shPosSpkEvnt + localId] = shSpkEvnt[localId];"; Endl])
   else ret tt) ;;
  (if negb (string_empty (getThresholdConditionCode archetype)) then
     let queueOffsetTrueSpk := if isTrueSpikeRequired archetype then queueOffset else "" in
     emit [Str "if (localId < shSpkCount)"] ;;
     Scope (
       emit [Str "const unsigned int n = shSpk[localId];"; Endl] ;;
       let wuSubs := Substitutions.child popSubs in
       let! wuSubs1 := lift (Substitutions.addVarSubstitution "id" "n" true wuSubs) in
       wuVarUpdateHandler ng wuSubs1 ;;
       emit [Str "group->spk["; Str queueOffsetTrueSpk; Str "shPosSpk + localId] = n;"; Endl] ;;
       (if isSpikeTimeRequired archetype
        then emit [Str "group->spk["; Str queueOffset; Str "n] = t;"; Endl]
        else ret tt))
   else ret tt).

(** The whole handler handed to [genParallelGroup] at line 318. *)
Definition neuronUpdateGroupHandler (simHandler : NeuronGroupSimHandler)
           (wuVarUpdateHandler : GroupHandler)
           (ng : NeuronGroupMerged) (popSubs : Substitutions.t) : Gen Substitutions.t :=
  let! archetype := lift (getArchetype ng) in
  (if isDelayRequired archetype then
     emit [Str "const unsigned int readDelayOffset = "; Str (getPrevQueueOffset ng);
           Str ";"; Endl] ;;
     emit [Str "const unsigned int writeDelayOffset = "; Str (getCurrentQueueOffset ng);
           Str ";"; Endl]
   else ret tt) ;;
  emit [Endl] ;;
  let! popSubs1 :=
    (if isSimRNGRequired archetype then
       let! id := lift (Substitutions.get "id" popSubs) in
       lift (Substitutions.addVarSubstitution "rng" ("&group->rng[" +:+ id +:+ "]")
                                              false popSubs)
     else ret popSubs) in
  emit [Str "if("] ;;
  let! id := lift (Substitutions.get "id" popSubs1) in
  emit [Str id; Str " < group->numNeurons)"] ;;
  let! popSubs2 :=
    Scope (simHandler ng popSubs1
                      (fun _ subs => genEmitSpike subs "")
                      (fun _ subs => genEmitSpike subs "Evnt")) in
  genSpikeCompaction wuVarUpdateHandler ng archetype popSubs2 ;;
  ret popSubs2.

(** *** Host code of the neuron update, lines 455-469 and 474-490.
    [idPreNeuronReset] and [idStart] are the thread counts the two
    kernels were generated with. *)
Definition genNeuronUpdate_configureKernels
           (spikeQueueUpdateGroups neuronUpdateGroups : list NeuronGroupMerged)
           (idPreNeuronReset idStart : N) : Gen unit :=
  (if (0 <? idPreNeuronReset)%N then
     emit [Str "// Configure neuron spike queue update kernel"; Endl] ;;
     emit [Str (KernelNames KernelPreNeuronReset);
           Str (" = cl::Kernel(neuronUpdateProgram, " +:+ KernelSource.dquote);
           Str (KernelNames KernelPreNeuronReset);
           Str (KernelSource.dquote +:+ ");"); Endl] ;;
     setMergedGroupKernelParams (KernelNames KernelPreNeuronReset)
                                spikeQueueUpdateGroups "NeuronSpikeQueueUpdate" ;;
     emit [Endl]
   else ret tt) ;;
  (if (0 <? idStart)%N then
     emit [Str "// Configure neuron update kernel"; Endl] ;;
     emit [Str (KernelNames KernelNeuronUpdate);
           Str (" = cl::Kernel(neuronUpdateProgram, " +:+ KernelSource.dquote);
           Str (KernelNames KernelNeuronUpdate);
           Str (KernelSource.dquote +:+ ");"); Endl] ;;
     setMergedGroupKernelParams (KernelNames KernelNeuronUpdate)
                                neuronUpdateGroups "NeuronUpdate" ;;
     emit [Endl]
   else ret tt).

Definition enqueue (kernel : Kernel) : list tok :=
  [Str "CHECK_OPENCL_ERRORS(commandQueue.enqueueNDRangeKernel(";
   Str (KernelNames kernel);
   Str ", cl::NullRange, globalWorkSize, localWorkSize));"; Endl].

Definition setTimeArg (kernel : Kernel) (position : N) : list tok :=
  [Str "CHECK_OPENCL_ERRORS("; Str (KernelNames kernel); Str ".setArg(";
   Num position; Str ", t));"; Endl].

Definition genUpdateNeurons (neuronUpdateGroups : list NeuronGroupMerged)
           (idPreNeuronReset idStart : N) : Gen unit :=
  emit [Str "void updateNeurons("; Str timePrecision; Str " t)"] ;;
  Scope (
    (if (0 <? idPreNeuronReset)%N then
       Scope (
         genKernelDimensions KernelPreNeuronReset idPreNeuronReset ;;
         emit (enqueue KernelPreNeuronReset) ;;
         emit [Endl])
     else ret tt) ;;
    (if (0 <? idStart)%N then
       Scope (
         emit (setTimeArg KernelNeuronUpdate (size neuronUpdateGroups)) ;;
         emit [Endl] ;;
         genKernelDimensions KernelNeuronUpdate idStart ;;
         emit (enqueue KernelNeuronUpdate))
     else ret tt)).

(** *** Synapse update: signatures (lines 600-603, 738-741), kernel
    configuration (lines 955-967) and launcher (lines 972-1011) *)
Definition genPresynapticUpdateKernelSignature {T} (groups : list T) : Gen unit :=
  emit [Str "__kernel void "; Str (KernelNames KernelPresynapticUpdate); Str "("] ;;
  genMergedGroupKernelParams groups "PresynapticUpdate" true ;;
  emit [Str timePrecision; Str " t)"].

Definition genPostsynapticUpdateKernelSignature {T} (groups : list T) : Gen unit :=
  emit [Str "__kernel void "; Str (KernelNames KernelPostsynapticUpdate); Str "("] ;;
  genMergedGroupKernelParams groups "PostsynapticUpdate" true ;;
  emit [Str timePrecision; Str " t)"].

Definition genSynapseUpdate_configureKernels {T}
           (dendriticDelayUpdateGroups presynapticUpdateGroups postsynapticUpdateGroups : list T)
           (idPreSynapseReset idPresynapticStart idPostsynapticStart : N) : Gen unit :=
  (if (0 <? idPreSynapseReset)%N then
     emit [Str "// Configure dendritic delay update kernel"; Endl] ;;
     emit [Str (KernelNames KernelPreSynapseReset);
           Str (" = cl::Kernel(synapseUpdateProgram, " +:+ KernelSource.dquote);
           Str (KernelNames KernelPreSynapseReset);
           Str (KernelSource.dquote +:+ ");"); Endl] ;;
     setMergedGroupKernelParams (KernelNames KernelPreSynapseReset)
                                dendriticDelayUpdateGroups "SynapseDendriticDelayUpdate" ;;
     emit [Endl]
   else ret tt) ;;
  (if (0 <? idPresynapticStart)%N then
     emit [Str "// Configure presynaptic update kernel"; Endl] ;;
     emit [Str (KernelNames KernelPresynapticUpdate);
           Str (" = cl::Kernel(synapseUpdateProgram, " +:+ KernelSource.dquote);
           Str (KernelNames KernelPresynapticUpdate);
           Str (KernelSource.dquote +:+ ");"); Endl] ;;
     setMergedGroupKernelParams (KernelNames KernelPresynapticUpdate)
                                presynapticUpdateGroups "PresynapticUpdate" ;;
     emit [Endl]
   else ret tt) ;;
  (if (0 <? idPostsynapticStart)%N then
     emit [Str "// Configure postsynaptic update kernel"; Endl] ;;
     emit [Str (KernelNames KernelPostsynapticUpdate);
           Str (" = cl::Kernel(synapseUpdateProgram, " +:+ KernelSource.dquote);
           Str (KernelNames KernelPostsynapticUpdate);
           Str (KernelSource.dquote +:+ ");"); Endl] ;;
     setMergedGroupKernelParams (KernelNames KernelPostsynapticUpdate)
                                postsynapticUpdateGroups "PostsynapticUpdate" ;;
     emit [Endl]
   else ret tt).

Definition genUpdateSynapses {T}
           (presynapticUpdateGroups postsynapticUpdateGroups : list T)
           (idPreSynapseReset idPresynapticStart idPostsynapticStart : N) : Gen unit :=
  emit [Str "void updateSynapses("; Str timePrecision; Str " t)"] ;;
  Scope (
    (if (0 <? idPreSynapseReset)%N then
       Scope (
         genKernelDimensions KernelPreSynapseReset idPreSynapseReset ;;
         emit (enqueue KernelPreSynapseReset))
     else ret tt) ;;
    (if (0 <? idPresynapticStart)%N then
       Scope (
         emit (setTimeArg KernelPresynapticUpdate (size presynapticUpdateGroups)) ;;
         emit [Endl] ;;
         genKernelDimensions KernelPresynapticUpdate idPresynapticStart ;;
         emit (enqueue KernelPresynapticUpdate))
     else ret tt) ;;
    (if (0 <? idPostsynapticStart)%N then
       Scope (
         emit (setTimeArg KernelPostsynapticUpdate (size postsynapticUpdateGroups)) ;;
         emit [Endl] ;;
         genKernelDimensions KernelPostsynapticUpdate idPostsynapticStart ;;
         emit (enqueue KernelPostsynapticUpdate))
     else ret tt)).

End Backend.
End OpenCL.

(** ** The emitted code, in the words of the specification *)

Module Emitted.

Import Merge OpenCL.

(** *** Thread ranges of the pre-neuron-reset kernel *)

(** One thread per member: the range of a merged group starts where the
    range of the group before it ends, and is as long as the group has
    members. *)
Fixpoint memberRanges (start : N) (groups : list NeuronGroupMerged) : list (N * N) :=
  match groups with
  | [] => []
  | n :: rest =>
      (start, start + size (getGroups n))%N
        :: memberRanges (start + size (getGroups n)) rest
  end.

Definition totalMembers (groups : list NeuronGroupMerged) : N :=
  fold_right (fun n acc => size (getGroups n) + acc)%N 0%N groups.

(** The guard of the range [[lo, hi)]; the lower bound is left out when
    it is 0. *)
Definition guard (range : N * N) : list tok :=
  if (fst range =? 0)%N
  then [Str "if(id < "; Num (snd range); Str ")"]
  else [Str "if(id >= "; Num (fst range); Str " && id < "; Num (snd range); Str ")"].

(** What the pre-neuron-reset kernel does for the members of the merged
    group [n], whose threads are those of [range]: thread [id] works on
    member [id - lo]; when the archetype requires delay the spike queue
    pointer advances by one slot modulo the number of delay slots; then
    the spike counts are reset. *)
Definition spikeQueueUpdate (reset : NeuronGroupMerged -> list tok)
           (n : NeuronGroupMerged) (range : N * N) : list tok :=
  [Str "// merged"; Num (getIndex n); Endl] ++ guard range ++ [ScopeB] ++
  [Str "__global struct MergedNeuronSpikeQueueUpdateGroup"; Num (getIndex n);
   Str " *group = &d_mergedNeuronSpikeQueueUpdateGroup"; Num (getIndex n);
   Str "[id - "; Num (fst range); Str "]; "; Endl] ++
  match getGroups n with
  | archetype :: _ =>
      (if isDelayRequired archetype
       then [Str "*group->spkQuePtr  = (*group->spkQuePtr + 1) % ";
             Num (getNumDelaySlots archetype); Str ";"; Endl]
       else []) ++ reset n
  | [] => []
  end ++ [ScopeE].

(** *** Kernel source literals *)

(** The raw-string chunk that holds [part], on a line of its own. *)
Definition rawChunk (part : string) : list tok :=
  [Str ("R" +:+ KernelSource.dquote +:+ "("); Str part;
   Str (")" +:+ KernelSource.dquote); Endl].

(** *** Kernel launches *)

(** The two declarations [genKernelDimensions] emits. *)
Definition kernelDimensions (wgs : Kernel -> N) (kernel : Kernel) (numThreads : N)
  : list tok :=
  [Str "const cl::NDRange globalWorkSize("; Num (globalWorkSize wgs kernel numThreads);
   Str ", 1);"; Endl;
   Str "const cl::NDRange localWorkSize("; Num (wgs kernel); Str ", 1);"; Endl].

(** The host statement that enqueues the kernel named [kernelName] on
    the command queue. *)
Definition enqueueNDRangeKernel (kernelName : string) : list tok :=
  [Str "CHECK_OPENCL_ERRORS(commandQueue.enqueueNDRangeKernel("; Str kernelName;
   Str ", cl::NullRange, globalWorkSize, localWorkSize));"; Endl].

(** The declarations of the global and the local work size of a launch. *)
Definition workSizes (sizes : N * N) : list tok :=
  [Str "const cl::NDRange globalWorkSize("; Num (fst sizes); Str ", 1);"; Endl;
   Str "const cl::NDRange localWorkSize("; Num (snd sizes); Str ", 1);"; Endl].

(** The host function [updateNeurons] when the pre-neuron-reset kernel
    has threads: in a block of its own the pre-neuron-reset kernel is
    enqueued with the work sizes [resetSizes]; after that block, if the
    neuron-update kernel has threads, a second block sets the time
    argument of the neuron-update kernel at the position
    [numNeuronUpdateGroups] and enqueues it with the work sizes
    [updateSizes]. *)
Definition updateNeurons (timePrecision : string) (numNeuronUpdateGroups : N)
           (resetSizes updateSizes : N * N) (updateHasThreads : bool) : list tok :=
  [Str "void updateNeurons("; Str timePrecision; Str " t)"; ScopeB] ++
  ([ScopeB] ++ workSizes resetSizes ++ enqueueNDRangeKernel "preNeuronResetKernel"
            ++ [Endl; ScopeE]) ++
  (if updateHasThreads
   then [ScopeB; Str "CHECK_OPENCL_ERRORS("; Str "updateNeuronsKernel"; Str ".setArg(";
         Num numNeuronUpdateGroups; Str ", t));"; Endl; Endl]
          ++ workSizes updateSizes ++ enqueueNDRangeKernel "updateNeuronsKernel"
          ++ [ScopeE]
   else []) ++
  [ScopeE].

(** *** Kernel parameters and host arguments *)

Inductive KernelParam : Type :=
| MergedGroupPointer (name : string) (index : N)  (* pointer to a merged-group struct *)
| TimeParam.                                      (* the time scalar [t] *)

(** The declaration of a parameter in the kernel signature. *)
Definition declaration (timePrecision : string) (p : KernelParam) : list tok :=
  match p with
  | MergedGroupPointer name i =>
      [Str "__global struct Merged"; Str name; Str "Group"; Num i;
       Str " *d_merged"; Str name; Str "Group"; Num i]
  | TimeParam => [Str timePrecision; Str " t"]
  end.

(** The host expression passed for a parameter. *)
Definition argument (p : KernelParam) : list tok :=
  match p with
  | MergedGroupPointer name i => [Str "d_merged"; Str name; Str "Group"; Num i]
  | TimeParam => [Str "t"]
  end.

Fixpoint commaSeparated (items : list (list tok)) : list tok :=
  match items with
  | [] => []
  | [item] => item
  | item :: rest => item ++ [Str ", "] ++ commaSeparated rest
  end.

Definition kernelSignature (kernel : Kernel) (timePrecision : string)
           (params : list KernelParam) : list tok :=
  [Str "__kernel void "; Str (KernelNames kernel); Str "("]
    ++ commaSeparated (map (declaration timePrecision) params) ++ [Str ")"].

(** The host statement that sets the argument at [position]. *)
Definition setArg (kernel : Kernel) (position : N) (p : KernelParam) : list tok :=
  [Str "CHECK_OPENCL_ERRORS("; Str (KernelNames kernel); Str ".setArg("; Num position;
   Str ", "] ++ argument p ++ [Str "));"; Endl].

(** One [setArg] per parameter, each at the position of its parameter,
    starting at [position]. *)
Fixpoint setArgs (kernel : Kernel) (position : N) (params : list KernelParam)
  : list tok :=
  match params with
  | [] => []
  | p :: rest => setArg kernel position p ++ setArgs kernel (N.succ position) rest
  end.

(** The merged-group pointers with indices [first], [first + 1], ... *)
Fixpoint mergedGroupPointers (name : string) (first : N) (count : nat)
  : list KernelParam :=
  match count with
  | O => []
  | S count' => MergedGroupPointer name first :: mergedGroupPointers name (N.succ first) count'
  end.

(** The parameters of a kernel that takes the time scalar: one pointer
    per merged group in index order, then [t]. *)
Definition timedKernelParams (name : string) (numGroups : nat) : list KernelParam :=
  mergedGroupPointers name 0 numGroups ++ [TimeParam].

(** [block] occurs in [whole] as a contiguous run of insertions. *)
Definition occursIn (block whole : list tok) : Prop :=
  exists before after, whole = before ++ block ++ after.

(** The device signature [signature] and the host code [configure]
    (which builds the kernel) and [launcher] (which enqueues it) agree on
    the parameters [params] of [kernel]: the signature declares them in
    order, and the host sets, for each position, the argument of the
    parameter declared at that position; the merged-group pointers in
    [configure], the time scalar in [launcher]. *)
Definition ArgumentsAgree (kernel : Kernel) (timePrecision name : string)
           (numGroups : nat) (signature configure launcher : Gen unit) : Prop :=
  let params := timedKernelParams name numGroups in
  exists sig cfg launch pointerArgs timeArg : list tok,
    writes signature tt sig /\ writes configure tt cfg /\ writes launcher tt launch /\
    CodeStream.same_text sig (kernelSignature kernel timePrecision params) /\
    occursIn pointerArgs cfg /\
    occursIn timeArg launch /\
    CodeStream.same_text (pointerArgs ++ timeArg) (setArgs kernel 0 params).

(** *** The spike compaction protocol (section 4.7) *)

(** The reservation of a range of the global buffer of the spikes with
    suffix [suffix]: the shared count is added atomically to the counter
    at [index], and the old value of the counter is the reserved offset. *)
Definition reservation (suffix index : string) : list tok :=
  [Str ("shPosSpk" +:+ suffix +:+ " = atomic_add(&group->spkCnt" +:+ suffix
          +:+ "[" +:+ index +:+ "], shSpk" +:+ suffix +:+ "Count);"); Endl].

(** The designated thread [localId] makes the reservation when there is
    something to reserve; a barrier follows. *)
Definition reserve (suffix localId index : string) : list tok :=
  [Str ("if (localId == " +:+ localId +:+ ")"); ScopeB;
   Str ("if (shSpk" +:+ suffix +:+ "Count > 0)"); ScopeB]
    ++ reservation suffix index
    ++ [ScopeE; ScopeE; Str "barrier(CLK_LOCAL_MEM_FENCE);"; Endl].

(** The threads with a local id below the shared count run [body]. *)
Definition copyOut (suffix : string) (body : list tok) : list tok :=
  [Str ("if (localId < shSpk" +:+ suffix +:+ "Count)"); ScopeB] ++ body ++ [ScopeE].

(** The store of [value] into the global buffer at the reserved offset. *)
Definition store (suffix offset value : string) : list tok :=
  [Str ("group->spk" +:+ suffix +:+ "[" +:+ offset +:+ "shPosSpk" +:+ suffix
          +:+ " + localId] = " +:+ value +:+ ";"); Endl].

Definition hasThreshold (archetype : NeuronGroupInternal) : bool :=
  negb (string_empty (getThresholdConditionCode archetype)).

(** The index of the spike counter as the claim states it. *)
Definition claimedIndex (archetype : NeuronGroupInternal) : string :=
  if isDelayRequired archetype then "*group->spkQuePtr" else "0".

(** The index of the counter of spike-like events. *)
Definition eventIndex (archetype : NeuronGroupInternal) : string :=
  if isDelayRequired archetype then "*group->spkQuePtr" else "0".

(** The index of the counter of true spikes. *)
Definition spikeIndex (archetype : NeuronGroupInternal) : string :=
  if isDelayRequired archetype && isTrueSpikeRequired archetype
  then "*group->spkQuePtr" else "0".

Definition eventOffset (archetype : NeuronGroupInternal) : string :=
  if isDelayRequired archetype then "writeDelayOffset + " else "".

Definition spikeOffset (archetype : NeuronGroupInternal) : string :=
  if isTrueSpikeRequired archetype then eventOffset archetype else "".

(** The frame handed to the weight-update handler: a child of the group
    frame in which ["id"] stands for the compacted spike [n]. *)
Definition wuFrame (popSubs : Substitutions.t) : Substitutions.t :=
  Substitutions.Child (<["id" := "n"]> empty) empty popSubs.

(** The protocol for a group with archetype [archetype]; [wu] is what the
    weight-update handler emits and [afterStore] what follows the store
    of a true spike. *)
Definition compaction (archetype : NeuronGroupInternal) (wu afterStore : list tok)
  : list tok :=
  OpenCL.barrier ++
  (if isSpikeEventRequired archetype
   then reserve "Evnt" "1" (eventIndex archetype) else []) ++
  (if hasThreshold archetype
   then reserve "" "0" (spikeIndex archetype) else []) ++
  (if isSpikeEventRequired archetype
   then copyOut "Evnt" (store "Evnt" (eventOffset archetype) "shSpkEvnt[localId]")
   else []) ++
  (if hasThreshold archetype
   then copyOut "" ([Str "const unsigned int n = shSpk[localId];"; Endl] ++ wu
                      ++ store "" (spikeOffset archetype) "n" ++ afterStore)
   else []).

End Emitted.

(** ** Concrete inputs used to run the embedding *)

Module Inputs.

(** Kernel-level substitutions as [genNeuronUpdate] builds them: the
    time variable only. *)
Definition kernelSubs : Substitutions.t :=
  Substitutions.Root (<["t" := "t"]> empty) empty.

(** A group handler that emits one statement using the local id and
    leaves the frame as it is. *)
Definition workHandler (numNeurons : N) (popSubs : Substitutions.t)
  : Gen Substitutions.t :=
  emit [Str "if("] ;;
  let! id := lift (Substitutions.get "id" popSubs) in
  emit [Str id; Str " < "; Num numNeurons; Str ") work("; Str id; Str ");"; Endl] ;;
  ret popSubs.

(** Two neuron populations of 100 and 250 neurons, keyed by name. *)
Definition twoGroups : list (string * N) := [("a", 100%N); ("b", 250%N)].

Definition oneGroup : list (string * N) := [("a", 100%N)].

(** Padding to a workgroup size of 32. *)
Definition pad32 (numNeurons : N) : N := SizeT.padSize numNeurons 32.

(** A compatibility test that is not transitive: two sizes are
    compatible when they differ by at most one. *)
Definition near (a b : nat) : bool := (Nat.leb (a - b) 1 && Nat.leb (b - a) 1)%nat.

(** A compatibility test that is an equivalence: equal parity. *)
Definition sameParity (a b : nat) : bool := Bool.eqb (Nat.even a) (Nat.even b).

(** A weight-update handler that records the time of the spike of the
    neuron ["id"] stands for. *)
Definition wuHandler (ng : OpenCL.NeuronGroupMerged) (subs : Substitutions.t)
  : Gen Substitutions.t :=
  emit [Str "group->lastSpike["] ;;
  let! id := lift (Substitutions.get "id" subs) in
  emit [Str id; Str "] = t;"; Endl] ;;
  ret subs.

(** A population with axonal delay whose true spikes no synapse group
    needs, and with a threshold condition. *)
Definition delayedNoTrueSpike : OpenCL.NeuronGroupInternal :=
  OpenCL.mkNeuronGroup 100 5 true false false false false "V >= Vthresh".

(** A population that requires spike times. *)
Definition withSpikeTimes : OpenCL.NeuronGroupInternal :=
  OpenCL.mkNeuronGroup 100 1 false false true true false "V >= Vthresh".

(** A population without axonal delay. *)
Definition undelayed : OpenCL.NeuronGroupInternal :=
  OpenCL.mkNeuronGroup 250 1 false true true false false "V >= Vthresh".

Definition merged (index : N) (role : OpenCL.Role)
           (members : list OpenCL.NeuronGroupInternal) : OpenCL.NeuronGroupMerged :=
  Merge.mkMergedGroup index "" members role.

(** Two merged spike-queue-update groups: two delayed populations, and
    one population without delay. *)
Definition spikeQueueGroups : list OpenCL.NeuronGroupMerged :=
  [merged 0 OpenCL.RoleNeuronSpikeQueueUpdate [delayedNoTrueSpike; delayedNoTrueSpike];
   merged 1 OpenCL.RoleNeuronSpikeQueueUpdate [undelayed]].

Definition neuronUpdateGroups : list OpenCL.NeuronGroupMerged :=
  [merged 0 OpenCL.RoleNeuronUpdate [delayedNoTrueSpike; delayedNoTrueSpike];
   merged 1 OpenCL.RoleNeuronUpdate [undelayed]].

(** The spike-count reset of a merged group. *)
Definition resetOut (n : OpenCL.NeuronGroupMerged) : list tok :=
  [Str "group->spkCnt[0] = 0;"; Endl].

Definition reset (n : OpenCL.NeuronGroupMerged) : Gen unit := emit (resetOut n).

(** A workgroup size of 32 for every kernel. *)
Definition wgs32 (k : OpenCL.Kernel) : N := 32%N.

(** A short kernel source. *)
Definition kernelSource : string := "__kernel void k() { }".

End Inputs.

Module MergeOrder.
Section Archetypes.
Context {Group : Type}.
Variable canMerge : Group -> Group -> bool.

(** The archetypes ([front()]) of the proto-merged groups, in the order
    of the groups. *)
Definition archetypes (protoMergedGroups : list (list Group)) : list Group :=
  flat_map (fun p => match p with archetype :: _ => [archetype] | [] => [] end)
           protoMergedGroups.

(** No archetype accepts the archetype of a group created after it. *)
Definition archetypesApart (protoMergedGroups : list (list Group)) : Prop :=
  ForallOrdPairs (fun a b => canMerge a b = false) (archetypes protoMergedGroups).

End Archetypes.
End MergeOrder.

Module DispatchText.

(** What [genParallelGroup] writes before the handler of a group whose
    range starts at [idStart] and has the padded size [paddedSize]. *)
Definition groupHeader (name : string) (idStart paddedSize : N) : list tok :=
  [Str "// Group "; Str name; Endl] ++
  (if (idStart =? 0)%N
   then [Str "if(id < "; Num paddedSize; Str ")"; OB 1]
   else [Str "if(id >= "; Num idStart; Str " && id < ";
         Num (SizeT.add idStart paddedSize); Str ")"; OB 1;
         Str "const unsigned int lid = id - "; Num idStart; Str ";"; Endl]).

(** The frame the handler of that group receives: a child of the kernel
    frame in which ["id"] stands for the local id. *)
Definition groupFrame (kernelSubs : Substitutions.t) (idStart : N) : Substitutions.t :=
  Substitutions.Child (<["id" := if (idStart =? 0)%N then "id" else "lid"]> empty)
                      empty kernelSubs.

End DispatchText.

(** ** Start-ID tables of the merged groups (backend.cc, lines 105-135) *)
Module StartIDs.
Import Merge.
Section GenGroupStartIDs.
Context {Role : Type}.

(** One triple of the parameter pack [Args... args]: a vector of merged
    groups, the prefix of its arrays and the thread count of a member. *)
Record GroupArgs : Type := mkGroupArgs {
  T : Type;
  mergedGroups : list (MergedGroup T Role);
  groupStartPrefix : string;
  getNumThreads : T -> N
}.

Variable workgroupSize : N.

(** [for(const auto &ng : m.getGroups())], lines 118-121; the state is
    the stream and the reference [idStart]. *)
Fixpoint genGroupStartIDs_members {T} (getNumThreads : T -> N) (groups : list T)
  : M (CodeStream.t * N) unit :=
  match groups with
  | [] => ret tt
  | ng :: rest =>
      let! idStart := getRef in
      onStream (emit [Num idStart; Str ", "]) ;;
      putRef (SizeT.add idStart (SizeT.padSize (getNumThreads ng) workgroupSize)) ;;
      genGroupStartIDs_members getNumThreads rest
  end.

(** [for(const auto &m : mergedGroups)], lines 115-123. *)
Fixpoint genGroupStartIDs_merged {T} (groupStartPrefix : string) (getNumThreads : T -> N)
         (mergedGroups : list (MergedGroup T Role)) : M (CodeStream.t * N) unit :=
  match mergedGroups with
  | [] => ret tt
  | m :: rest =>
      onStream (emit [Str "__constant unsigned int d_merged"; Str groupStartPrefix;
                      Str "GroupStartID"; Num (getIndex m); Str "[] = {"]) ;;
      genGroupStartIDs_members getNumThreads (getGroups m) ;;
      onStream (emit [Str "};"; Endl]) ;;
      genGroupStartIDs_merged groupStartPrefix getNumThreads rest
  end.

(** [genGroupStartIDs(os, idStart, workgroupSize, args...)], lines
    105-127: the overload without groups does nothing, the other one
    handles the first triple and recurses on the remaining ones. *)
Fixpoint genGroupStartIDs (args : list GroupArgs) : M (CodeStream.t * N) unit :=
  match args with
  | [] => ret tt
  | a :: rest =>
      genGroupStartIDs_merged (groupStartPrefix a) (getNumThreads a) (mergedGroups a) ;;
      genGroupStartIDs rest
  end.

(** [genMergedKernelDataStructures(os, workgroupSize, args...)], lines
    129-135: [idStart] is a local that starts at 0. *)
Definition genMergedKernelDataStructures (args : list GroupArgs) : Gen unit :=
  fun os =>
    let idStart := 0%N in
    let '(r, (os', _)) := genGroupStartIDs args (os, idStart) in (r, os').

(** *** The tables, with unbounded arithmetic *)

(** [n] rounded up to a multiple of the workgroup size. *)
Definition padded (n : N) : N := ((n + workgroupSize - 1) / workgroupSize * workgroupSize)%N.

(** The first thread of each member when the first member starts at
    [start]: every member starts where the padded range of the member
    before it ends. *)
Fixpoint memberStarts {T} (getNumThreads : T -> N) (start : N) (groups : list T) : list N :=
  match groups with
  | [] => []
  | ng :: rest =>
      start :: memberStarts getNumThreads (start + padded (getNumThreads ng)) rest
  end.

(** The end of the padded range of the last member. *)
Definition membersEnd {T} (getNumThreads : T -> N) (start : N) (groups : list T) : N :=
  fold_left (fun acc ng => acc + padded (getNumThreads ng))%N groups start.

(** The declaration of the array of start IDs of one merged group. *)
Definition startIDArray (groupStartPrefix : string) (index : N) (starts : list N)
  : list tok :=
  [Str "__constant unsigned int d_merged"; Str groupStartPrefix;
   Str "GroupStartID"; Num index; Str "[] = {"]
    ++ flat_map (fun s => [Num s; Str ", "]) starts ++ [Str "};"; Endl].

Fixpoint mergedArrays {T} (groupStartPrefix : string) (getNumThreads : T -> N)
         (start : N) (mergedGroups : list (MergedGroup T Role)) : list tok :=
  match mergedGroups with
  | [] => []
  | m :: rest =>
      startIDArray groupStartPrefix (getIndex m)
                   (memberStarts getNumThreads start (getGroups m))
        ++ mergedArrays groupStartPrefix getNumThreads
                        (membersEnd getNumThreads start (getGroups m)) rest
  end.

Definition mergedEnd {T} (getNumThreads : T -> N) (start : N)
           (mergedGroups : list (MergedGroup T Role)) : N :=
  fold_left (fun acc m => membersEnd getNumThreads acc (getGroups m)) mergedGroups start.

Fixpoint allArrays (start : N) (args : list GroupArgs) : list tok :=
  match args with
  | [] => []
  | a :: rest =>
      mergedArrays (groupStartPrefix a) (getNumThreads a) start (mergedGroups a)
        ++ allArrays (mergedEnd (getNumThreads a) start (mergedGroups a)) rest
  end.

Definition allEnd (start : N) (args : list GroupArgs) : N :=
  fold_left (fun acc a => mergedEnd (getNumThreads a) acc (mergedGroups a)) args start.

End GenGroupStartIDs.

Arguments GroupArgs : clear implicits.

End StartIDs.

(** ** Synapse groups and their thread counts (backend.cc, lines
       1983-1991) *)
Module Synapse.

(** [unsigned int] is a 32-bit unsigned integer. *)
Definition UINT_MAX : N := (2 ^ 32 - 1)%N.

(** What backend.cc asks of a synapse group; the class [SynapseGroup] is
    declared in the missing synapseGroup.h.  The neuron counts and the
    row and column lengths are [unsigned int] values. *)
Record SynapseGroupInternal : Type := mkSynapseGroup {
  (** [getMatrixType()], a set of flags *)
  getMatrixType : N;
  getSrcNeuronGroup : OpenCL.NeuronGroupInternal;
  getTrgNeuronGroup : OpenCL.NeuronGroupInternal;
  getMaxConnections : N;
  getMaxDendriticDelayTimesteps : N;
  isSparseConnectivityInitRequired : bool;
  (** [getWUModel()->getLearnPostCode()] *)
  getLearnPostCode : string
}.

(** The counts of a group fit [unsigned int]. *)
Definition wellTyped (sg : SynapseGroupInternal) : Prop :=
  (OpenCL.getNumNeurons (getSrcNeuronGroup sg) <= UINT_MAX)%N /\
  (OpenCL.getNumNeurons (getTrgNeuronGroup sg) <= UINT_MAX)%N /\
  (getMaxConnections sg <= UINT_MAX)%N.

(** [matrixType & connectivity]: the enumeration
    [SynapseMatrixConnectivity] is declared in the missing
    synapseMatrixType.h, with an operator [&] that tells whether a matrix
    type has a flag. *)
Definition hasConnectivity (matrixType connectivity : N) : bool :=
  negb (N.land matrixType connectivity =? 0)%N.

Section Threads.

(** The bit of [SynapseMatrixConnectivity::SPARSE]. *)
Variable SPARSE : N.

(** [Backend::getNumSynapseDynamicsThreads], lines 1983-1991: the first
    factor is cast to [size_t], so the product is computed in [size_t]. *)
Definition getNumSynapseDynamicsThreads (sg : SynapseGroupInternal) : N :=
  if hasConnectivity (getMatrixType sg) SPARSE
  then SizeT.mul (OpenCL.getNumNeurons (getSrcNeuronGroup sg)) (getMaxConnections sg)
  else SizeT.mul (OpenCL.getNumNeurons (getSrcNeuronGroup sg))
                 (OpenCL.getNumNeurons (getTrgNeuronGroup sg)).

End Threads.
End Synapse.

(** ** Synapse groups at which the theorems are applied *)
Module SynapseInputs.

(** The connectivity flags, one bit each. *)
Definition SPARSE : N := 2.
Definition BITMASK : N := 4.

(** A sparse projection from 100 to 250 neurons with at most 20 synapses
    per row, initialised on the device, with dendritic delay. *)
Definition sparseGroup : Synapse.SynapseGroupInternal :=
  Synapse.mkSynapseGroup SPARSE Inputs.delayedNoTrueSpike Inputs.undelayed 20 8 true "".

(** A bitmask projection from 100 to 250 neurons, initialised on the
    device. *)
Definition bitmaskGroup : Synapse.SynapseGroupInternal :=
  Synapse.mkSynapseGroup BITMASK Inputs.delayedNoTrueSpike Inputs.undelayed 250 1 true "".

(** A dense projection from 100 to 250 neurons: neither of the two
    flags. *)
Definition denseGroup : Synapse.SynapseGroupInternal :=
  Synapse.mkSynapseGroup 1 Inputs.delayedNoTrueSpike Inputs.undelayed 250 1 false "".

End SynapseInputs.

(** ** Variables: definition, allocation and copies (backend.cc, lines
       1605-1628, 1655-1660, 1786-1881, 2041-2119 and 2158-2171) *)
Module HostVariables.

Import ExtraGlobalParam.

(** The code streams a function of the backend is handed.  Two
    parameters of a function may be bound to the same stream, so a
    parameter holds the name of a stream and the streams live in a
    store. *)
Inductive Stream : Type :=
| definitions | definitionsInternal | runner | allocations | free.

Definition Stream_eqb (a b : Stream) : bool :=
  match a, b with
  | definitions, definitions | definitionsInternal, definitionsInternal
  | runner, runner | allocations, allocations | free, free => true
  | _, _ => false
  end.

Definition Streams : Type := Stream -> CodeStream.t.

(** A generator run on the stream [s] of the store. *)
Definition onStore {A} (s : Stream) (g : Gen A) : M Streams A :=
  fun streams =>
    let '(r, os') := g (streams s) in
    (r, fun s' => if Stream_eqb s s' then os' else streams s').

Section Backend.

(** The bits of [VarLocation::HOST], [VarLocation::DEVICE],
    [VarLocation::ZERO_COPY] and [VarLocation::HOST_DEVICE]; the
    enumeration is declared in the missing variableMode.h. *)
Variable HOST : VarLocation.
Variable DEVICE : VarLocation.
Variable ZERO_COPY : VarLocation.
Variable HOST_DEVICE : VarLocation.

(** [Utils::isTypePointer] and [Utils::getUnderlyingType], declared in
    the missing gennUtils.h. *)
Variable isTypePointer : string -> bool.
Variable getUnderlyingType : string -> string.

(** The type registry of [BackendBase] (missing backendBase.h):
    [addType]. *)
Context {BackendBase : Type}.
Variable addType : string -> N -> BackendBase -> BackendBase.

(** [MemAlloc::zero()] (missing backendBase.h). *)
Context {MemAlloc : Type}.
Variable MemAlloc_zero : MemAlloc.

(** The members of [Backend] that these functions use: the base class
    and the set [m_DeviceTypes]. *)
Record Backend : Type := mkBackend {
  base : BackendBase;
  m_DeviceTypes : gset string
}.

(** [Backend::addDeviceType], lines 2158-2162. *)
Definition addDeviceType (type : string) (size : N) (b : Backend) : Backend :=
  mkBackend (addType type size (base b)) ({[ type ]} ∪ m_DeviceTypes b).

(** [Backend::isDeviceType], lines 2164-2171. *)
Definition isDeviceType (b : Backend) (type : string) : bool :=
  let underlyingType := if isTypePointer type then getUnderlyingType type else type in
  bool_decide (underlyingType ∈ m_DeviceTypes b).

(** [Backend::genVariableDefinition], lines 1605-1618. *)
Definition genVariableDefinition (b : Backend) (definitions definitionsInternal : Stream)
           (type name : string) (loc : VarLocation) : M Streams unit :=
  let deviceType := isDeviceType b type in
  (if hasFlag loc HOST then
     (if deviceType then
        throw (runtime_error ("Variable '" +:+ name +:+ "' is of device-only type '"
                                +:+ type +:+ "' but is located on the host"))
      else ret tt) ;;
     onStore definitions
             (emit [Str "EXPORT_VAR "; Str type; Str " "; Str name; Str ";"; Endl])
   else ret tt) ;;
  (if hasFlag loc DEVICE then
     onStore definitionsInternal
             (emit [Str "EXPORT_VAR cl::Buffer d_"; Str name; Str ";"; Endl])
   else ret tt).

(** [Backend::genVariableImplementation], lines 1620-1628. *)
Definition genVariableImplementation (type name : string) (loc : VarLocation) : Gen unit :=
  (if hasFlag loc HOST then emit [Str type; Str " "; Str name; Str ";"; Endl] else ret tt) ;;
  (if hasFlag loc DEVICE then emit [Str "cl::Buffer d_"; Str name; Str ";"; Endl]
   else ret tt).

(** [Backend::genVariableFree], lines 1655-1660. *)
Definition genVariableFree (name : string) (loc : VarLocation) : Gen unit :=
  if hasFlag loc HOST then emit [Str "delete[] "; Str name; Str ";"; Endl] else ret tt.

(** [Backend::genVariablePush], lines 1786-1804. *)
Definition genVariablePush (type name : string) (loc : VarLocation)
           (autoInitialized : bool) (count : N) : Gen unit :=
  if negb (hasFlag loc ZERO_COPY) then
    (if autoInitialized then emit [Str "if(!uninitialisedOnly)"; OB 1101] else ret tt) ;;
    emit [Str "CHECK_OPENCL_ERRORS(commandQueue.enqueueWriteBuffer(d_"; Str name] ;;
    emit [Str ", "; Str "CL_TRUE"] ;;
    emit [Str ", "; Str "0"] ;;
    emit [Str ", "; Num count; Str " * sizeof("; Str type; Str ")"] ;;
    emit [Str ", "; Str name; Str "));"; Endl] ;;
    (if autoInitialized then emit [CB 1101] else ret tt)
  else ret tt.

(** [Backend::genVariablePull], lines 1806-1815. *)
Definition genVariablePull (type name : string) (loc : VarLocation) (count : N) : Gen unit :=
  if negb (hasFlag loc ZERO_COPY) then
    emit [Str "CHECK_OPENCL_ERRORS(commandQueue.enqueueReadBuffer(d_"; Str name] ;;
    emit [Str ", "; Str "CL_TRUE"] ;;
    emit [Str ", "; Str "0"] ;;
    emit [Str ", "; Num count; Str " * sizeof("; Str type; Str ")"] ;;
    emit [Str ", "; Str name; Str "));"; Endl]
  else ret tt.

(** Methods of [NeuronGroupInternal] that its record above does not
    have: [getName()], [isVarQueueRequired(name)] and
    [getSpikeLocation()]. *)
Variable getName : OpenCL.NeuronGroupInternal -> string.
Variable isVarQueueRequired : OpenCL.NeuronGroupInternal -> string -> bool.
Variable getSpikeLocation : OpenCL.NeuronGroupInternal -> VarLocation.

(** [Backend::genCurrentVariablePush], lines 1817-1837. *)
Definition genCurrentVariablePush (ng : OpenCL.NeuronGroupInternal) (type name : string)
           (loc : VarLocation) : Gen unit :=
  if isVarQueueRequired ng name && OpenCL.isDelayRequired ng && negb (hasFlag loc ZERO_COPY)
  then genVariablePush type (name +:+ getName ng) loc false (OpenCL.getNumNeurons ng)
  else genVariablePush type (name +:+ getName ng) loc false (OpenCL.getNumNeurons ng).

(** [Backend::genCurrentVariablePull], lines 1839-1859. *)
Definition genCurrentVariablePull (ng : OpenCL.NeuronGroupInternal) (type name : string)
           (loc : VarLocation) : Gen unit :=
  if isVarQueueRequired ng name && OpenCL.isDelayRequired ng && negb (hasFlag loc ZERO_COPY)
  then genVariablePull type (name +:+ getName ng) loc (OpenCL.getNumNeurons ng)
  else genVariablePull type (name +:+ getName ng) loc (OpenCL.getNumNeurons ng).

(** [Backend::genPopulationRNG], lines 1867-1881. *)
Definition genPopulationRNG (b : Backend)
           (definitions definitionsInternal runner allocations free : Stream)
           (name : string) (count : N) : M Streams MemAlloc :=
  genVariableDefinition b definitionsInternal definitionsInternal
                        "clrngLfsr113Stream*" name HOST_DEVICE ;;
  onStore runner (genVariableImplementation "clrngLfsr113Stream*" name HOST_DEVICE) ;;
  onStore free (genVariableFree name HOST_DEVICE) ;;
  let allocation := MemAlloc_zero in
  onStore allocations
          (emit [Str name; Str " = clrngLfsr113CreateStreams(NULL, "; Num count;
                 Str ", &"; Str name; Str "Count, NULL);"; Endl]) ;;
  onStore allocations
          (emit [Str "d_"; Str name;
                 Str " = cl::Buffer(clContext, CL_MEM_READ_WRITE | CL_MEM_COPY_HOST_PTR, ";
                 Num count; Str ", "; Str name; Str ");"; Endl]) ;;
  ret allocation.

(** [Backend::genCurrentSpikePush] ([write]) and
    [Backend::genCurrentSpikePull] ([read]), lines 2041-2119. *)
Definition genCurrentSpikePush (ng : OpenCL.NeuronGroupInternal) (spikeEvent : bool)
  : Gen unit :=
  if negb (hasFlag (getSpikeLocation ng) ZERO_COPY) then
    let delayRequired :=
      if spikeEvent then OpenCL.isDelayRequired ng
      else OpenCL.isTrueSpikeRequired ng && OpenCL.isDelayRequired ng in
    let spikeCntPrefix := if spikeEvent then "glbSpkCntEvnt" else "glbSpkCnt" in
    let spikePrefix := if spikeEvent then "glbSpkEvnt" else "glbSpk" in
    if delayRequired then
      emit [Str "CHECK_OPENCL_ERRORS(commandQueue.enqueueWriteBuffer(d_";
            Str spikeCntPrefix; Str (getName ng)] ;;
      emit [Str ", "; Str "CL_TRUE"] ;;
      emit [Str ", "; Str "0"] ;;
      emit [Str ", sizeof(unsigned int)"] ;;
      emit [Str ", "; Str spikeCntPrefix; Str (getName ng); Str "));"; Endl] ;;
      emit [Str "CHECK_OPENCL_ERRORS(commandQueue.enqueueWriteBuffer(d_";
            Str spikePrefix; Str (getName ng)] ;;
      emit [Str ", "; Str "CL_TRUE"] ;;
      emit [Str ", "; Str "0"] ;;
      emit [Str ", "; Num (OpenCL.getNumNeurons ng); Str " * sizeof(unsigned int)"] ;;
      emit [Str ", "; Str spikePrefix; Str (getName ng); Str "));"; Endl]
    else
      emit [Str "CHECK_OPENCL_ERRORS(commandQueue.enqueueWriteBuffer(d_";
            Str spikeCntPrefix; Str (getName ng)] ;;
      emit [Str ", "; Str "CL_TRUE"] ;;
      emit [Str ", "; Str "0"] ;;
      emit [Str ", sizeof(unsigned int)"] ;;
      emit [Str ", "; Str spikeCntPrefix; Str (getName ng); Str "));"; Endl] ;;
      emit [Str "CHECK_OPENCL_ERRORS(commandQueue.enqueueWriteBuffer(d_";
            Str spikePrefix; Str (getName ng)] ;;
      emit [Str ", "; Str "CL_TRUE"] ;;
      emit [Str ", "; Str "0"] ;;
      emit [Str ", "; Str spikeCntPrefix; Str (getName ng);
            Str "[0] * sizeof(unsigned int)"] ;;
      emit [Str ", "; Str spikePrefix; Str (getName ng); Str "));"; Endl]
  else ret tt.

Definition genCurrentSpikePull (ng : OpenCL.NeuronGroupInternal) (spikeEvent : bool)
  : Gen unit :=
  if negb (hasFlag (getSpikeLocation ng) ZERO_COPY) then
    let delayRequired :=
      if spikeEvent then OpenCL.isDelayRequired ng
      else OpenCL.isTrueSpikeRequired ng && OpenCL.isDelayRequired ng in
    let spikeCntPrefix := if spikeEvent then "glbSpkCntEvnt" else "glbSpkCnt" in
    let spikePrefix := if spikeEvent then "glbSpkEvnt" else "glbSpk" in
    if delayRequired then
      emit [Str "CHECK_OPENCL_ERRORS(commandQueue.enqueueReadBuffer(d_";
            Str spikeCntPrefix; Str (getName ng)] ;;
      emit [Str ", "; Str "CL_TRUE"] ;;
      emit [Str ", "; Str "0"] ;;
      emit [Str ", sizeof(unsigned int)"] ;;
      emit [Str ", "; Str spikeCntPrefix; Str (getName ng); Str "));"; Endl] ;;
      emit [Str "CHECK_OPENCL_ERRORS(commandQueue.enqueueReadBuffer(d_";
            Str spikePrefix; Str (getName ng)] ;;
      emit [Str ", "; Str "CL_TRUE"] ;;
      emit [Str ", "; Str "0"] ;;
      emit [Str ", "; Num (OpenCL.getNumNeurons ng); Str " * sizeof(unsigned int)"] ;;
      emit [Str ", "; Str spikePrefix; Str (getName ng); Str "));"; Endl]
    else
      emit [Str "CHECK_OPENCL_ERRORS(commandQueue.enqueueReadBuffer(d_";
            Str spikeCntPrefix; Str (getName ng)] ;;
      emit [Str ", "; Str "CL_TRUE"] ;;
      emit [Str ", "; Str "0"] ;;
      emit [Str ", sizeof(unsigned int)"] ;;
      emit [Str ", "; Str spikeCntPrefix; Str (getName ng); Str "));"; Endl] ;;
      emit [Str "CHECK_OPENCL_ERRORS(commandQueue.enqueueReadBuffer(d_";
            Str spikePrefix; Str (getName ng)] ;;
      emit [Str ", "; Str "CL_TRUE"] ;;
      emit [Str ", "; Str "0"] ;;
      emit [Str ", "; Str spikeCntPrefix; Str (getName ng);
            Str "[0] * sizeof(unsigned int)"] ;;
      emit [Str ", "; Str spikePrefix; Str (getName ng); Str "));"; Endl]
  else ret tt.

(** *** Copies between host and device, as emitted *)

(** A blocking copy of [size] bytes between the device buffer
    [d_<name>] and the host array [name]; [direction] is [Write] for a
    copy to the device and [Read] for a copy from it. *)
Definition transfer (direction name : string) (size : list tok) : list tok :=
  [Str "CHECK_OPENCL_ERRORS(commandQueue.enqueue"; Str direction; Str "Buffer(d_";
   Str name; Str ", CL_TRUE, 0, "] ++ size ++ [Str ", "; Str name; Str "));"; Endl].

(** The size of [count] elements of type [type]. *)
Definition elements (count : N) (type : string) : list tok :=
  [Num count; Str " * sizeof("; Str type; Str ")"].

(** The copies of the current spikes of [ng]: the first spike count, and
    then the spikes from the start of the buffer, as many as the
    population has neurons when [allNeurons] is set, else as many as the
    first count says. *)
Definition spikeTransfers (direction : string) (ng : OpenCL.NeuronGroupInternal)
           (suffix : string) (allNeurons : bool) : list tok :=
  transfer direction ("glbSpkCnt" +:+ suffix +:+ getName ng) [Str "sizeof(unsigned int)"]
    ++ transfer direction ("glbSpk" +:+ suffix +:+ getName ng)
         (if allNeurons
          then [Num (OpenCL.getNumNeurons ng); Str " * sizeof(unsigned int)"]
          else [Str ("glbSpkCnt" +:+ suffix +:+ getName ng);
                Str "[0] * sizeof(unsigned int)"]).

End Backend.
End HostVariables.

(** ** Initialisation kernels (backend.cc, lines 1078-1083, 1132-1181,
       1187-1189 and 1355-1424) *)
Module Init.

Import Merge OpenCL Synapse.

Definition SynapseGroupMerged : Type := MergedGroup SynapseGroupInternal Role.

Section Backend.

Variable KernelWorkGroupSizes : Kernel -> N.
Variable SPARSE : N.
Variable BITMASK : N.

(** The signature of the initialisation kernel, lines 1078-1083. *)
Definition genInitializeKernelSignature
           (neuronInitGroups : list NeuronGroupMerged)
           (synapseDenseInitGroups synapseConnectivityInitGroups : list SynapseGroupMerged)
  : Gen unit :=
  emit [Str "__kernel void "; Str (KernelNames KernelInitialize); Str "("] ;;
  genMergedGroupKernelParams neuronInitGroups "NeuronInit" true ;;
  genMergedGroupKernelParams synapseDenseInitGroups "SynapseDenseInit" true ;;
  genMergedGroupKernelParams synapseConnectivityInitGroups "SynapseConnectivityInit" true ;;
  emit [Str "unsigned int deviceRNGSeed"] ;;
  emit [Str ")"].

(** The signature of the sparse initialisation kernel, lines 1187-1189. *)
Definition genInitializeSparseKernelSignature
           (synapseSparseInitGroups : list SynapseGroupMerged) : Gen unit :=
  emit [Str "__kernel void "; Str (KernelNames KernelInitializeSparse); Str "("] ;;
  genMergedGroupKernelParams synapseSparseInitGroups "SynapseSparseInit" false ;;
  emit [Str ")"].

(** The configuration of the two kernels at the end of the emitted
    [buildInitializeProgram], lines 1355-1369. *)
Definition genInit_configureKernels
           (neuronInitGroups : list NeuronGroupMerged)
           (synapseDenseInitGroups synapseConnectivityInitGroups
              synapseSparseInitGroups : list SynapseGroupMerged)
           (idInitStart idSparseInitStart : N) : Gen unit :=
  (if (0 <? idInitStart)%N then
     emit [Str "// Configure initialization kernel"; Endl] ;;
     emit [Str (KernelNames KernelInitialize);
           Str (" = cl::Kernel(initializeProgram, " +:+ KernelSource.dquote);
           Str (KernelNames KernelInitialize);
           Str (KernelSource.dquote +:+ ");"); Endl] ;;
     setMergedGroupKernelParams (KernelNames KernelInitialize)
                                neuronInitGroups "NeuronInit" ;;
     setMergedGroupKernelParams (KernelNames KernelInitialize)
                                synapseDenseInitGroups "SynapseDenseInit" ;;
     setMergedGroupKernelParams (KernelNames KernelInitialize)
                                synapseConnectivityInitGroups "SynapseConnectivityInit" ;;
     emit [Endl]
   else ret tt) ;;
  (if (0 <? idSparseInitStart)%N then
     emit [Str "// Configure sparse initialization kernel"; Endl] ;;
     emit [Str (KernelNames KernelInitializeSparse);
           Str (" = cl::Kernel(initializeProgram, " +:+ KernelSource.dquote);
           Str (KernelNames KernelInitializeSparse);
           Str (KernelSource.dquote +:+ ");"); Endl] ;;
     setMergedGroupKernelParams (KernelNames KernelInitializeSparse)
                                synapseSparseInitGroups "SynapseSparseInit" ;;
     emit [Endl]
   else ret tt).

(** The number of 32-bit words of the bitmask of [s], line 1386. *)
Definition gpSize (s : SynapseGroupInternal) : N :=
  SizeT.add (SizeT.mul (getNumNeurons (getSrcNeuronGroup s))
                       (getNumNeurons (getTrgNeuronGroup s)) / 32) 1.

(** [for (const auto& s : model.getSynapseGroups())], lines 1383-1393;
    [synapseGroups] lists the entries of the map in key order. *)
Fixpoint genInitialize_fills (synapseGroups : list (string * SynapseGroupInternal))
  : Gen unit :=
  match synapseGroups with
  | [] => ret tt
  | (name, s) :: rest =>
      (if isSparseConnectivityInitRequired s && hasConnectivity (getMatrixType s) BITMASK
       then
         emit [Str "CHECK_OPENCL_ERRORS(commandQueue.enqueueFillBuffer(d_gp"; Str name;
               Str ", 0, 0, "; Num (gpSize s); Str " * sizeof(uint32_t)));"; Endl]
       else if hasConnectivity (getMatrixType s) SPARSE
               && negb (string_empty (getLearnPostCode s))
       then
         emit [Str "CHECK_OPENCL_ERRORS(commandQueue.enqueueFillBuffer(d_colLength";
               Str name; Str ", 0, 0, "; Num (getNumNeurons (getTrgNeuronGroup s));
               Str " * sizeof(unsigned int)));"; Endl]
       else ret tt) ;;
      genInitialize_fills rest
  end.

(** The host function [initialize], lines 1374-1403. *)
Definition genInitialize
           (neuronInitGroups : list NeuronGroupMerged)
           (synapseDenseInitGroups synapseConnectivityInitGroups : list SynapseGroupMerged)
           (synapseGroups : list (string * SynapseGroupInternal))
           (idInitStart : N) : Gen unit :=
  emit [Str "void initialize()"] ;;
  Scope (
    if (0 <? idInitStart)%N then
      Scope (
        emit [Str "unsigned int deviceRNGSeed = 0;"; Endl] ;;
        genInitialize_fills synapseGroups ;;
        emit [Endl] ;;
        emit [Endl] ;;
        genKernelDimensions KernelWorkGroupSizes KernelInitialize idInitStart ;;
        let numInitGroups :=
          SizeT.add (SizeT.add (size neuronInitGroups) (size synapseDenseInitGroups))
                    (size synapseConnectivityInitGroups) in
        emit [Str "CHECK_OPENCL_ERRORS("; Str (KernelNames KernelInitialize);
              Str ".setArg("; Num numInitGroups; Str ", deviceRNGSeed));"; Endl] ;;
        emit (enqueue KernelInitialize))
    else ret tt).

(** The host function [initializeSparse], lines 1409-1424. *)
Definition genInitializeSparse (idSparseInitStart : N) : Gen unit :=
  emit [Str "void initializeSparse()"] ;;
  Scope (
    emit [Str "copyStateToDevice(true);"; Endl] ;;
    emit [Str "copyConnectivityToDevice(true);"; Endl] ;;
    if (0 <? idSparseInitStart)%N then
      Scope (
        genKernelDimensions KernelWorkGroupSizes KernelInitializeSparse idSparseInitStart ;;
        emit (enqueue KernelInitializeSparse))
    else ret tt).

(** [maxSynapses], lines 1144-1147: the largest number of synapses of a
    member of the merged group. *)
Definition maxSynapses (groups : list SynapseGroupInternal) : N :=
  fold_left (fun maxSynapses s =>
               N.max maxSynapses
                     (SizeT.mul (getNumNeurons (getTrgNeuronGroup s))
                                (getNumNeurons (getSrcNeuronGroup s))))
            groups 0%N.

(** The declaration of [rowStartGID], lines 1150-1156. *)
Definition genRowStartGID (groups : list SynapseGroupInternal)
           (popSubs : Substitutions.t) : Gen unit :=
  emit [Str "// Calculate indices"; Endl] ;;
  if negb (N.land (maxSynapses groups) 0xFFFFFFFF00000000 =? 0)%N then
    emit [Str "const ulong rowStartGID = "] ;;
    let! id := lift (Substitutions.get "id" popSubs) in
    emit [Str id; Str " * group->trgNumNeurons;"; Endl]
  else
    emit [Str "const unsigned int rowStartGID = "] ;;
    let! id := lift (Substitutions.get "id" popSubs) in
    emit [Str id; Str " * group->trgNumNeurons;"; Endl].

(** The handler of the merged connectivity-initialisation groups, lines
    1132-1181; [sgSparseConnectHandler] is the handler of the caller and
    [assert(false)] fails. *)
Definition connectivityInitHandler
           (sgSparseConnectHandler : SynapseGroupMerged -> Substitutions.t
                                     -> Gen Substitutions.t)
           (sg : SynapseGroupMerged) (popSubs : Substitutions.t) : Gen Substitutions.t :=
  emit [Str "// only do this for existing presynaptic neurons"; Endl] ;;
  emit [Str "if("] ;;
  let! id := lift (Substitutions.get "id" popSubs) in
  emit [Str id; Str " < group->srcNumNeurons)"] ;;
  Scope (
    let! archetype := lift (getArchetype sg) in
    let! popSubs1 :=
      (if hasConnectivity (getMatrixType archetype) BITMASK then
         genRowStartGID (getGroups sg) popSubs ;;
         lift (Substitutions.addFuncSubstitution
                 "addSynapse" 1
                 "atomic_or(&group->gp[(rowStartGID + $(0)) / 32], 0x80000000 >> ((rowStartGID + $(0)) & 31))"
                 false popSubs)
       else if hasConnectivity (getMatrixType archetype) SPARSE then
         let! id := lift (Substitutions.get "id" popSubs) in
         let rowLength := "group->rowLength[" +:+ id +:+ "]" in
         emit [Str rowLength; Str " = 0;"; Endl] ;;
         let! id := lift (Substitutions.get "id" popSubs) in
         lift (Substitutions.addFuncSubstitution
                 "addSynapse" 1
                 ("group->ind[(" +:+ id +:+ " * group->rowStride) + (" +:+ rowLength
                    +:+ "++)] = $(0)")
                 false popSubs)
       else throw assertion_failed) in
    let! id := lift (Substitutions.get "id" popSubs1) in
    let! popSubs2 := lift (Substitutions.addVarSubstitution "id_pre" id false popSubs1) in
    sgSparseConnectHandler sg popSubs2).

End Backend.

(** *** The parameters of the initialisation kernel and their host
    arguments, as emitted *)

(** The pointers to the merged groups of the three kinds that the
    initialisation kernel handles, in the order of its signature. *)
Definition initPointers (neuronInit denseInit connectivityInit : nat)
  : list Emitted.KernelParam :=
  Emitted.mergedGroupPointers "NeuronInit" 0 neuronInit
    ++ Emitted.mergedGroupPointers "SynapseDenseInit" 0 denseInit
    ++ Emitted.mergedGroupPointers "SynapseConnectivityInit" 0 connectivityInit.

(** The signature: the pointers, then the seed. *)
Definition initializeKernelSignature (neuronInit denseInit connectivityInit : nat)
  : list tok :=
  [Str "__kernel void "; Str "initializeKernel"; Str "("]
    ++ Emitted.commaSeparated
         (map (Emitted.declaration "") (initPointers neuronInit denseInit connectivityInit)
            ++ [[Str "unsigned int deviceRNGSeed"]])
    ++ [Str ")"].

(** The host statements that set the pointers: the pointer of the merged
    group with index [i] is set at position [i], for each kind. *)
Definition initPointerArguments (neuronInit denseInit connectivityInit : nat) : list tok :=
  Emitted.setArgs KernelInitialize 0 (Emitted.mergedGroupPointers "NeuronInit" 0 neuronInit)
    ++ Emitted.setArgs KernelInitialize 0
         (Emitted.mergedGroupPointers "SynapseDenseInit" 0 denseInit)
    ++ Emitted.setArgs KernelInitialize 0
         (Emitted.mergedGroupPointers "SynapseConnectivityInit" 0 connectivityInit).

(** The host statement that sets the seed at [position]. *)
Definition setSeedArgument (position : N) : list tok :=
  [Str "CHECK_OPENCL_ERRORS("; Str "initializeKernel"; Str ".setArg("; Num position;
   Str ", deviceRNGSeed));"; Endl].

(** The host statement that clears [words] 32-bit words of the bitmask
    of the synapse group [name]. *)
Definition clearBitmask (name : string) (words : N) : list tok :=
  [Str "CHECK_OPENCL_ERRORS(commandQueue.enqueueFillBuffer(d_gp"; Str name;
   Str ", 0, 0, "; Num words; Str " * sizeof(uint32_t)));"; Endl].

End Init.

(** ** Initialisation groups at which the theorems are applied *)
Module InitInputs.

Definition connectivityInitGroups : list Init.SynapseGroupMerged :=
  [Merge.mkMergedGroup 0 "" [SynapseInputs.bitmaskGroup] OpenCL.RoleSynapseConnectivityInit;
   Merge.mkMergedGroup 1 "" [SynapseInputs.sparseGroup] OpenCL.RoleSynapseConnectivityInit].

Definition sparseInitGroups : list Init.SynapseGroupMerged :=
  [Merge.mkMergedGroup 0 "" [SynapseInputs.sparseGroup] OpenCL.RoleSynapseSparseInit].

Definition denseInitGroups : list Init.SynapseGroupMerged :=
  [Merge.mkMergedGroup 0 "" [SynapseInputs.denseGroup] OpenCL.RoleSynapseDenseInit].

(** The synapse groups of the model, keyed by name. *)
Definition synapseGroups : list (string * Synapse.SynapseGroupInternal) :=
  [("syn0", SynapseInputs.sparseGroup); ("syn1", SynapseInputs.bitmaskGroup)].

(** A frame in which ["id"] stands for the local id. *)
Definition lidFrame : Substitutions.t :=
  Substitutions.Child (<["id" := "lid"]> empty) empty Inputs.kernelSubs.

(** A connectivity handler that writes nothing. *)
Definition noHandler (sg : Init.SynapseGroupMerged) (popSubs : Substitutions.t)
  : Gen Substitutions.t := ret popSubs.

End InitInputs.

(** ** The dendritic-delay reset kernel (backend.cc, lines 565-596) *)
Module SynapseReset.

Import Merge OpenCL Synapse Init.

(** [genSynapseUpdate] writes to two streams: the host code goes to
    [os], the kernels to [synapseUpdateKernels]. *)
Definition HostAndKernels : Type := (CodeStream.t * CodeStream.t)%type.

Definition onHost {A} (g : Gen A) : M HostAndKernels A :=
  fun '(os, kernels) => let '(r, os') := g os in (r, (os', kernels)).

Definition onKernels {A} (g : Gen A) : M HostAndKernels A :=
  fun '(os, kernels) => let '(r, kernels') := g kernels in (r, (os, kernels')).

(** [{ CodeStream::Scope b(os); body }] and
    [{ CodeStream::Scope b(synapseUpdateKernels); body }] for a body that
    writes to both streams. *)
Definition ScopeOnHost {A} (body : M HostAndKernels A) : M HostAndKernels A :=
  fun '(os, kernels) =>
    let '(r, (os', kernels')) := body (os ++ [ScopeB], kernels) in
    (r, (os' ++ [ScopeE], kernels')).

Definition ScopeOnKernels {A} (body : M HostAndKernels A) : M HostAndKernels A :=
  fun '(os, kernels) =>
    let '(r, (os', kernels')) := body (os, kernels ++ [ScopeB]) in
    (r, (os', kernels' ++ [ScopeE])).

(** [for(const auto &n : ...)], lines 576-593; [idPreSynapseReset] is a
    local of [genSynapseUpdate] that the host code reads afterwards. *)
Fixpoint genPreSynapseReset_groups (groups : list SynapseGroupMerged)
         (idPreSynapseReset : N) : M HostAndKernels N :=
  match groups with
  | [] => ret idPreSynapseReset
  | n :: rest =>
      onKernels (emit [Str "// merged"; Num (getIndex n); Endl]) ;;
      (if (idPreSynapseReset =? 0)%N
       then onKernels (emit [Str "if(id < "; Num (size (getGroups n)); Str ")"])
       else onKernels (emit [Str "if(id >= "; Num idPreSynapseReset; Str " && id < ";
                             Num (SizeT.add idPreSynapseReset (size (getGroups n)));
                             Str ")"])) ;;
      ScopeOnHost (
        onKernels (emit [Str "MergedSynapseDendriticDelayUpdateGroup"; Num (getIndex n);
                         Str " *group = &d_mergedSynapseDendriticDelayUpdateGroup";
                         Num (getIndex n); Str "[id - "; Num idPreSynapseReset;
                         Str "]; "; Endl]) ;;
        onKernels (emit [Str "*group->denDelayPtr = (*group->denDelayPtr + 1) % "]) ;;
        let! archetype := lift (getArchetype n) in
        onKernels (emit [Num (getMaxDendriticDelayTimesteps archetype); Str ";"; Endl])) ;;
      genPreSynapseReset_groups rest (SizeT.add idPreSynapseReset (size (getGroups n)))
  end.

(** Lines 565-596: the kernel is declared when there are merged
    dendritic-delay-update groups. *)
Definition genPreSynapseResetKernel (groups : list SynapseGroupMerged) : M HostAndKernels N :=
  let idPreSynapseReset := 0%N in
  match groups with
  | [] => ret idPreSynapseReset
  | _ :: _ =>
      onKernels (emit [Str "__kernel void "; Str (KernelNames KernelPreSynapseReset);
                       Str "("]) ;;
      onKernels (genMergedGroupKernelParams groups "SynapseDendriticDelayUpdate" false) ;;
      onKernels (emit [Str ")"]) ;;
      ScopeOnKernels (
        onKernels (emit [Str "const unsigned int id = get_global_id(0);"; Endl]) ;;
        let! idPreSynapseReset := genPreSynapseReset_groups groups idPreSynapseReset in
        onHost (emit [Endl]) ;;
        ret idPreSynapseReset)
  end.

(** *** The kernel, as emitted *)

(** What the kernel holds for the merged group [n] whose threads are
    those of [[start, start + members)]: the guard, and after it, not
    enclosed in braces, the pointer to the member of the thread and the
    advance of its dendritic delay pointer by one slot modulo [slots]. *)
Definition dendriticDelayUpdate (index start members slots : N) : list tok :=
  [Str "// merged"; Num index; Endl] ++
  Emitted.guard (start, start + members)%N ++
  [Str "MergedSynapseDendriticDelayUpdateGroup"; Num index;
   Str " *group = &d_mergedSynapseDendriticDelayUpdateGroup"; Num index;
   Str "[id - "; Num start; Str "]; "; Endl;
   Str "*group->denDelayPtr = (*group->denDelayPtr + 1) % "; Num slots; Str ";"; Endl].

Fixpoint dendriticDelayUpdates (start : N) (groups : list SynapseGroupMerged) : list tok :=
  match groups with
  | [] => []
  | n :: rest =>
      dendriticDelayUpdate (getIndex n) start (size (getGroups n))
                           (match getGroups n with
                            | archetype :: _ => getMaxDendriticDelayTimesteps archetype
                            | [] => 0%N
                            end)
        ++ dendriticDelayUpdates (start + size (getGroups n)) rest
  end.

Definition totalDelayMembers (groups : list SynapseGroupMerged) : N :=
  fold_right (fun n acc => size (getGroups n) + acc)%N 0%N groups.

End SynapseReset.


(** ** The body of the neuron-update kernel before the groups
       (backend.cc, lines 278-315) *)
Module NeuronKernel.

Import Merge OpenCL.

(** [std::any_of] with a predicate that may throw: the scan stops at the
    first element that satisfies the predicate. *)
Fixpoint any_of {A} (pred : A -> exn + bool) (v : list A) : exn + bool :=
  match v with
  | [] => inr false
  | x :: rest =>
      match pred x with
      | inl e => inl e
      | inr true => inr true
      | inr false => any_of pred rest
      end
  end.

Section Backend.

Variable KernelWorkGroupSizes : Kernel -> N.

(** Lines 278-315.  [kernelSubs0] is the frame that the constructor
    [Substitutions kernelSubs(openclFunctions, model.getPrecision())]
    builds; the frame with the time variable is used by the code that
    follows. *)
Definition genNeuronUpdateKernelProlog (kernelSubs0 : Substitutions.t)
           (groups : list NeuronGroupMerged) : Gen Substitutions.t :=
  emit [Str "const unsigned int localId = get_local_id(0);"; Endl] ;;
  emit [Str "const unsigned int id = get_global_id(0);"; Endl] ;;
  let! kernelSubs := lift (Substitutions.addVarSubstitution "t" "t" false kernelSubs0) in
  let! anySpikeEvent :=
    lift (any_of (fun n => match getArchetype n with
                           | inr archetype => inr (isSpikeEventRequired archetype)
                           | inl e => inl e
                           end) groups) in
  (if anySpikeEvent then
     emit [Str "volatile __local unsigned int shSpkEvnt[";
           Num (KernelWorkGroupSizes KernelNeuronUpdate); Str "];"; Endl] ;;
     emit [Str "volatile __local unsigned int shPosSpkEvnt;"; Endl] ;;
     emit [Str "volatile __local unsigned int shSpkEvntCount;"; Endl] ;;
     emit [Endl] ;;
     emit [Str "if (localId == 1)"] ;;
     Scope (emit [Str "shSpkEvntCount = 0;"; Endl]) ;;
     emit [Endl]
   else ret tt) ;;
  let! anyTrueSpike :=
    lift (any_of (fun n => match getArchetype n with
                           | inr archetype =>
                               inr (negb (string_empty (getThresholdConditionCode archetype)))
                           | inl e => inl e
                           end) groups) in
  (if anyTrueSpike then
     emit [Str "volatile __local unsigned int shSpk[";
           Num (KernelWorkGroupSizes KernelNeuronUpdate); Str "];"; Endl] ;;
     emit [Str "volatile __local unsigned int shPosSpk;"; Endl] ;;
     emit [Str "volatile __local unsigned int shSpkCount;"; Endl] ;;
     emit [Str "if (localId == 0)"] ;;
     Scope (emit [Str "shSpkCount = 0;"; Endl]) ;;
     emit [Endl]
   else ret tt) ;;
  emit [Str "barrier(CLK_LOCAL_MEM_FENCE);"; Endl] ;;
  ret kernelSubs.

End Backend.

(** *** The shared spike buffers, as emitted *)

(** The declarations of the shared buffer of the spikes with suffix
    [suffix], of its offset and of its count. *)
Definition sharedSpikes (suffix : string) (workGroupSize : N) : list tok :=
  [Str ("volatile __local unsigned int shSpk" +:+ suffix +:+ "["); Num workGroupSize;
   Str "];"; Endl;
   Str ("volatile __local unsigned int shPosSpk" +:+ suffix +:+ ";"); Endl;
   Str ("volatile __local unsigned int shSpk" +:+ suffix +:+ "Count;"); Endl].

(** The count is set to zero by the thread with the local id [localId]. *)
Definition zeroCount (suffix localId : string) : list tok :=
  [Str ("if (localId == " +:+ localId +:+ ")"); ScopeB;
   Str ("shSpk" +:+ suffix +:+ "Count = 0;"); Endl; ScopeE].

End NeuronKernel.

(** ** Atomic addition of floating-point values (backend.cc, lines 64-81
       and 1958-1966) *)
Module AtomicAdd.

(** [genAtomicAddFloat], lines 64-81. *)
Definition genAtomicAddFloat (memoryType : string) : Gen unit :=
  emit [Str "void atomic_add_f_"; Str memoryType; Str "(volatile __"; Str memoryType;
        Str " float *source, const float operand)"] ;;
  Scope (
    emit [Str "union { unsigned int intVal; float floatVal; } newVal;"; Endl] ;;
    emit [Str "union { unsigned int intVal; float floatVal; } prevVal;"; Endl] ;;
    emit [Str "do"] ;;
    Scope (
      emit [Str "prevVal.floatVal = *source;"; Endl] ;;
      emit [Str "newVal.floatVal = prevVal.floatVal + operand;"; Endl]) ;;
    emit [Str "while (atomic_cmpxchg((volatile __"; Str memoryType;
          Str " unsigned int *)source, prevVal.intVal, newVal.intVal) != prevVal.intVal);";
          Endl]) ;;
  emit [Endl].

(** [Backend::getFloatAtomicAdd], lines 1958-1966. *)
Definition getFloatAtomicAdd (ftype memoryType : string) : string :=
  if String.eqb ftype "float" || String.eqb ftype "double"
  then "atomic_add_f_" +:+ memoryType
  else "atomic_add".

End AtomicAdd.

(** ** Loading and storing the state of a neuron
       (src/genn/code_generator/generateNeuronUpdate.cc, lines 82-89 and
       299-306) *)
Module NeuronState.
Section Handler.

(** [backend.getVarPrefix()], [ng.getName()], [ng.isVarQueueRequired]
    and [ng.isDelayRequired()]. *)
Variable getVarPrefix : string.
Variable ngName : string.
Variable isVarQueueRequired : string -> bool.
Variable isDelayRequired : bool.

(** [for(const auto &v : nm->getVars())], lines 82-89: a variable is a
    pair of its name and its type. *)
Fixpoint genLoadVars (vars : list (string * string)) (popSubs : Substitutions.t)
  : Gen unit :=
  match vars with
  | [] => ret tt
  | (name, type) :: rest =>
      emit [Str type; Str " l"; Str name; Str " = "] ;;
      emit [Str getVarPrefix; Str name; Str ngName; Str "["] ;;
      (if isVarQueueRequired name && isDelayRequired
       then emit [Str "readDelayOffset + "] else ret tt) ;;
      let! id := lift (Substitutions.get "id" popSubs) in
      emit [Str id; Str "];"; Endl] ;;
      genLoadVars rest popSubs
  end.

(** [for(const auto &v : nm->getVars())], lines 299-306. *)
Fixpoint genStoreVars (vars : list (string * string)) (popSubs : Substitutions.t)
  : Gen unit :=
  match vars with
  | [] => ret tt
  | (name, type) :: rest =>
      emit [Str getVarPrefix; Str name; Str ngName; Str "["] ;;
      (if isVarQueueRequired name && isDelayRequired
       then emit [Str "writeDelayOffset + "] else ret tt) ;;
      let! id := lift (Substitutions.get "id" popSubs) in
      emit [Str id; Str "] = l"; Str name; Str ";"; Endl] ;;
      genStoreVars rest popSubs
  end.

(** *** The accesses, as emitted *)

(** The element of the state array of the variable [name] that belongs
    to the neuron [id]; a queued variable has one slot per delay step,
    and [slot] names the offset of the slot. *)
Definition element (name id slot : string) : list tok :=
  [Str getVarPrefix; Str name; Str ngName; Str "["]
    ++ (if isVarQueueRequired name && isDelayRequired then [Str slot; Str " + "] else [])
    ++ [Str id; Str "]"].

Definition loadVar (id : string) (v : string * string) : list tok :=
  [Str (snd v); Str " l"; Str (fst v); Str " = "]
    ++ element (fst v) id "readDelayOffset" ++ [Str ";"; Endl].

Definition storeVar (id : string) (v : string * string) : list tok :=
  element (fst v) id "writeDelayOffset" ++ [Str " = l"; Str (fst v); Str ";"; Endl].

End Handler.
End NeuronState.

(** ** The launches of the synapse kernels, as emitted *)
Module SynapseLaunch.

Import OpenCL.

(** The host statement that sets the time argument of the kernel named
    [kernelName] at [position]. *)
Definition setTimeArgument (kernelName : string) (position : N) : list tok :=
  [Str "CHECK_OPENCL_ERRORS("; Str kernelName; Str ".setArg("; Num position;
   Str ", t));"; Endl].

(** A kernel that has threads is launched in a block of its own: the
    statements [arguments], the work sizes [sizes], and the statement
    that enqueues the kernel; a kernel without threads is not launched. *)
Definition launch (kernelName : string) (hasThreads : bool) (arguments : list tok)
           (sizes : N * N) : list tok :=
  if hasThreads
  then [ScopeB] ++ arguments ++ Emitted.workSizes sizes
                ++ Emitted.enqueueNDRangeKernel kernelName ++ [ScopeE]
  else [].

End SynapseLaunch.

(** ** Merged dendritic-delay-update groups at which the theorems are
       applied *)
Module SynapseResetInputs.

Definition dendriticDelayUpdateGroups : list Init.SynapseGroupMerged :=
  [Merge.mkMergedGroup 0 "" [SynapseInputs.sparseGroup; SynapseInputs.sparseGroup]
                       OpenCL.RoleSynapseDendriticDelayUpdate;
   Merge.mkMergedGroup 1 "" [SynapseInputs.bitmaskGroup]
                       OpenCL.RoleSynapseDendriticDelayUpdate].

(** The state variables of a neuron model: name and type. *)
Definition neuronVars : list (string * string) := [("V", "scalar"); ("U", "scalar")].

End SynapseResetInputs.

(* ===================================================================== *)
(** * Part II: the theorems                                               *)
(* ===================================================================== *)

(** ** Runs of generators *)

Lemma writes_ret {A} (a : A) : writes (ret a) a [].
Proof. intros os. unfold ret. now rewrite app_nil_r. Qed.

Lemma writes_emit (ts : list tok) : writes (emit ts) tt ts.
Proof. intros os. reflexivity. Qed.

Lemma writes_bind {A B} (m : Gen A) (k : A -> Gen B) a b t1 t2 :
  writes m a t1 -> writes (k a) b t2 -> writes (bind m k) b (t1 ++ t2).
Proof.
  intros Hm Hk os. unfold bind. rewrite Hm, Hk. now rewrite app_assoc.
Qed.

Lemma writes_Scope {A} (body : Gen A) a ts :
  writes body a ts -> writes (Scope body) a ([ScopeB] ++ ts ++ [ScopeE]).
Proof.
  intros Hb os. unfold Scope. rewrite Hb.
  f_equal. rewrite <- !app_assoc. reflexivity.
Qed.

Lemma writes_if {A} (c : bool) (g1 g2 : Gen A) a t1 t2 :
  writes g1 a t1 -> writes g2 a t2 ->
  writes (if c then g1 else g2) a (if c then t1 else t2).
Proof. now destruct c. Qed.

Lemma writes_onStream {R A} (g : Gen A) a ts (os : CodeStream.t) (r : R) :
  writes g a ts -> onStream g (os, r) = (inr a, (os ++ ts, r)).
Proof. intros H. unfold onStream. now rewrite H. Qed.

Lemma writes_lift {A} (a : A) : writes (lift (inr a)) a [].
Proof. intros os. unfold lift. now rewrite app_nil_r. Qed.

Lemma writes_eq {A} (g : Gen A) a ts ts' :
  writes g a ts -> ts = ts' -> writes g a ts'.
Proof. now intros H <-. Qed.

Lemma writes_fun {A} (g : Gen A) a a' ts ts' :
  writes g a ts -> writes g a' ts' -> a = a' /\ ts = ts'.
Proof.
  intros H H'. specialize (H []). specialize (H' []). rewrite H in H'.
  now inversion H'.
Qed.

(** The run of a generator without loops, built from [emit], [ret], [lift],
    scopes, conditionals and generators whose runs are among the
    hypotheses. *)
Ltac writes_step :=
  first
    [ apply writes_emit
    | apply writes_ret
    | apply writes_lift
    | eassumption
    | eapply writes_Scope
    | apply writes_if
    | eapply writes_bind ].

Ltac writes_run := repeat writes_step.

Lemma flat_app (a b : list tok) :
  CodeStream.flat (a ++ b) = CodeStream.flat a ++ CodeStream.flat b.
Proof. unfold CodeStream.flat. apply flat_map_app. Qed.

Lemma flat_Str_append (s1 s2 : string) :
  CodeStream.flat [Str (s1 +:+ s2)] = CodeStream.flat [Str s1; Str s2].
Proof.
  unfold CodeStream.flat. simpl. rewrite !app_nil_r.
  induction s1 as [|c s1 IH]; simpl; [reflexivity|]. now rewrite IH.
Qed.

Lemma same_text_refl (a : list tok) : CodeStream.same_text a a.
Proof. reflexivity. Qed.

Lemma same_text_app (a a' b b' : list tok) :
  CodeStream.same_text a a' -> CodeStream.same_text b b' ->
  CodeStream.same_text (a ++ b) (a' ++ b').
Proof. unfold CodeStream.same_text. intros Ha Hb. now rewrite !flat_app, Ha, Hb. Qed.

(** ** Extra global parameters *)

Section ExtraGlobalParamFacts.
Import ExtraGlobalParam.

(** C9.  [genExtraGlobalParamPush] and [genExtraGlobalParamPull] throw
    the named [ToBeImplemented] error exactly when the location does not
    include the [ZERO_COPY] flag, and they leave the stream as it was
    both when they throw and when they return. *)
Theorem extra_global_param_to_be_implemented
        (ZERO_COPY loc : VarLocation) (type name countVarName prefix : string)
        (os : CodeStream.t) :
  let push := genExtraGlobalParamPush ZERO_COPY type name loc countVarName prefix os in
  let pull := genExtraGlobalParamPull ZERO_COPY type name loc countVarName prefix os in
  snd push = os /\ snd pull = os /\
  (fst push = inl (ToBeImplemented "genExtraGlobalParamPush")
   <-> N.land loc ZERO_COPY = 0%N) /\
  (fst pull = inl (ToBeImplemented "genExtraGlobalParamPull")
   <-> N.land loc ZERO_COPY = 0%N) /\
  (fst push = inr tt <-> N.land loc ZERO_COPY <> 0%N) /\
  (fst pull = inr tt <-> N.land loc ZERO_COPY <> 0%N).
Proof.
  unfold genExtraGlobalParamPush, genExtraGlobalParamPull, hasFlag, throw, ret.
  destruct (N.eqb_spec (N.land loc ZERO_COPY) 0) as [E|E]; simpl;
    repeat split; intros; try congruence; try discriminate.
Qed.

End ExtraGlobalParamFacts.

(** ** Presynaptic update strategies *)

Section StrategyFacts.
Import PresynapticUpdateStrategy.
Context {SynapseGroupInternal : Type}.
Variable getName : SynapseGroupInternal -> string.

Lemma scan_Some (l : list (@Base SynapseGroupInternal)) sg s :
  scan l sg = Some s ->
  isCompatible s sg = true /\
  exists before after, l = before ++ s :: after /\
    Forall (fun s' => isCompatible s' sg = false) before.
Proof.
  induction l as [|x l IH]; simpl; [discriminate|].
  destruct (isCompatible x sg) eqn:E.
  - intros [= <-]. split; [assumption|]. now exists [], l.
  - intros H. destruct (IH H) as (Hc & before & after & -> & Hb).
    split; [assumption|]. exists (x :: before), after. split; [reflexivity|].
    now constructor.
Qed.

Lemma scan_None (l : list (@Base SynapseGroupInternal)) sg :
  scan l sg = None -> Forall (fun s' => isCompatible s' sg = false) l.
Proof.
  induction l as [|x l IH]; simpl; [constructor|].
  destruct (isCompatible x sg) eqn:E; [discriminate|].
  intros H. constructor; auto.
Qed.

(** C6.  The registry is scanned from the strategy registered last to the
    one registered first, and the first compatible strategy met is
    returned: the strategy returned is compatible with the synapse group
    and no strategy registered after it is; a compatible strategy that
    has just been registered is the one selected; and when no registered
    strategy is compatible a runtime error that names the synapse group
    is thrown. *)
Theorem presynaptic_strategy_selection (r : @Registry SynapseGroupInternal) (sg : SynapseGroupInternal) :
  match getPresynapticUpdateStrategy getName r sg with
  | inr s =>
      isCompatible s sg = true /\
      exists earlier later, r = earlier ++ s :: later /\
        Forall (fun s' => isCompatible s' sg = false) later
  | inl e =>
      e = runtime_error
            ("Unable to find a suitable presynaptic update strategy for synapse group '"
               +:+ getName sg +:+ "'") /\
      Forall (fun s' => isCompatible s' sg = false) r
  end /\
  (forall s : @Base SynapseGroupInternal, isCompatible s sg = true ->
     getPresynapticUpdateStrategy getName (addPresynapticUpdateStrategy s r) sg = inr s).
Proof.
  split.
  - unfold getPresynapticUpdateStrategy.
    destruct (scan (rev r) sg) as [s|] eqn:E.
    + apply scan_Some in E as (Hc & before & after & Hr & Hb).
      split; [assumption|].
      exists (rev after), (rev before). split.
      * rewrite <- (rev_involutive r), Hr, rev_app_distr. simpl.
        now rewrite <- app_assoc.
      * now apply Forall_rev.
    + split; [reflexivity|]. apply scan_None in E.
      rewrite <- (rev_involutive r). now apply Forall_rev.
  - intros s Hs. unfold getPresynapticUpdateStrategy, addPresynapticUpdateStrategy.
    rewrite rev_app_distr. simpl. now rewrite Hs.
Qed.

End StrategyFacts.

(** ** Kernel source literals *)

Section KernelSourceFacts.
Import KernelSource Emitted.

Lemma substring_split (s : string) : forall n a b,
  substring n (a + b) s = (substring n a s +:+ substring (n + a) b s).
Proof.
  induction s as [|c s IH]; intros n a b.
  - destruct n, a, b; reflexivity.
  - destruct n as [|n].
    + destruct a as [|a]; simpl.
      * reflexivity.
      * rewrite (IH 0%nat). reflexivity.
    + simpl. apply IH.
Qed.

Lemma substring_whole (s : string) : forall m,
  (String.length s <= m)%nat -> substring 0 m s = s.
Proof.
  induction s as [|c s IH]; intros m Hm.
  - destruct m; reflexivity.
  - destruct m as [|m]; simpl in *; [lia|]. f_equal. apply IH. lia.
Qed.

Lemma substring_length_le (s : string) : forall n m,
  (String.length (substring n m s) <= m)%nat.
Proof.
  induction s as [|c s IH]; intros n m.
  - destruct n, m; simpl; lia.
  - destruct n as [|n].
    + destruct m as [|m]; simpl; [lia|]. specialize (IH 0%nat m). lia.
    + simpl. apply IH.
Qed.

Lemma substring_nothing (s : string) : forall n, substring n 0 s = EmptyString.
Proof.
  induction s as [|c s IH]; intros [|n]; simpl; auto.
Qed.

Lemma append_empty_r (s : string) : (s +:+ EmptyString) = s.
Proof.
  induction s as [|c s IH]; [reflexivity|].
  change (String c (s +:+ EmptyString) = String c s). now rewrite IH.
Qed.

Lemma concat_cons (h : string) (t : list string) :
  String.concat "" (h :: t) = (h +:+ String.concat "" t).
Proof.
  destruct t as [|h' t]; [|reflexivity].
  change (h = (h +:+ EmptyString)). now rewrite append_empty_r.
Qed.

(** The parts cut at the multiples of [d], from part [i] on. *)
Lemma concat_parts (s : string) (d : nat) : forall count i,
  String.concat "" (map (fun j => substring (j * d) d s) (seq i count))
  = substring (i * d) (count * d) s.
Proof.
  induction count as [|count IH]; intros i.
  - simpl. now rewrite substring_nothing.
  - cbn [seq map]. rewrite concat_cons, IH.
    replace (S count * d)%nat with (d + count * d)%nat by lia.
    rewrite substring_split.
    now replace (i * d + d)%nat with (S i * d)%nat by lia.
Qed.

Lemma ceilDivide_exact (n d : N) :
  (0 < d)%N -> (n + d <= SizeT.modulus)%N ->
  SizeT.ceilDivide n d = ((n + d - 1) / d)%N.
Proof.
  intros Hd Hn. unfold SizeT.ceilDivide, SizeT.add, SizeT.sub, SizeT.wrap, SizeT.modulus in *.
  assert (E1 : (1 mod 2 ^ 64 = 1)%N) by reflexivity. rewrite E1.
  assert (E2 : ((d + 2 ^ 64 - 1) mod 2 ^ 64 = d - 1)%N).
  { replace (d + 2 ^ 64 - 1)%N with ((d - 1) + 1 * 2 ^ 64)%N by lia.
    rewrite N.Div0.mod_add. apply N.mod_small. lia. }
  rewrite E2. rewrite N.mod_small by lia. f_equal. lia.
Qed.

Lemma partsLoop_writes (s : string) (d : N) :
  (0 < d)%N ->
  forall count i,
    ((N.of_nat count + i - 1) * d < N.of_nat (String.length s))%N ->
    (N.of_nat (String.length s) < SizeT.modulus)%N ->
    writes (partsLoop count i s d) tt
           (flat_map rawChunk
              (map (fun j => substring (j * N.to_nat d) (N.to_nat d) s)
                   (seq (N.to_nat i) count))).
Proof.
  intros Hd. induction count as [|count IH]; intros i Hlt Hlen.
  - apply writes_ret.
  - cbn [partsLoop seq map flat_map].
    assert (Hi : (i * d < N.of_nat (String.length s))%N) by nia.
    assert (Hmul : SizeT.mul i d = (i * d)%N).
    { unfold SizeT.mul, SizeT.wrap. apply N.mod_small. lia. }
    assert (Hsub : substr s (SizeT.mul i d) d
                   = inr (substring (N.to_nat i * N.to_nat d) (N.to_nat d) s)).
    { unfold substr. rewrite Hmul.
      destruct (N.leb_spec (i * d) (N.of_nat (String.length s))); [|lia].
      now rewrite N2Nat.inj_mul. }
    rewrite Hsub.
    replace (S (N.to_nat i)) with (N.to_nat (N.succ i)) by lia.
    eapply writes_eq.
    + eapply writes_bind; [apply writes_emit|].
      eapply writes_bind; [apply writes_lift|].
      eapply writes_bind; [apply writes_emit|].
      apply IH; [|assumption].
      replace (N.of_nat count + N.succ i - 1)%N with (N.of_nat (S count) + i - 1)%N by lia.
      assumption.
    + reflexivity.
Qed.

(** C8.  [divideKernelStreamInParts] returns normally and emits one
    raw-string chunk per part: there are [ceil(len / partLength)] chunks,
    no chunk holds more than [partLength] characters, and the chunks
    concatenated in order are the kernel source string. *)
Theorem divideKernelStreamInParts_round_trip
        (kernelCode : string) (partLength : N) (os : CodeStream.t) :
  (0 < partLength)%N ->
  (N.of_nat (String.length kernelCode) + partLength <= SizeT.modulus)%N ->
  exists chunks : list string,
    divideKernelStreamInParts kernelCode partLength os
      = (inr tt, os ++ flat_map rawChunk chunks) /\
    N.of_nat (List.length chunks)
      = ((N.of_nat (String.length kernelCode) + partLength - 1) / partLength)%N /\
    Forall (fun c => (N.of_nat (String.length c) <= partLength)%N) chunks /\
    String.concat "" chunks = kernelCode.
Proof.
  intros Hd Hlen.
  set (len := N.of_nat (String.length kernelCode)) in *.
  set (parts := ((len + partLength - 1) / partLength)%N).
  assert (Hparts : (parts * partLength <= len + partLength - 1)%N).
  { unfold parts. rewrite N.mul_comm. apply N.Div0.mul_div_le. }
  assert (Hcover : (len + partLength - 1 < parts * partLength + partLength)%N).
  { unfold parts.
    pose proof (N.mul_succ_div_gt (len + partLength - 1) partLength ltac:(lia)).
    lia. }
  exists (map (fun j => substring (j * N.to_nat partLength) (N.to_nat partLength) kernelCode)
              (seq 0 (N.to_nat parts))).
  repeat split.
  - unfold divideKernelStreamInParts. rewrite ceilDivide_exact by assumption.
    fold len parts.
    destruct (N.eq_dec parts 0%N) as [E|E].
    + rewrite E. simpl. now rewrite app_nil_r.
    + apply (partsLoop_writes kernelCode partLength Hd (N.to_nat parts) 0%N).
      * rewrite N2Nat.id. fold len. nia.
      * fold len. unfold SizeT.modulus in *. lia.
  - rewrite length_map, length_seq. now rewrite N2Nat.id.
  - apply Stdlib.Lists.List.Forall_forall. intros c Hc.
    apply in_map_iff in Hc as (j & <- & _).
    pose proof (substring_length_le kernelCode (j * N.to_nat partLength)
                                    (N.to_nat partLength)). lia.
  - rewrite concat_parts. simpl. apply substring_whole.
    assert (H : (len <= parts * partLength)%N) by lia.
    unfold len in H. nia.
Qed.

End KernelSourceFacts.

(** ** Group merging *)

Section MergeFacts.
Import Merge.
Context {Group Role : Type}.
Variable canMerge : Group -> Group -> bool.

Lemma searchProto_first_fit (group : Group) (proto : list (list Group)) :
  Forall nonempty proto ->
  (exists before p after,
      proto = before ++ p :: after /\
      Forall (fun q => accepts canMerge group q = false) before /\
      accepts canMerge group p = true /\
      searchProto canMerge group proto = inr (true, before ++ (p ++ [group]) :: after))
  \/ (Forall (fun q => accepts canMerge group q = false) proto /\
      searchProto canMerge group proto = inr (false, proto)).
Proof.
  induction proto as [|p proto IH]; intros Hne.
  - right. split; [constructor | reflexivity].
  - inversion Hne as [|? ? Hp Hrest]; subst.
    destruct p as [|front p']; [now elim Hp|].
    cbn [searchProto]. destruct (canMerge front group) eqn:E.
    + left. exists [], (front :: p'), proto. repeat split; auto.
    + destruct (IH Hrest) as [(before & q & after & -> & Hb & Hq & ->)|[Hall ->]].
      * left. exists ((front :: p') :: before), q, after. repeat split; auto.
      * right. split; [|reflexivity]. constructor; auto.
Qed.

Lemma mergeStep_first_fit (group : Group) (proto : list (list Group)) :
  Forall nonempty proto ->
  exists proto', mergeStep canMerge group proto = inr proto' /\
                 FirstFit canMerge group proto proto'.
Proof.
  intros Hne. unfold mergeStep.
  destruct (searchProto_first_fit group proto Hne)
    as [(before & q & after & -> & Hb & Hq & ->)|[Hall ->]].
  - eexists. split; [reflexivity|]. now constructor.
  - eexists. split; [reflexivity|]. now constructor.
Qed.

Lemma FirstFit_nonempty (group : Group) (p0 p1 : list (list Group)) :
  FirstFit canMerge group p0 p1 -> Forall nonempty p0 -> Forall nonempty p1.
Proof.
  intros [before after p Hb Hp | proto Hall] Hne.
  - apply Forall_app in Hne as [H1 H2]. inversion H2; subst.
    apply Forall_app. split; [assumption|]. constructor; [|assumption].
    unfold nonempty. now destruct p.
  - apply Forall_app. split; [assumption|]. constructor; [discriminate|constructor].
Qed.

Lemma FirstFit_members (group : Group) (p0 p1 : list (list Group)) :
  FirstFit canMerge group p0 p1 -> Permutation (concat p1) (group :: concat p0).
Proof.
  intros [before after p Hb Hp | proto Hall].
  - rewrite !concat_app. cbn [concat].
    replace (concat before ++ (p ++ [group]) ++ concat after)
      with ((concat before ++ p) ++ group :: concat after)
      by (rewrite <- !app_assoc; reflexivity).
    replace (group :: concat before ++ p ++ concat after)
      with (group :: (concat before ++ p) ++ concat after)
      by (rewrite <- app_assoc; reflexivity).
    symmetry. apply Permutation_middle.
  - rewrite concat_app. cbn [concat]. rewrite app_nil_r.
    symmetry. apply Permutation_cons_append.
Qed.

Lemma FirstFit_archetype (group : Group) (p0 p1 : list (list Group)) :
  FirstFit canMerge group p0 p1 ->
  Forall (archetypeAccepts canMerge) p0 -> Forall (archetypeAccepts canMerge) p1.
Proof.
  intros [before after p Hb Hp | proto Hall] Hinv.
  - apply Forall_app in Hinv as [H1 H2]. inversion H2 as [|? ? Hp' Hafter]; subst.
    apply Forall_app. split; [assumption|]. constructor; [|assumption].
    destruct p as [|archetype others]; [discriminate|].
    cbn in *. apply Forall_app. split; [assumption|]. constructor; auto.
  - apply Forall_app. split; [assumption|]. repeat constructor.
Qed.

Lemma mergeLoop_first_fit (pending : list Group) : forall proto : list (list Group),
  Forall nonempty proto ->
  exists proto', mergeLoop canMerge pending proto = inr proto' /\
                 FirstFitRun canMerge pending proto proto'.
Proof.
  induction pending as [|group rest IH]; intros proto Hne.
  - exists proto. split; [reflexivity | constructor].
  - cbn [mergeLoop].
    destruct (mergeStep_first_fit group proto Hne) as (p1 & -> & Hff).
    destruct (IH p1 (FirstFit_nonempty _ _ _ Hff Hne)) as (p2 & -> & Hrun).
    exists p2. split; [reflexivity|]. econstructor; eassumption.
Qed.

Lemma FirstFitRun_invariants (pending : list Group) (p0 p2 : list (list Group)) :
  FirstFitRun canMerge pending p0 p2 ->
  (Forall nonempty p0 -> Forall nonempty p2) /\
  (Forall (archetypeAccepts canMerge) p0 -> Forall (archetypeAccepts canMerge) p2) /\
  Permutation (concat p2) (rev pending ++ concat p0).
Proof.
  induction 1 as [proto | group rest p0 p1 p2 Hff Hrun (IHne & IHacc & IHperm)].
  - repeat split; auto.
  - repeat split.
    + intros H0. apply IHne. eapply FirstFit_nonempty; eassumption.
    + intros H0. apply IHacc. eapply FirstFit_archetype; eassumption.
    + rewrite IHperm. cbn [rev]. rewrite <- app_assoc. cbn [app].
      apply Permutation_app_head. now apply FirstFit_members.
Qed.

Lemma buildMerged_groups (prefix : string) (role : Role) (proto : list (list Group)) :
  forall i, map getGroups (buildMerged i prefix role proto) = proto.
Proof.
  induction proto as [|p proto IH]; intros i; cbn; [reflexivity|]. now rewrite IH.
Qed.

Lemma buildMerged_index (prefix : string) (role : Role) (proto : list (list Group)) :
  forall i k G,
    nth_error (buildMerged i prefix role proto) k = Some G ->
    getIndex G = (i + N.of_nat k)%N /\ getPrefix G = prefix /\ getRole G = role.
Proof.
  induction proto as [|p proto IH]; intros i k G.
  - destruct k; discriminate.
  - destruct k as [|k]; cbn [buildMerged nth_error].
    + intros [= <-]. cbn. repeat split. lia.
    + intros H. apply IH in H as (-> & -> & ->). repeat split. lia.
Qed.

(** C3.  [createMergedGroups] returns normally (the assertion of line 104
    never fails), and what it appends to [mergedGroups] is the result of
    first-fit merging: the groups that pass the filter are taken one by
    one (from the last to the first), each is appended to the first
    proto-merged group whose archetype accepts it, or else starts a new
    proto-merged group at the end; the merged group at position [k] has
    index [k]; every group that passes the filter is a member of exactly
    one merged group; and no merged group is empty. *)
Theorem createMergedGroups_first_fit
        (groups : list (string * Group)) (mergedGroups : list (MergedGroup Group Role))
        (prefix : string) (role : Role) (filter : Group -> bool) :
  let filtered := map snd (List.filter (fun g => filter (snd g)) groups) in
  exists merged : list (MergedGroup Group Role),
    createMergedGroups_map canMerge groups mergedGroups prefix role filter
      = inr (mergedGroups ++ merged) /\
    FirstFitRun canMerge (rev filtered) [] (map getGroups merged) /\
    (forall k G, nth_error merged k = Some G ->
                 getIndex G = N.of_nat k /\ getPrefix G = prefix /\ getRole G = role) /\
    Permutation (concat (map getGroups merged)) filtered /\
    Forall (fun G => getGroups G <> []) merged.
Proof.
  intros filtered.
  destruct (mergeLoop_first_fit (rev filtered) [] ltac:(constructor)) as (proto & Hloop & Hrun).
  exists (buildMerged 0 prefix role proto).
  destruct (FirstFitRun_invariants _ _ _ Hrun) as (Hne & _ & Hperm).
  rewrite buildMerged_groups. repeat split.
  - unfold createMergedGroups_map, createMergedGroups. fold filtered. now rewrite Hloop.
  - assumption.
  - apply buildMerged_index in H as (-> & _ & _). lia.
  - now apply buildMerged_index in H as (_ & -> & _).
  - now apply buildMerged_index in H as (_ & _ & ->).
  - rewrite Hperm, rev_involutive. cbn. now rewrite app_nil_r.
  - specialize (Hne ltac:(constructor)).
    rewrite <- (buildMerged_groups prefix role proto 0%N) in Hne.
    rewrite Stdlib.Lists.List.Forall_map in Hne. exact Hne.
Qed.

(** C4, as amended.  Every member of a merged group other than its
    archetype was accepted by the archetype; and when [canMerge] is
    reflexive, symmetric and transitive, [canMerge a b] holds for every
    pair of members of a merged group. *)
Theorem merge_soundness_for_equivalences
        (unmergedGroups : list Group) (mergedGroups : list (MergedGroup Group Role))
        (prefix : string) (role : Role) :
  exists merged : list (MergedGroup Group Role),
    createMergedGroups canMerge unmergedGroups mergedGroups prefix role
      = inr ([], mergedGroups ++ merged) /\
    forall G, In G merged ->
      (forall archetype others, getGroups G = archetype :: others ->
         Forall (fun b => canMerge archetype b = true) others) /\
      ((forall a, canMerge a a = true) ->
       (forall a b, canMerge a b = true -> canMerge b a = true) ->
       (forall a b c, canMerge a b = true -> canMerge b c = true -> canMerge a c = true) ->
       forall a b, In a (getGroups G) -> In b (getGroups G) -> canMerge a b = true).
Proof.
  destruct (mergeLoop_first_fit (rev unmergedGroups) [] ltac:(constructor))
    as (proto & Hloop & Hrun).
  exists (buildMerged 0 prefix role proto). split.
  - unfold createMergedGroups. now rewrite Hloop.
  - destruct (FirstFitRun_invariants _ _ _ Hrun) as (_ & Hacc & _).
    specialize (Hacc ltac:(constructor)).
    rewrite <- (buildMerged_groups prefix role proto 0%N) in Hacc.
    rewrite Stdlib.Lists.List.Forall_map in Hacc.
    intros G HG. rewrite Stdlib.Lists.List.Forall_forall in Hacc.
    specialize (Hacc G HG). unfold archetypeAccepts in Hacc. split.
    + intros archetype others E. now rewrite E in Hacc.
    + intros Hrefl Hsym Htrans a b Ha Hb.
      destruct (getGroups G) as [|archetype others]; [contradiction|].
      rewrite Stdlib.Lists.List.Forall_forall in Hacc.
      assert (Hall : forall x, In x (archetype :: others) -> canMerge archetype x = true).
      { intros x [<-|Hx]; [apply Hrefl | now apply Hacc]. }
      apply Htrans with archetype; [apply Hsym|]; now apply Hall.
Qed.

End MergeFacts.

(** ** Parallel group dispatch *)

Section DispatchFacts.
Import Dispatch.
Context {T : Type}.
Variable getPaddedSizeFunc : T -> N.
Variable filter : T -> bool.
Variable handler : T -> Substitutions.t -> Gen Substitutions.t.

(** The handler returns normally and keeps the variables of the frame it
    was handed (the interface of [Substitutions] only adds). *)
Hypothesis handler_keeps_frame :
  forall g subs os, exists subs' os',
    handler g subs os = (inr subs', os') /\
    (forall name, Substitutions.vars subs !! name <> None ->
                  Substitutions.vars subs' !! name <> None).

Lemma addVarSubstitution_bound (name repl : string) (s : Substitutions.t) :
  Substitutions.vars s !! name <> None ->
  Substitutions.addVarSubstitution name repl false s = inl (substitution_exists name).
Proof.
  unfold Substitutions.addVarSubstitution.
  destruct (Substitutions.vars s !! name); [reflexivity | congruence].
Qed.

Lemma addVarSubstitution_binds (name repl : string) (s s' : Substitutions.t) :
  Substitutions.addVarSubstitution name repl false s = inr s' ->
  Substitutions.vars s' !! name <> None.
Proof.
  unfold Substitutions.addVarSubstitution.
  destruct (Substitutions.vars s !! name) eqn:E; [discriminate|].
  intros [= <-]. destruct s; cbn; rewrite lookup_insert_eq; discriminate.
Qed.

(** Once the shared frame binds ["id"], the next group that passes the
    filter makes [addVarSubstitution] throw. *)
Lemma groupLoop_throws_when_bound (groups : list (string * T)) :
  forall popSubs st,
    Substitutions.vars popSubs !! "id" <> None ->
    dispatched filter groups <> [] ->
    fst (groupLoop getPaddedSizeFunc filter handler groups popSubs st)
    = inl (substitution_exists "id").
Proof.
  induction groups as [|[name g] rest IH]; intros popSubs [os idStart] Hid Hne.
  - now elim Hne.
  - cbn [groupLoop]. cbn [dispatched List.filter snd] in Hne.
    unfold dispatched in IH.
    destruct (filter g) eqn:Ef.
    + unfold bind, onStream, emit, getRef, lift. cbn.
      destruct (idStart =? 0)%N; cbn;
        now rewrite addVarSubstitution_bound by assumption.
    + now apply IH.
Qed.

(** With the frame constructed once before the loop, the second group
    that passes the filter is never handled: [genParallelGroup] throws. *)
Lemma genParallelGroup_throws_on_second_group
      (kernelSubs : Substitutions.t) (groups : list (string * T)) (st : St) :
  (2 <= List.length (dispatched filter groups))%nat ->
  fst (genParallelGroup getPaddedSizeFunc filter handler kernelSubs groups st)
  = inl (substitution_exists "id").
Proof.
  unfold genParallelGroup. generalize (Substitutions.child kernelSubs) as popSubs.
  revert st.
  induction groups as [|[name g] rest IH]; intros [os idStart] popSubs Hlen.
  - cbn in Hlen. lia.
  - cbn [groupLoop]. cbn [dispatched List.filter snd] in Hlen.
    unfold dispatched in IH.
    destruct (filter g) eqn:Ef.
    + cbn [List.length] in Hlen.
      assert (Hrest : dispatched filter rest <> []).
      { unfold dispatched. destruct (List.filter _ rest); [cbn in Hlen; lia | discriminate]. }
      unfold bind, onStream, emit, getRef, putRef, lift. cbn.
      destruct (idStart =? 0)%N; cbn.
      * destruct (Substitutions.addVarSubstitution "id" "id" false popSubs)
          as [e|popSubs1] eqn:Eadd.
        -- cbn. unfold Substitutions.addVarSubstitution in Eadd.
           destruct (Substitutions.vars popSubs !! "id"); now inversion Eadd.
        -- apply addVarSubstitution_binds in Eadd.
           match goal with
           | |- context [handler g popSubs1 ?o] =>
               destruct (handler_keeps_frame g popSubs1 o) as (subs' & os' & Hh & Hkeep)
           end.
           rewrite Hh. apply groupLoop_throws_when_bound; auto.
      * destruct (Substitutions.addVarSubstitution "id" "lid" false popSubs)
          as [e|popSubs1] eqn:Eadd.
        -- cbn. unfold Substitutions.addVarSubstitution in Eadd.
           destruct (Substitutions.vars popSubs !! "id"); now inversion Eadd.
        -- apply addVarSubstitution_binds in Eadd.
           match goal with
           | |- context [handler g popSubs1 ?o] =>
               destruct (handler_keeps_frame g popSubs1 o) as (subs' & os' & Hh & Hkeep)
           end.
           rewrite Hh. apply groupLoop_throws_when_bound; auto.
    + now apply IH.
Qed.

End DispatchFacts.

Section DispatchArithmetic.
Import Dispatch.
Context {T : Type}.
Variable getPaddedSizeFunc : T -> N.

(** Without overflow the ranges are contiguous and pairwise disjoint. *)
Lemma ranges_contiguous (gs : list (string * T)) : forall idStart,
  (idStart + fold_right (fun g acc => getPaddedSizeFunc (snd g) + acc) 0 gs
     < SizeT.modulus)%N ->
  forall k lo hi,
    nth_error (ranges getPaddedSizeFunc idStart gs) k = Some (lo, hi) ->
    (idStart <= lo <= hi)%N /\
    (forall lo' hi', nth_error (ranges getPaddedSizeFunc idStart gs) (S k) = Some (lo', hi') ->
                     lo' = hi) /\
    (forall j lo' hi', (k < j)%nat ->
       nth_error (ranges getPaddedSizeFunc idStart gs) j = Some (lo', hi') ->
       (hi <= lo')%N).
Proof.
  induction gs as [|[name g] rest IH]; intros idStart Hsum k lo hi Hk.
  - destruct k; discriminate.
  - cbn [fold_right snd] in Hsum.
    assert (Hadd : SizeT.add idStart (getPaddedSizeFunc g)
                   = (idStart + getPaddedSizeFunc g)%N).
    { unfold SizeT.add, SizeT.wrap. apply N.mod_small. lia. }
    cbn [ranges] in *. rewrite Hadd in *.
    assert (Hsum' : (idStart + getPaddedSizeFunc g
                     + fold_right (fun g acc => getPaddedSizeFunc (snd g) + acc) 0 rest
                     < SizeT.modulus)%N) by lia.
    destruct k as [|k]; cbn [nth_error] in Hk.
    + injection Hk as <- <-. split; [lia|]. split.
      * intros lo' hi' H1. cbn [nth_error] in H1.
        destruct rest as [|[name' g'] rest']; [discriminate|].
        cbn in H1. now injection H1 as <- _.
      * intros j lo' hi' Hj H1. destruct j as [|j]; [lia|]. cbn [nth_error] in H1.
        destruct (IH _ Hsum' j lo' hi' H1) as (Hb & _). lia.
    + destruct (IH _ Hsum' k lo hi Hk) as (Hb & Hnext & Hlater).
      split; [lia|]. split.
      * intros lo' hi' H1. cbn [nth_error] in H1. eauto.
      * intros j lo' hi' Hj H1. destruct j as [|j]; [lia|]. cbn [nth_error] in H1.
        apply (Hlater j lo' hi'); [lia | assumption].
Qed.

Variable filter : T -> bool.
Variable handler : T -> Substitutions.t -> Gen Substitutions.t.

(** A dispatch that returns normally has advanced [idStart] by the padded
    size of every group that passes the filter. *)
Lemma groupLoop_completed (groups : list (string * T)) :
  forall popSubs os idStart os' idStart',
    groupLoop getPaddedSizeFunc filter handler groups popSubs (os, idStart)
    = (inr tt, (os', idStart')) ->
    idStart' = fold_left (fun acc g => SizeT.add acc (getPaddedSizeFunc (snd g)))
                         (dispatched filter groups) idStart.
Proof.
  induction groups as [|[name g] rest IH]; intros popSubs os idStart os' idStart' Hrun.
  - cbn in Hrun. now injection Hrun as _ <-.
  - cbn [groupLoop] in Hrun. cbn [dispatched List.filter snd].
    unfold dispatched in IH.
    destruct (filter g) eqn:Ef; [|now apply IH in Hrun].
    cbn [fold_left snd].
    unfold bind, onStream, emit, getRef, putRef, lift in Hrun. cbn in Hrun.
    destruct (idStart =? 0)%N; cbn in Hrun.
    + destruct (Substitutions.addVarSubstitution "id" "id" false popSubs)
        as [e|popSubs1]; [discriminate|].
      match type of Hrun with
      | context [handler g popSubs1 ?o] => destruct (handler g popSubs1 o) as [[e|popSubs2] os2]
      end; [discriminate|].
      now apply IH in Hrun.
    + destruct (Substitutions.addVarSubstitution "id" "lid" false popSubs)
        as [e|popSubs1]; [discriminate|].
      match type of Hrun with
      | context [handler g popSubs1 ?o] => destruct (handler g popSubs1 o) as [[e|popSubs2] os2]
      end; [discriminate|].
      now apply IH in Hrun.
Qed.

End DispatchArithmetic.

(** The launch size [genKernelDimensions] computes for a thread count that
    is a multiple of the workgroup size is that thread count. *)
Lemma globalWorkSize_of_multiple (wgs : OpenCL.Kernel -> N) (kernel : OpenCL.Kernel)
      (groups : N) :
  (0 < wgs kernel)%N ->
  (groups * wgs kernel + wgs kernel <= SizeT.modulus)%N ->
  OpenCL.globalWorkSize wgs kernel (groups * wgs kernel) = (groups * wgs kernel)%N.
Proof.
  intros Hwg Hbound. unfold OpenCL.globalWorkSize.
  rewrite ceilDivide_exact by assumption.
  replace (groups * wgs kernel + wgs kernel - 1)%N
    with ((wgs kernel - 1) + groups * wgs kernel)%N by lia.
  rewrite N.div_add by lia. rewrite N.div_small by lia.
  unfold SizeT.mul, SizeT.wrap. rewrite N.mod_small by (unfold SizeT.modulus in *; lia).
  lia.
Qed.

(** A single group is dispatched: its guard has no lower bound, the handler
    finds ["id"] bound to [id], and [idStart] ends at the padded size, which
    is the launch size of the kernel. *)
Lemma genParallelGroup_single_group :
  Dispatch.genParallelGroup Inputs.pad32 (fun _ => true) Inputs.workHandler
                            Inputs.kernelSubs Inputs.oneGroup ([], 0%N)
  = (inr tt,
     ([Str "// Group "; Str "a"; Endl;
       Str "if(id < "; Num 128; Str ")"; OB 1;
       Str "if("; Str "id"; Str " < "; Num 100; Str ") work("; Str "id"; Str ");"; Endl;
       CB 1; Endl],
      128%N)) /\
  OpenCL.globalWorkSize Inputs.wgs32 OpenCL.KernelNeuronUpdate 128 = 128%N.
Proof. vm_compute. split; reflexivity. Qed.

(** C5.  Run on two groups that both pass the filter, [genParallelGroup]
    emits the guard of the first group without a lower bound and hands the
    first handler the frame in which ["id"] stands for [id]; it emits the
    guard [id >= 128 && id < 384] and the declaration of [lid] for the
    second group, and then throws: the one frame shared by all groups
    already binds ["id"], so the second handler is never invoked and no
    local id is bound for it. *)
Theorem genParallelGroup_second_handler_not_invoked :
  Dispatch.genParallelGroup Inputs.pad32 (fun _ => true) Inputs.workHandler
                            Inputs.kernelSubs Inputs.twoGroups ([], 0%N)
  = (inl (substitution_exists "id"),
     ([Str "// Group "; Str "a"; Endl;
       Str "if(id < "; Num 128; Str ")"; OB 1;
       Str "if("; Str "id"; Str " < "; Num 100; Str ") work("; Str "id"; Str ");"; Endl;
       CB 1; Endl;
       Str "// Group "; Str "b"; Endl;
       Str "if(id >= "; Num 128; Str " && id < "; Num 384; Str ")"; OB 1;
       Str "const unsigned int lid = id - "; Num 128; Str ";"; Endl],
      128%N)).
Proof. vm_compute. reflexivity. Qed.

(** C2.  Two groups of 100 and 250 neurons padded to the workgroup size 32
    have padded sizes 128 and 256, both multiples of 32, and the kernel
    that covers them is launched with 384 threads; but [genParallelGroup]
    throws while it dispatches the second group and leaves [idStart] at
    128, the padded size of the first group alone. *)
Theorem genParallelGroup_idStart_short_of_total :
  let run := Dispatch.genParallelGroup Inputs.pad32 (fun _ => true) Inputs.workHandler
                                       Inputs.kernelSubs Inputs.twoGroups ([], 0%N) in
  map (fun g => Inputs.pad32 (snd g)) (Dispatch.dispatched (fun _ => true) Inputs.twoGroups)
    = [128%N; 256%N] /\
  Dispatch.ranges Inputs.pad32 0 (Dispatch.dispatched (fun _ => true) Inputs.twoGroups)
    = [(0%N, 128%N); (128%N, 384%N)] /\
  OpenCL.globalWorkSize Inputs.wgs32 OpenCL.KernelNeuronUpdate (128 + 256) = 384%N /\
  fst run = inl (substitution_exists "id") /\
  snd (snd run) = 128%N.
Proof. vm_compute. repeat split; reflexivity. Qed.

(** ** The pre-neuron-reset kernel and the host function [updateNeurons] *)

Section PreNeuronResetFacts.
Import Merge OpenCL Emitted.
Variable wgs : Kernel -> N.
Variable reset : NeuronGroupMerged -> Gen unit.
Variable timePrecision : string.

Lemma genKernelDimensions_writes (kernel : Kernel) (numThreads : N) :
  writes (genKernelDimensions wgs kernel numThreads) tt
         (kernelDimensions wgs kernel numThreads).
Proof.
  unfold genKernelDimensions.
  eapply writes_eq; [writes_run | reflexivity].
Qed.

Lemma genPreNeuronReset_groups_writes (resetOut : NeuronGroupMerged -> list tok)
      (groups : list NeuronGroupMerged) :
  forall idPreNeuronReset,
    Forall (fun n => getGroups n <> []) groups ->
    Forall (fun n => writes (reset n) tt (resetOut n)) groups ->
    (idPreNeuronReset + totalMembers groups < SizeT.modulus)%N ->
    writes (genPreNeuronReset_groups reset groups idPreNeuronReset)
           (idPreNeuronReset + totalMembers groups)%N
           (concat (map (fun '(n, range) => spikeQueueUpdate resetOut n range)
                        (combine groups (memberRanges idPreNeuronReset groups)))).
Proof.
  induction groups as [|n rest IH]; intros id Hne Hreset Hsum.
  - cbn. rewrite N.add_0_r. apply writes_ret.
  - inversion Hne as [|? ? Hn Hne']; subst. inversion Hreset as [|? ? Hr Hreset']; subst.
    cbn [totalMembers fold_right] in Hsum. fold (totalMembers rest) in Hsum.
    assert (Hadd : SizeT.add id (size (getGroups n)) = (id + size (getGroups n))%N).
    { unfold SizeT.add, SizeT.wrap. apply N.mod_small. lia. }
    cbn [genPreNeuronReset_groups memberRanges combine map concat totalMembers fold_right].
    fold (totalMembers rest). rewrite Hadd.
    replace (id + (size (getGroups n) + totalMembers rest))%N
      with (id + size (getGroups n) + totalMembers rest)%N by lia.
    unfold spikeQueueUpdate, guard, getArchetype. cbn [fst snd].
    destruct (getGroups n) as [|archetype others] eqn:E; [now elim Hn|].
    eapply writes_eq.
    + eapply writes_bind; [apply writes_emit|].
      eapply writes_bind; [apply writes_if; apply writes_emit|].
      eapply writes_bind.
      { eapply writes_Scope.
        eapply writes_bind; [apply writes_emit|].
        eapply writes_bind; [apply writes_lift|].
        eapply writes_bind; [apply writes_if; [apply writes_emit | apply writes_ret]|].
        apply Hr. }
      apply IH; [assumption | assumption | lia].
    + destruct (N.eqb_spec id 0) as [->|Hid].
      * rewrite N.add_0_l. rewrite <- ?app_assoc. reflexivity.
      * rewrite <- ?app_assoc. reflexivity.
Qed.

Lemma kernelParams_with_final_comma (name : string) (groupsSize : N) :
  forall count i,
    writes (genMergedGroupKernelParams_loop count i groupsSize name true) tt
           (concat (map (fun p => declaration timePrecision p ++ [Str ", "])
                        (mergedGroupPointers name i count))).
Proof.
  induction count as [|count IH]; intros i.
  - apply writes_ret.
  - cbn [genMergedGroupKernelParams_loop mergedGroupPointers map concat orb].
    eapply writes_eq.
    + eapply writes_bind; [apply writes_emit|].
      eapply writes_bind; [apply writes_emit|]. apply IH.
    + cbn [declaration]. rewrite <- ?app_assoc. reflexivity.
Qed.

Lemma kernelParams_without_final_comma (name : string) (groupsSize : N) :
  (groupsSize < SizeT.modulus)%N ->
  forall count i,
    (i + N.of_nat count = groupsSize)%N ->
    writes (genMergedGroupKernelParams_loop count i groupsSize name false) tt
           (commaSeparated (map (declaration timePrecision)
                                (mergedGroupPointers name i count))).
Proof.
  intros Hsize. induction count as [|count IH]; intros i Hi.
  - apply writes_ret.
  - assert (Hsub : SizeT.sub groupsSize 1 = (groupsSize - 1)%N).
    { unfold SizeT.sub, SizeT.wrap, SizeT.modulus in *.
      change (1 mod 2 ^ 64)%N with 1%N.
      replace (groupsSize + 2 ^ 64 - 1)%N with ((groupsSize - 1) + 1 * 2 ^ 64)%N by lia.
      rewrite N.Div0.mod_add. apply N.mod_small. lia. }
    cbn [genMergedGroupKernelParams_loop mergedGroupPointers map orb]. rewrite Hsub.
    destruct count as [|count].
    + replace (i =? groupsSize - 1)%N with true by (symmetry; apply N.eqb_eq; lia).
      cbn [negb mergedGroupPointers map commaSeparated genMergedGroupKernelParams_loop].
      eapply writes_eq.
      * eapply writes_bind; [apply writes_emit|].
        eapply writes_bind; [apply writes_ret|]. apply writes_ret.
      * cbn [declaration]. now rewrite !app_nil_r.
    + replace (i =? groupsSize - 1)%N with false by (symmetry; apply N.eqb_neq; lia).
      cbn [negb].
      eapply writes_eq.
      * eapply writes_bind; [apply writes_emit|].
        eapply writes_bind; [apply writes_emit|]. apply IH. lia.
      * cbn [mergedGroupPointers map commaSeparated declaration].
        rewrite <- ?app_assoc. reflexivity.
Qed.

Lemma size_le_totalMembers (groups : list NeuronGroupMerged) :
  Forall (fun n => getGroups n <> []) groups ->
  (size groups <= totalMembers groups)%N.
Proof.
  induction 1 as [|n rest Hn _ IH]; [reflexivity|].
  cbn [totalMembers fold_right]. fold (totalMembers rest).
  assert (1 <= size (getGroups n))%N.
  { unfold size. destruct (getGroups n); [congruence|]. cbn [List.length]. lia. }
  unfold size in *. cbn [List.length]. lia.
Qed.

(** C7.  For merged spike-queue-update groups that have members, the
    pre-neuron-reset kernel gives every merged group a range of as many
    threads as it has members, the ranges following one another from 0;
    a thread of such a range works on the member at its offset in the
    range, advances the spike queue pointer of that member by one slot
    modulo the number of delay slots of the archetype when the archetype
    requires delay, and then resets the spike counts; the kernel has one
    thread per member in total; and the host function [updateNeurons]
    that is emitted holds, in a first block, the statement
    [commandQueue.enqueueNDRangeKernel(preNeuronResetKernel, ...)] and,
    in a second block after it (when the neuron-update kernel has
    threads), the statement that sets the time argument of
    [updateNeuronsKernel] followed by
    [commandQueue.enqueueNDRangeKernel(updateNeuronsKernel, ...)]: the
    pre-neuron-reset kernel is enqueued on the command queue before the
    neuron-update kernel. *)
Theorem preNeuronReset_cycles_queue_before_update
        (resetOut : NeuronGroupMerged -> list tok)
        (groups neuronUpdateGroups : list NeuronGroupMerged) (idStart : N) :
  Forall (fun n => getGroups n <> []) groups ->
  Forall (fun n => writes (reset n) tt (resetOut n)) groups ->
  (totalMembers groups < SizeT.modulus)%N ->
  groups <> [] ->
  writes (genPreNeuronResetKernel reset groups) (totalMembers groups)
         ([Str "__kernel void "; Str "preNeuronResetKernel"; Str "("]
            ++ commaSeparated
                 (map (declaration timePrecision)
                      (mergedGroupPointers "NeuronSpikeQueueUpdate" 0 (List.length groups)))
            ++ [Str ")"] ++ [ScopeB]
            ++ [Str "const unsigned int id = get_global_id(0);"; Endl]
            ++ concat (map (fun '(n, range) => spikeQueueUpdate resetOut n range)
                           (combine groups (memberRanges 0 groups)))
            ++ [ScopeE] ++ [Endl]) /\
  (0 < totalMembers groups)%N /\
  exists globalReset globalUpdate : N,
    let launcher :=
      updateNeurons timePrecision (size neuronUpdateGroups)
                    (globalReset, wgs KernelPreNeuronReset)
                    (globalUpdate, wgs KernelNeuronUpdate) (0 <? idStart)%N in
    writes (genUpdateNeurons wgs timePrecision neuronUpdateGroups (totalMembers groups)
                             idStart) tt launcher /\
    ((0 < idStart)%N ->
     exists before between after : list tok,
       launcher
       = before
           ++ [Str "CHECK_OPENCL_ERRORS(commandQueue.enqueueNDRangeKernel(";
               Str "preNeuronResetKernel";
               Str ", cl::NullRange, globalWorkSize, localWorkSize));"; Endl]
           ++ between
           ++ [Str "CHECK_OPENCL_ERRORS(commandQueue.enqueueNDRangeKernel(";
               Str "updateNeuronsKernel";
               Str ", cl::NullRange, globalWorkSize, localWorkSize));"; Endl]
           ++ after).
Proof.
  intros Hne Hreset Hsum Hgroups.
  assert (Hpos : (0 < totalMembers groups)%N).
  { destruct groups as [|n rest]; [congruence|].
    inversion Hne as [|? ? Hn _]; subst. cbn.
    unfold size. destruct (getGroups n); [congruence|]. cbn [List.length]. lia. }
  assert (Hsize : (size groups < SizeT.modulus)%N).
  { pose proof (size_le_totalMembers groups Hne). lia. }
  split; [|split].
  - unfold genPreNeuronResetKernel, genMergedGroupKernelParams.
    pose proof (kernelParams_without_final_comma
                  "NeuronSpikeQueueUpdate" (size groups) Hsize (List.length groups) 0%N
                  ltac:(unfold size; lia)) as Hparams.
    pose proof (genPreNeuronReset_groups_writes resetOut groups 0%N Hne Hreset
                  ltac:(now rewrite N.add_0_l)) as Hbody.
    rewrite N.add_0_l in Hbody.
    eapply writes_eq; [writes_run|].
    cbn [KernelNames]. rewrite <- ?app_assoc. rewrite ?app_nil_r. reflexivity.
  - exact Hpos.
  - exists (globalWorkSize wgs KernelPreNeuronReset (totalMembers groups)),
           (globalWorkSize wgs KernelNeuronUpdate idStart).
    cbv zeta. split.
    + unfold genUpdateNeurons, updateNeurons, workSizes, enqueueNDRangeKernel.
      apply N.ltb_lt in Hpos. rewrite Hpos.
      pose proof (genKernelDimensions_writes KernelPreNeuronReset (totalMembers groups)).
      pose proof (genKernelDimensions_writes KernelNeuronUpdate idStart).
      eapply writes_eq; [writes_run|].
      destruct (0 <? idStart)%N; rewrite <- ?app_assoc; reflexivity.
    + intros Hstart. apply N.ltb_lt in Hstart. unfold updateNeurons. rewrite Hstart.
      exists ([Str "void updateNeurons("; Str timePrecision; Str " t)"; ScopeB; ScopeB]
                ++ workSizes (globalWorkSize wgs KernelPreNeuronReset (totalMembers groups),
                              wgs KernelPreNeuronReset)),
             ([Endl; ScopeE; ScopeB; Str "CHECK_OPENCL_ERRORS("; Str "updateNeuronsKernel";
               Str ".setArg("; Num (size neuronUpdateGroups); Str ", t));"; Endl; Endl]
                ++ workSizes (globalWorkSize wgs KernelNeuronUpdate idStart,
                              wgs KernelNeuronUpdate)),
             [ScopeE; ScopeE].
      unfold enqueueNDRangeKernel. rewrite <- ?app_assoc. reflexivity.
Qed.

End PreNeuronResetFacts.

(** ** Kernel parameters and host arguments *)

Lemma occursIn_here (block after : list tok) : Emitted.occursIn block (block ++ after).
Proof. now exists [], after. Qed.

Lemma occursIn_last (block : list tok) : Emitted.occursIn block block.
Proof. exists [], []. now rewrite app_nil_r. Qed.

Lemma occursIn_skip (a block whole : list tok) :
  Emitted.occursIn block whole -> Emitted.occursIn block (a ++ whole).
Proof.
  intros (before & after & ->). exists (a ++ before), after.
  now rewrite <- app_assoc.
Qed.

Lemma occursIn_front (block whole b : list tok) :
  Emitted.occursIn block whole -> Emitted.occursIn block (whole ++ b).
Proof.
  intros (before & after & ->). exists before, (after ++ b).
  now rewrite <- !app_assoc.
Qed.

(** Finds a block among the blocks appended one after the other. *)
Ltac find_block :=
  rewrite <- ?app_assoc;
  repeat first
    [ apply occursIn_here
    | apply occursIn_last
    | apply occursIn_skip ].

Section KernelArgumentFacts.
Import Merge OpenCL Emitted.
Variable wgs : Kernel -> N.
Variable timePrecision : string.

Lemma commaSeparated_cons (item : list tok) (items : list (list tok)) :
  items <> [] ->
  commaSeparated (item :: items) = item ++ [Str ", "] ++ commaSeparated items.
Proof. destruct items; [congruence | reflexivity]. Qed.

(** Every pointer followed by a comma, then the time scalar: the
    comma-separated list of all the parameters. *)
Lemma timed_params_text (pointers : list KernelParam) :
  CodeStream.same_text
    (concat (map (fun p => declaration timePrecision p ++ [Str ", "]) pointers)
       ++ [Str timePrecision; Str " t)"])
    (commaSeparated (map (declaration timePrecision) (pointers ++ [TimeParam]))
       ++ [Str ")"]).
Proof.
  unfold CodeStream.same_text.
  induction pointers as [|p pointers IH].
  - reflexivity.
  - cbn [map concat app]. rewrite commaSeparated_cons.
    + rewrite <- !app_assoc. rewrite !flat_app. rewrite <- !flat_app.
      rewrite !flat_app. f_equal. f_equal.
      rewrite <- !flat_app. exact IH.
    + destruct pointers; discriminate.
Qed.

Lemma signature_text (kernel : Kernel) (name : string) (count : nat) :
  CodeStream.same_text
    ([Str "__kernel void "; Str (KernelNames kernel); Str "("]
       ++ concat (map (fun p => declaration timePrecision p ++ [Str ", "])
                      (mergedGroupPointers name 0 count))
       ++ [Str timePrecision; Str " t)"])
    (kernelSignature kernel timePrecision (timedKernelParams name count)).
Proof.
  unfold kernelSignature, timedKernelParams.
  apply same_text_app; [reflexivity|]. apply timed_params_text.
Qed.

Lemma setMergedGroupKernelParams_loop_text (kernel : Kernel) (name : string) :
  forall count i,
  exists out,
    writes (setMergedGroupKernelParams_loop count i (KernelNames kernel) name) tt out /\
    CodeStream.same_text out (setArgs kernel i (mergedGroupPointers name i count)).
Proof.
  induction count as [|count IH]; intros i.
  - exists []. split; [apply writes_ret | reflexivity].
  - destruct (IH (N.succ i)) as (out & Hout & Htext).
    eexists. split.
    + cbn [setMergedGroupKernelParams_loop].
      eapply writes_bind; [apply writes_emit | exact Hout].
    + cbn [mergedGroupPointers setArgs].
      apply same_text_app; [reflexivity | exact Htext].
Qed.

Lemma setMergedGroupKernelParams_text {T} (kernel : Kernel) (groups : list T)
      (name : string) :
  exists out,
    writes (setMergedGroupKernelParams (KernelNames kernel) groups name) tt out /\
    CodeStream.same_text out
      (setArgs kernel 0 (mergedGroupPointers name 0 (List.length groups))).
Proof. apply setMergedGroupKernelParams_loop_text. Qed.

Lemma setArgs_app (kernel : Kernel) (a b : list KernelParam) : forall i,
  setArgs kernel i (a ++ b)
  = setArgs kernel i a ++ setArgs kernel (i + N.of_nat (List.length a)) b.
Proof.
  induction a as [|p a IH]; intros i; cbn [setArgs app List.length].
  - now rewrite N.add_0_r.
  - rewrite IH, <- app_assoc. do 3 f_equal. lia.
Qed.

Lemma mergedGroupPointers_length (name : string) (count : nat) : forall i,
  List.length (mergedGroupPointers name i count) = count.
Proof. induction count as [|count IH]; intros i; cbn; [reflexivity|]. now rewrite IH. Qed.

(** The pointer arguments set while the kernel is configured, followed
    by the time argument set by the launcher, are the arguments of the
    parameters, position by position. *)
Lemma host_arguments_text {T} (kernel : Kernel) (groups : list T) (name : string)
      (pointerArgs : list tok) :
  CodeStream.same_text pointerArgs
    (setArgs kernel 0 (mergedGroupPointers name 0 (List.length groups))) ->
  CodeStream.same_text (pointerArgs ++ setTimeArg kernel (size groups))
    (setArgs kernel 0 (timedKernelParams name (List.length groups))).
Proof.
  intros H. unfold timedKernelParams. rewrite setArgs_app.
  apply same_text_app; [exact H|].
  rewrite mergedGroupPointers_length, N.add_0_l. reflexivity.
Qed.

Lemma signature_writes {T} (kernel : Kernel) (groups : list T) (name : string) :
  exists sig,
    writes (emit [Str "__kernel void "; Str (KernelNames kernel); Str "("] ;;
            genMergedGroupKernelParams groups name true ;;
            emit [Str timePrecision; Str " t)"]) tt sig /\
    CodeStream.same_text sig
      (kernelSignature kernel timePrecision (timedKernelParams name (List.length groups))).
Proof.
  eexists. split.
  - eapply writes_bind; [apply writes_emit|].
    eapply writes_bind; [apply kernelParams_with_final_comma|]. apply writes_emit.
  - apply signature_text.
Qed.

(** C10.  For each of the three kernels that take the time scalar, when
    the kernel has threads: the kernel signature declares one merged-group
    struct pointer per merged group, in index order, and then [t]; the
    host code that configures the kernel sets the pointer of merged group
    [i] as argument [i], and the launcher sets [t] as the argument after
    the last pointer: every host argument is set at the position at which
    the kernel declares its parameter. *)
Theorem kernel_arguments_agree {T}
        (spikeQueueUpdateGroups neuronUpdateGroups : list NeuronGroupMerged)
        (dendriticDelayUpdateGroups presynapticUpdateGroups postsynapticUpdateGroups : list T)
        (idPreNeuronReset idStart : N)
        (idPreSynapseReset idPresynapticStart idPostsynapticStart : N) :
  ((0 < idStart)%N ->
   ArgumentsAgree KernelNeuronUpdate timePrecision "NeuronUpdate"
     (List.length neuronUpdateGroups)
     (genNeuronUpdateKernelSignature timePrecision neuronUpdateGroups)
     (genNeuronUpdate_configureKernels spikeQueueUpdateGroups neuronUpdateGroups
                                       idPreNeuronReset idStart)
     (genUpdateNeurons wgs timePrecision neuronUpdateGroups idPreNeuronReset idStart)) /\
  ((0 < idPresynapticStart)%N ->
   ArgumentsAgree KernelPresynapticUpdate timePrecision "PresynapticUpdate"
     (List.length presynapticUpdateGroups)
     (genPresynapticUpdateKernelSignature timePrecision presynapticUpdateGroups)
     (genSynapseUpdate_configureKernels
        dendriticDelayUpdateGroups presynapticUpdateGroups postsynapticUpdateGroups
        idPreSynapseReset idPresynapticStart idPostsynapticStart)
     (genUpdateSynapses wgs timePrecision presynapticUpdateGroups postsynapticUpdateGroups
                        idPreSynapseReset idPresynapticStart idPostsynapticStart)) /\
  ((0 < idPostsynapticStart)%N ->
   ArgumentsAgree KernelPostsynapticUpdate timePrecision "PostsynapticUpdate"
     (List.length postsynapticUpdateGroups)
     (genPostsynapticUpdateKernelSignature timePrecision postsynapticUpdateGroups)
     (genSynapseUpdate_configureKernels
        dendriticDelayUpdateGroups presynapticUpdateGroups postsynapticUpdateGroups
        idPreSynapseReset idPresynapticStart idPostsynapticStart)
     (genUpdateSynapses wgs timePrecision presynapticUpdateGroups postsynapticUpdateGroups
                        idPreSynapseReset idPresynapticStart idPostsynapticStart)).
Proof.
  destruct (setMergedGroupKernelParams_text KernelPreNeuronReset spikeQueueUpdateGroups
              "NeuronSpikeQueueUpdate") as (sqArgs & Hsq & _).
  destruct (setMergedGroupKernelParams_text KernelNeuronUpdate neuronUpdateGroups
              "NeuronUpdate") as (nuArgs & Hnu & Hnut).
  destruct (setMergedGroupKernelParams_text KernelPreSynapseReset dendriticDelayUpdateGroups
              "SynapseDendriticDelayUpdate") as (ddArgs & Hdd & _).
  destruct (setMergedGroupKernelParams_text KernelPresynapticUpdate presynapticUpdateGroups
              "PresynapticUpdate") as (preArgs & Hpre & Hpret).
  destruct (setMergedGroupKernelParams_text KernelPostsynapticUpdate postsynapticUpdateGroups
              "PostsynapticUpdate") as (postArgs & Hpost & Hpostt).
  destruct (signature_writes KernelNeuronUpdate neuronUpdateGroups "NeuronUpdate")
    as (nuSig & HnuSig & HnuSigt).
  destruct (signature_writes KernelPresynapticUpdate presynapticUpdateGroups
              "PresynapticUpdate") as (preSig & HpreSig & HpreSigt).
  destruct (signature_writes KernelPostsynapticUpdate postsynapticUpdateGroups
              "PostsynapticUpdate") as (postSig & HpostSig & HpostSigt).
  pose proof (genKernelDimensions_writes wgs KernelPreNeuronReset idPreNeuronReset).
  pose proof (genKernelDimensions_writes wgs KernelNeuronUpdate idStart).
  pose proof (genKernelDimensions_writes wgs KernelPreSynapseReset idPreSynapseReset).
  pose proof (genKernelDimensions_writes wgs KernelPresynapticUpdate idPresynapticStart).
  pose proof (genKernelDimensions_writes wgs KernelPostsynapticUpdate idPostsynapticStart).
  split; [|split]; intros Hpos; apply N.ltb_lt in Hpos; unfold ArgumentsAgree.
  - exists nuSig. eexists. eexists.
    exists nuArgs, (setTimeArg KernelNeuronUpdate (size neuronUpdateGroups)).
    split; [exact HnuSig|]. split; [|split; [|split; [|split; [|split]]]].
    + unfold genNeuronUpdate_configureKernels. rewrite Hpos. writes_run.
    + unfold genUpdateNeurons. rewrite Hpos. writes_run.
    + exact HnuSigt.
    + find_block.
    + find_block.
    + now apply host_arguments_text.
  - exists preSig. eexists. eexists.
    exists preArgs, (setTimeArg KernelPresynapticUpdate (size presynapticUpdateGroups)).
    split; [exact HpreSig|]. split; [|split; [|split; [|split; [|split]]]].
    + unfold genSynapseUpdate_configureKernels. rewrite Hpos. writes_run.
    + unfold genUpdateSynapses. rewrite Hpos. writes_run.
    + exact HpreSigt.
    + find_block.
    + find_block.
    + now apply host_arguments_text.
  - exists postSig. eexists. eexists.
    exists postArgs, (setTimeArg KernelPostsynapticUpdate (size postsynapticUpdateGroups)).
    split; [exact HpostSig|]. split; [|split; [|split; [|split; [|split]]]].
    + unfold genSynapseUpdate_configureKernels. rewrite Hpos. writes_run.
    + unfold genUpdateSynapses. rewrite Hpos. writes_run.
    + exact HpostSigt.
    + find_block.
    + find_block.
    + now apply host_arguments_text.
Qed.

End KernelArgumentFacts.

(** ** Spike compaction in the neuron-update kernel *)

Section SpikeCompactionFacts.
Import Merge OpenCL Emitted.

Lemma wuFrame_built (popSubs : Substitutions.t) :
  Substitutions.addVarSubstitution "id" "n" true (Substitutions.child popSubs)
  = inr (wuFrame popSubs).
Proof. reflexivity. Qed.

Lemma wuFrame_id (popSubs : Substitutions.t) :
  Substitutions.get "id" (wuFrame popSubs) = inr "n".
Proof. reflexivity. Qed.

(** C1, as amended.  After the handler, the code emitted for a merged
    neuron-update group is the compaction protocol: after a barrier, when
    the archetype requires spike-like events the thread with local id 1
    adds the shared event count to [group->spkCntEvnt], at the index
    [*group->spkQuePtr] when delay is required and at 0 otherwise; when
    the archetype has a threshold condition the thread with local id 0
    adds the shared spike count to [group->spkCnt], at the index
    [*group->spkQuePtr] when delay and true spikes are both required and
    at 0 otherwise; each reservation is guarded by a non-zero count and
    followed by a barrier; then every thread with a local id below the
    shared count stores its staged event into [group->spkEvnt], and its
    staged spike [n] (after the weight-update handler ran with ["id"]
    standing for [n]) into [group->spk], at the reserved offset.  When
    spike times are not required nothing follows the store of a spike. *)
Theorem spike_compaction_protocol
        (wuVarUpdateHandler : GroupHandler) (ng : NeuronGroupMerged)
        (archetype : NeuronGroupInternal) (popSubs wuSubs : Substitutions.t)
        (wu : list tok) :
  writes (wuVarUpdateHandler ng (wuFrame popSubs)) wuSubs wu ->
  exists out afterStore : list tok,
    writes (genSpikeCompaction wuVarUpdateHandler ng archetype popSubs) tt out /\
    CodeStream.same_text out (compaction archetype wu afterStore) /\
    (isSpikeTimeRequired archetype = false -> afterStore = []).
Proof.
  intros Hwu.
  eexists.
  exists (if isSpikeTimeRequired archetype
          then [Str "group->spk[";
                Str (if isDelayRequired archetype then "writeDelayOffset + " else "");
                Str "n] = t;"; Endl]
          else []).
  split; [|split].
  - unfold genSpikeCompaction. rewrite wuFrame_built. writes_run.
  - unfold compaction, hasThreshold, reserve, reservation, copyOut, store, OpenCL.barrier,
      eventIndex, spikeIndex, eventOffset, spikeOffset, CodeStream.same_text.
    destruct archetype as [numNeurons numDelaySlots delay evnt trueSpike spikeTime rng thr].
    cbn [isSpikeEventRequired isDelayRequired isTrueSpikeRequired isSpikeTimeRequired
         getThresholdConditionCode].
    destruct thr as [|c thr]; destruct delay, evnt, trueSpike, spikeTime;
      cbn [string_empty negb andb];
      rewrite ?app_nil_r; rewrite ?flat_app; reflexivity.
  - now intros ->.
Qed.

End SpikeCompactionFacts.

(** ** The theorems at concrete inputs *)

(** C1, the claim as stated fails.  For a population with axonal delay
    whose true spikes are not required, and with a threshold condition, the
    emitted code does not reserve the range of the true spikes at the
    index [*group->spkQuePtr] of the spike counter, although delay is
    required: it reserves it at the index 0. *)
Lemma spike_counter_index_ignores_delay :
  let archetype := Inputs.delayedNoTrueSpike in
  let ng := Inputs.merged 0 OpenCL.RoleNeuronUpdate [archetype] in
  let out := snd (OpenCL.genSpikeCompaction Inputs.wuHandler ng archetype
                                            Inputs.kernelSubs []) in
  OpenCL.isDelayRequired archetype = true /\
  Emitted.claimedIndex archetype = "*group->spkQuePtr" /\
  CodeStream.contains out (Emitted.reservation "" (Emitted.claimedIndex archetype)) = false /\
  CodeStream.contains out (Emitted.reservation "" "0") = true.
Proof. vm_compute. repeat split; reflexivity. Qed.

(** For a population that requires spike times, the statement emitted
    after the store of a spike assigns [t] to an element of [group->spk];
    no store into [group->sT] is emitted. *)
Lemma spike_time_stored_into_spk :
  let archetype := Inputs.withSpikeTimes in
  let ng := Inputs.merged 0 OpenCL.RoleNeuronUpdate [archetype] in
  let out := snd (OpenCL.genSpikeCompaction Inputs.wuHandler ng archetype
                                            Inputs.kernelSubs []) in
  OpenCL.isSpikeTimeRequired archetype = true /\
  CodeStream.contains out [Str "group->spk[shPosSpk + localId] = n;"; Endl;
                           Str "group->spk[n] = t;"; Endl] = true /\
  CodeStream.contains out [Str "group->sT["] = false.
Proof. vm_compute. repeat split; reflexivity. Qed.

Lemma wuHandler_writes (ng : OpenCL.NeuronGroupMerged) (popSubs : Substitutions.t) :
  writes (Inputs.wuHandler ng (Emitted.wuFrame popSubs)) (Emitted.wuFrame popSubs)
         [Str "group->lastSpike["; Str "n"; Str "] = t;"; Endl].
Proof.
  unfold Inputs.wuHandler. rewrite wuFrame_id.
  eapply writes_eq.
  - eapply writes_bind; [apply writes_emit|].
    eapply writes_bind; [apply writes_lift|].
    eapply writes_bind; [apply writes_emit | apply writes_ret].
  - reflexivity.
Qed.

Lemma spike_compaction_protocol_witness :
  let archetype := Inputs.delayedNoTrueSpike in
  let ng := Inputs.merged 0 OpenCL.RoleNeuronUpdate [archetype] in
  let wu := [Str "group->lastSpike["; Str "n"; Str "] = t;"; Endl] in
  writes (Inputs.wuHandler ng (Emitted.wuFrame Inputs.kernelSubs))
         (Emitted.wuFrame Inputs.kernelSubs) wu /\
  exists out afterStore : list tok,
    writes (OpenCL.genSpikeCompaction Inputs.wuHandler ng archetype Inputs.kernelSubs) tt out /\
    CodeStream.same_text out (Emitted.compaction archetype wu afterStore) /\
    (OpenCL.isSpikeTimeRequired archetype = false -> afterStore = []).
Proof.
  split.
  - apply wuHandler_writes.
  - apply (spike_compaction_protocol Inputs.wuHandler _ _ Inputs.kernelSubs
                                     (Emitted.wuFrame Inputs.kernelSubs)).
    apply wuHandler_writes.
Defined.

(** C4, the claim as stated fails.  With a compatibility test that is not
    transitive (sizes that differ by at most one), the sizes 1, 0 and 2 are
    merged into one group, each accepted by the archetype 1, although the
    members 0 and 2 are not compatible. *)
Lemma merged_members_not_pairwise_compatible :
  exists (merged : list (Merge.MergedGroup nat unit)) (G : Merge.MergedGroup nat unit)
         (a b : nat),
    Merge.createMergedGroups Inputs.near [2; 0; 1]%nat [] "" tt = inr ([], merged) /\
    In G merged /\ In a (Merge.getGroups G) /\ In b (Merge.getGroups G) /\
    Inputs.near a b = false.
Proof.
  exists [Merge.mkMergedGroup 0 "" [1; 0; 2]%nat tt],
         (Merge.mkMergedGroup 0 "" [1; 0; 2]%nat tt), 0%nat, 2%nat.
  vm_compute. intuition.
Qed.

Lemma merge_soundness_for_equivalences_witness :
  exists merged : list (Merge.MergedGroup nat unit),
    Merge.createMergedGroups Inputs.sameParity [1; 2; 3; 4; 5]%nat [] "" tt
      = inr ([], [] ++ merged) /\
    forall G, In G merged ->
      forall a b, In a (Merge.getGroups G) -> In b (Merge.getGroups G) ->
                  Inputs.sameParity a b = true.
Proof.
  destruct (merge_soundness_for_equivalences Inputs.sameParity [1; 2; 3; 4; 5]%nat [] "" tt)
    as (merged & Hrun & Hsound).
  exists merged. split; [exact Hrun|].
  intros G HG a b Ha Hb.
  apply (proj2 (Hsound G HG)); try assumption; unfold Inputs.sameParity.
  - intros x. now destruct (Nat.even x).
  - intros x y. now destruct (Nat.even x), (Nat.even y).
  - intros x y z. now destruct (Nat.even x), (Nat.even y), (Nat.even z).
Defined.

Lemma preNeuronReset_cycles_queue_before_update_witness :
  let groups := Inputs.spikeQueueGroups in
  Forall (fun n => Merge.getGroups n <> []) groups /\
  Forall (fun n => writes (Inputs.reset n) tt (Inputs.resetOut n)) groups /\
  (Emitted.totalMembers groups < SizeT.modulus)%N /\
  groups <> [] /\
  writes (OpenCL.genPreNeuronResetKernel Inputs.reset groups) 3%N
         ([Str "__kernel void "; Str "preNeuronResetKernel"; Str "("]
            ++ Emitted.commaSeparated
                 (map (Emitted.declaration "float")
                      (Emitted.mergedGroupPointers "NeuronSpikeQueueUpdate" 0 2))
            ++ [Str ")"] ++ [ScopeB]
            ++ [Str "const unsigned int id = get_global_id(0);"; Endl]
            ++ concat (map (fun '(n, range) => Emitted.spikeQueueUpdate Inputs.resetOut n range)
                           (combine groups [(0%N, 2%N); (2%N, 3%N)]))
            ++ [ScopeE] ++ [Endl]) /\
  (0 < 3)%N /\
  exists globalReset globalUpdate : N,
    let launcher :=
      Emitted.updateNeurons "float" 2 (globalReset, 32%N) (globalUpdate, 32%N) true in
    writes (OpenCL.genUpdateNeurons Inputs.wgs32 "float" Inputs.neuronUpdateGroups 3 384) tt
           launcher /\
    ((0 < 384)%N ->
     exists before between after : list tok,
       launcher
       = before
           ++ [Str "CHECK_OPENCL_ERRORS(commandQueue.enqueueNDRangeKernel(";
               Str "preNeuronResetKernel";
               Str ", cl::NullRange, globalWorkSize, localWorkSize));"; Endl]
           ++ between
           ++ [Str "CHECK_OPENCL_ERRORS(commandQueue.enqueueNDRangeKernel(";
               Str "updateNeuronsKernel";
               Str ", cl::NullRange, globalWorkSize, localWorkSize));"; Endl]
           ++ after).
Proof.
  assert (H1 : Forall (fun n => Merge.getGroups n <> []) Inputs.spikeQueueGroups)
    by (repeat constructor; discriminate).
  assert (H2 : Forall (fun n => writes (Inputs.reset n) tt (Inputs.resetOut n))
                      Inputs.spikeQueueGroups)
    by (repeat constructor; intros os; reflexivity).
  assert (H3 : (Emitted.totalMembers Inputs.spikeQueueGroups < SizeT.modulus)%N)
    by reflexivity.
  assert (H4 : Inputs.spikeQueueGroups <> []) by discriminate.
  repeat (split; [assumption|]).
  apply (preNeuronReset_cycles_queue_before_update
           Inputs.wgs32 Inputs.reset "float" Inputs.resetOut
           Inputs.spikeQueueGroups Inputs.neuronUpdateGroups 384 H1 H2 H3 H4).
Defined.

Lemma divideKernelStreamInParts_round_trip_witness :
  (0 < 8)%N /\
  (N.of_nat (String.length Inputs.kernelSource) + 8 <= SizeT.modulus)%N /\
  exists chunks : list string,
    KernelSource.divideKernelStreamInParts Inputs.kernelSource 8 []
      = (inr tt, [] ++ flat_map Emitted.rawChunk chunks) /\
    N.of_nat (List.length chunks)
      = ((N.of_nat (String.length Inputs.kernelSource) + 8 - 1) / 8)%N /\
    Forall (fun c => (N.of_nat (String.length c) <= 8)%N) chunks /\
    String.concat "" chunks = Inputs.kernelSource.
Proof.
  split; [reflexivity|]. split; [vm_compute; discriminate|].
  apply (divideKernelStreamInParts_round_trip Inputs.kernelSource 8 []).
  - reflexivity.
  - vm_compute. discriminate.
Defined.

Lemma kernel_arguments_agree_witness :
  (0 < 384)%N /\
  Emitted.ArgumentsAgree OpenCL.KernelNeuronUpdate "float" "NeuronUpdate" 2
    (OpenCL.genNeuronUpdateKernelSignature "float" Inputs.neuronUpdateGroups)
    (OpenCL.genNeuronUpdate_configureKernels Inputs.spikeQueueGroups
                                             Inputs.neuronUpdateGroups 3 384)
    (OpenCL.genUpdateNeurons Inputs.wgs32 "float" Inputs.neuronUpdateGroups 3 384) /\
  (0 < 64)%N /\
  Emitted.ArgumentsAgree OpenCL.KernelPresynapticUpdate "float" "PresynapticUpdate" 3
    (OpenCL.genPresynapticUpdateKernelSignature "float" [tt; tt; tt])
    (OpenCL.genSynapseUpdate_configureKernels [tt] [tt; tt; tt] [tt] 1 64 32)
    (OpenCL.genUpdateSynapses Inputs.wgs32 "float" [tt; tt; tt] [tt] 1 64 32) /\
  (0 < 32)%N /\
  Emitted.ArgumentsAgree OpenCL.KernelPostsynapticUpdate "float" "PostsynapticUpdate" 1
    (OpenCL.genPostsynapticUpdateKernelSignature "float" [tt])
    (OpenCL.genSynapseUpdate_configureKernels [tt] [tt; tt; tt] [tt] 1 64 32)
    (OpenCL.genUpdateSynapses Inputs.wgs32 "float" [tt; tt; tt] [tt] 1 64 32).
Proof.
  pose proof (kernel_arguments_agree Inputs.wgs32 "float"
                Inputs.spikeQueueGroups Inputs.neuronUpdateGroups
                [tt] [tt; tt; tt] [tt] 3 384 1 64 32) as (Hnu & Hpre & Hpost).
  repeat split; try reflexivity.
  - apply Hnu. reflexivity.
  - apply Hpre. reflexivity.
  - apply Hpost. reflexivity.
Defined.

Section MergeOrderFacts.
Import Merge MergeOrder.
Context {Group Role : Type}.
Variable canMerge : Group -> Group -> bool.

Lemma archetypes_app (p q : list (list Group)) :
  archetypes (p ++ q) = archetypes p ++ archetypes q.
Proof. unfold archetypes. apply flat_map_app. Qed.

Lemma ForallOrdPairs_snoc {A} (R : A -> A -> Prop) (l : list A) (x : A) :
  ForallOrdPairs R l -> Forall (fun a => R a x) l -> ForallOrdPairs R (l ++ [x]).
Proof.
  induction 1 as [|a l Ha Hl IH]; intros Hx; cbn.
  - repeat constructor.
  - inversion Hx; subst. constructor.
    + apply Forall_app. split; [assumption|]. now constructor.
    + now apply IH.
Qed.

Lemma rejected_archetypes (group : Group) (proto : list (list Group)) :
  Forall (fun q => accepts canMerge group q = false) proto ->
  Forall (fun a => canMerge a group = false) (archetypes proto).
Proof.
  induction 1 as [|q proto Hq _ IH]; cbn; [constructor|].
  destruct q as [|a q]; cbn; [assumption|]. now constructor.
Qed.

Lemma FirstFit_archetypesApart (group : Group) (p0 p1 : list (list Group)) :
  FirstFit canMerge group p0 p1 ->
  archetypesApart canMerge p0 -> archetypesApart canMerge p1.
Proof.
  unfold archetypesApart.
  intros [before after p Hb Hp | proto Hall] Hinv.
  - destruct p as [|a p]; [discriminate|].
    rewrite archetypes_app in *. exact Hinv.
  - rewrite archetypes_app. cbn. apply ForallOrdPairs_snoc; [assumption|].
    now apply rejected_archetypes.
Qed.

Lemma FirstFitRun_archetypesApart (pending : list Group) (p0 p2 : list (list Group)) :
  FirstFitRun canMerge pending p0 p2 ->
  archetypesApart canMerge p0 -> archetypesApart canMerge p2.
Proof.
  induction 1 as [proto | group rest p0 p1 p2 Hff Hrun IH]; [auto|].
  intros H0. apply IH. eapply FirstFit_archetypesApart; eassumption.
Qed.

Lemma archetypes_nonempty (proto : list (list Group)) :
  Forall nonempty proto ->
  forall k p a, nth_error proto k = Some p -> hd_error p = Some a ->
                nth_error (archetypes proto) k = Some a.
Proof.
  induction 1 as [|q proto Hq _ IH]; intros k p a Hk Ha.
  - destruct k; discriminate.
  - destruct q as [|b q]; [now elim Hq|].
    destruct k as [|k]; cbn in *.
    + injection Hk as <-. cbn in Ha. now injection Ha as <-.
    + eapply IH; eassumption.
Qed.

Lemma ForallOrdPairs_nth {A} (R : A -> A -> Prop) (l : list A) :
  ForallOrdPairs R l ->
  forall i j a b, (i < j)%nat -> nth_error l i = Some a -> nth_error l j = Some b -> R a b.
Proof.
  induction 1 as [|x l Hx Hl IH]; intros i j a b Hij Hi Hj.
  - destruct i; discriminate.
  - destruct j as [|j]; [lia|]. destruct i as [|i]; cbn in *.
    + injection Hi as <-. rewrite Stdlib.Lists.List.Forall_forall in Hx.
      apply Hx. eapply nth_error_In; eassumption.
    + eapply IH; [|eassumption|eassumption]. lia.
Qed.

Lemma nth_error_buildMerged (prefix : string) (role : Role) (proto : list (list Group)) :
  forall i k G, nth_error (buildMerged i prefix role proto) k = Some G ->
                nth_error proto k = Some (getGroups G).
Proof.
  intros i k G H.
  rewrite <- (buildMerged_groups prefix role proto i).
  rewrite nth_error_map, H. reflexivity.
Qed.

(** X1.  The archetypes of the merged groups that [createMergedGroups]
    appends are apart: the archetype of a merged group never accepts the
    archetype of a merged group created after it, whatever the
    compatibility test is. *)
Theorem createMergedGroups_archetypes_apart
        (unmergedGroups : list Group) (mergedGroups : list (MergedGroup Group Role))
        (prefix : string) (role : Role) :
  exists merged : list (MergedGroup Group Role),
    createMergedGroups canMerge unmergedGroups mergedGroups prefix role
      = inr ([], mergedGroups ++ merged) /\
    forall i j Gi Gj a b,
      (i < j)%nat ->
      nth_error merged i = Some Gi -> nth_error merged j = Some Gj ->
      getArchetype Gi = inr a -> getArchetype Gj = inr b ->
      canMerge a b = false.
Proof.
  destruct (mergeLoop_first_fit canMerge (rev unmergedGroups) [] ltac:(constructor))
    as (proto & Hloop & Hrun).
  exists (buildMerged 0 prefix role proto). split.
  - unfold createMergedGroups. now rewrite Hloop.
  - pose proof (FirstFitRun_archetypesApart _ _ _ Hrun ltac:(constructor)) as Hapart.
    destruct (FirstFitRun_invariants canMerge _ _ _ Hrun) as (Hne & _ & _).
    specialize (Hne ltac:(constructor)).
    intros i j Gi Gj a b Hij Hi Hj Ha Hb.
    apply nth_error_buildMerged in Hi, Hj.
    unfold getArchetype in Ha, Hb.
    eapply (ForallOrdPairs_nth _ _ Hapart i j a b Hij).
    + eapply archetypes_nonempty; [eassumption|eassumption|].
      destruct (getGroups Gi); [discriminate|]. now injection Ha as <-.
    + eapply archetypes_nonempty; [eassumption|eassumption|].
      destruct (getGroups Gj); [discriminate|]. now injection Hb as <-.
Qed.


Lemma In_nth_members (proto : list (list Group)) k p :
  Forall (archetypeAccepts canMerge) proto ->
  nth_error proto k = Some p ->
  forall x, In x p ->
    exists a, hd_error p = Some a /\ (x = a \/ canMerge a x = true).
Proof.
  intros Hacc Hk x Hx.
  rewrite Stdlib.Lists.List.Forall_forall in Hacc.
  specialize (Hacc p (nth_error_In _ _ Hk)).
  destruct p as [|a others]; [contradiction|].
  exists a. split; [reflexivity|].
  destruct Hx as [<-|Hx]; [now left|right].
  cbn in Hacc. rewrite Stdlib.Lists.List.Forall_forall in Hacc. now apply Hacc.
Qed.

(** X2.  When the compatibility test is an equivalence, the merged
    groups that [createMergedGroups] appends are its classes: two members
    are compatible exactly when they are in the same merged group, so no
    two merged groups could have been merged further. *)
Theorem createMergedGroups_equivalence_classes
        (unmergedGroups : list Group) (mergedGroups : list (MergedGroup Group Role))
        (prefix : string) (role : Role) :
  (forall a, canMerge a a = true) ->
  (forall a b, canMerge a b = true -> canMerge b a = true) ->
  (forall a b c, canMerge a b = true -> canMerge b c = true -> canMerge a c = true) ->
  exists merged : list (MergedGroup Group Role),
    createMergedGroups canMerge unmergedGroups mergedGroups prefix role
      = inr ([], mergedGroups ++ merged) /\
    forall i j Gi Gj a b,
      nth_error merged i = Some Gi -> nth_error merged j = Some Gj ->
      In a (getGroups Gi) -> In b (getGroups Gj) ->
      (canMerge a b = true <-> i = j).
Proof.
  intros Hrefl Hsym Htrans.
  destruct (mergeLoop_first_fit canMerge (rev unmergedGroups) [] ltac:(constructor))
    as (proto & Hloop & Hrun).
  exists (buildMerged 0 prefix role proto). split.
  - unfold createMergedGroups. now rewrite Hloop.
  - pose proof (FirstFitRun_archetypesApart _ _ _ Hrun ltac:(constructor)) as Hapart.
    destruct (FirstFitRun_invariants canMerge _ _ _ Hrun) as (Hne & Hacc & _).
    specialize (Hne ltac:(constructor)). specialize (Hacc ltac:(constructor)).
    assert (Hlt : forall i j Gi Gj a b,
               (i < j)%nat ->
               nth_error (buildMerged 0 prefix role proto) i = Some Gi ->
               nth_error (buildMerged 0 prefix role proto) j = Some Gj ->
               In a (getGroups Gi) -> In b (getGroups Gj) -> canMerge a b = false).
    { intros i j Gi Gj a b Hij Hi Hj Ha Hb.
      apply nth_error_buildMerged in Hi, Hj.
      destruct (In_nth_members _ _ _ Hacc Hi a Ha) as (ai & Hai & Hia).
      destruct (In_nth_members _ _ _ Hacc Hj b Hb) as (aj & Haj & Hjb).
      assert (Hapart' : canMerge ai aj = false).
      { eapply (ForallOrdPairs_nth _ _ Hapart i j ai aj Hij);
          eapply archetypes_nonempty; eassumption. }
      assert (Hia' : canMerge ai a = true) by (destruct Hia as [->|]; auto).
      assert (Hjb' : canMerge aj b = true) by (destruct Hjb as [->|]; auto).
      destruct (canMerge a b) eqn:E; [|reflexivity].
      rewrite <- Hapart'. symmetry.
      apply Htrans with a; [assumption|]. apply Htrans with b; [assumption|].
      now apply Hsym. }
    intros i j Gi Gj a b Hi Hj Ha Hb. split.
    + intros Hab.
      destruct (Nat.lt_trichotomy i j) as [Hij|[Hij|Hij]]; [|assumption|].
      * rewrite (Hlt i j Gi Gj a b Hij Hi Hj Ha Hb) in Hab. discriminate.
      * apply Hsym in Hab.
        rewrite (Hlt j i Gj Gi b a Hij Hj Hi Hb Ha) in Hab. discriminate.
    + intros <-. rewrite Hi in Hj. injection Hj as <-.
      apply nth_error_buildMerged in Hi.
      destruct (In_nth_members _ _ _ Hacc Hi a Ha) as (ai & Hai & Hia).
      destruct (In_nth_members _ _ _ Hacc Hi b Hb) as (aj & Haj & Hjb).
      rewrite Hai in Haj. injection Haj as <-.
      assert (Hia' : canMerge ai a = true) by (destruct Hia as [->|]; auto).
      assert (Hjb' : canMerge ai b = true) by (destruct Hjb as [->|]; auto).
      apply Htrans with ai; [now apply Hsym | assumption].
Qed.

Lemma FirstFit_sublist (group : Group) (p0 p1 : list (list Group)) (taken : list Group) :
  FirstFit canMerge group p0 p1 ->
  Forall (fun p => sublist p taken) p0 ->
  Forall (fun p => sublist p (taken ++ [group])) p1.
Proof.
  intros [before after p Hb Hp | proto Hall] Hinv.
  - apply Forall_app in Hinv as [H1 H2]. inversion H2 as [|? ? Hp' Hafter]; subst.
    apply Forall_app. split; [|constructor].
    + eapply Stdlib.Lists.List.Forall_impl; [|exact H1]. intros q Hq. cbn beta in *. now apply sublist_inserts_r.
    + now apply sublist_app.
    + eapply Stdlib.Lists.List.Forall_impl; [|exact Hafter]. intros q Hq. cbn beta in *. now apply sublist_inserts_r.
  - apply Forall_app. split; [|repeat constructor].
    + eapply Stdlib.Lists.List.Forall_impl; [|exact Hinv]. intros q Hq. cbn beta in *. now apply sublist_inserts_r.
    + apply sublist_inserts_l. reflexivity.
Qed.

Lemma FirstFitRun_sublist (pending : list Group) (p0 p2 : list (list Group)) :
  FirstFitRun canMerge pending p0 p2 ->
  forall taken, Forall (fun p => sublist p taken) p0 ->
                Forall (fun p => sublist p (taken ++ pending)) p2.
Proof.
  induction 1 as [proto | group rest p0 p1 p2 Hff Hrun IH]; intros taken H0.
  - now rewrite app_nil_r.
  - replace (taken ++ group :: rest) with ((taken ++ [group]) ++ rest)
      by (now rewrite <- app_assoc).
    apply IH. eapply FirstFit_sublist; eassumption.
Qed.

(** X3.  The loop takes the groups from the back of the vector and
    appends each to the end of a proto-merged group: the members of every
    merged group are in the reverse of the order of [unmergedGroups]. *)
Theorem createMergedGroups_members_in_reverse_order
        (unmergedGroups : list Group) (mergedGroups : list (MergedGroup Group Role))
        (prefix : string) (role : Role) :
  exists merged : list (MergedGroup Group Role),
    createMergedGroups canMerge unmergedGroups mergedGroups prefix role
      = inr ([], mergedGroups ++ merged) /\
    Forall (fun G => sublist (getGroups G) (rev unmergedGroups)) merged.
Proof.
  destruct (mergeLoop_first_fit canMerge (rev unmergedGroups) [] ltac:(constructor))
    as (proto & Hloop & Hrun).
  exists (buildMerged 0 prefix role proto). split.
  - unfold createMergedGroups. now rewrite Hloop.
  - pose proof (FirstFitRun_sublist _ _ _ Hrun [] ltac:(constructor)) as Hsub.
    cbn [app] in Hsub.
    rewrite <- (buildMerged_groups prefix role proto 0%N) in Hsub.
    rewrite Stdlib.Lists.List.Forall_map in Hsub. exact Hsub.
Qed.

Lemma mergeLoop_all_compatible (pending : list Group) :
  (forall a b, canMerge a b = true) ->
  forall p, p <> [] -> mergeLoop canMerge pending [p] = inr [p ++ pending].
Proof.
  intros Hall. induction pending as [|g rest IH]; intros p Hp.
  - now rewrite app_nil_r.
  - cbn [mergeLoop]. unfold mergeStep. cbn [searchProto].
    destruct p as [|a p]; [congruence|]. rewrite Hall.
    rewrite IH by (now destruct p). now rewrite <- app_assoc.
Qed.

(** X4.  When every group is compatible with every other and there is at
    least one group, [createMergedGroups] appends one merged group of
    index 0 that holds all the groups in reverse order; its archetype is
    the last group of [unmergedGroups]. *)
Theorem createMergedGroups_all_compatible
        (unmergedGroups : list Group) (mergedGroups : list (MergedGroup Group Role))
        (prefix : string) (role : Role) :
  (forall a b, canMerge a b = true) ->
  unmergedGroups <> [] ->
  createMergedGroups canMerge unmergedGroups mergedGroups prefix role
    = inr ([], mergedGroups ++ [mkMergedGroup 0 prefix (rev unmergedGroups) role]).
Proof.
  intros Hall Hne. unfold createMergedGroups.
  destruct (rev unmergedGroups) as [|g rest] eqn:E.
  - apply (f_equal (@rev Group)) in E. rewrite rev_involutive in E. now elim Hne.
  - cbn [mergeLoop]. unfold mergeStep. cbn [searchProto app].
    rewrite mergeLoop_all_compatible by (assumption || discriminate). reflexivity.
Qed.

Lemma searchProto_none_compatible (group : Group) (taken : list Group) :
  Forall (fun a => canMerge a group = false) taken ->
  searchProto canMerge group (map (fun g => [g]) taken)
  = inr (false, map (fun g => [g]) taken).
Proof.
  induction 1 as [|a taken Ha _ IH]; [reflexivity|].
  cbn [map searchProto]. now rewrite Ha, IH.
Qed.

Lemma mergeLoop_none_compatible (pending : list Group) :
  ForallOrdPairs (fun a b => canMerge a b = false) pending ->
  forall taken,
    Forall (fun a => Forall (fun b => canMerge a b = false) pending) taken ->
    mergeLoop canMerge pending (map (fun g => [g]) taken)
    = inr (map (fun g => [g]) (taken ++ pending)).
Proof.
  induction 1 as [|g rest Hg Hrest IH]; intros taken Htaken.
  - now rewrite app_nil_r.
  - cbn [mergeLoop]. unfold mergeStep. rewrite searchProto_none_compatible.
    + replace (map (fun g0 => [g0]) taken ++ [[g]])
        with (map (fun g0 : Group => [g0]) (taken ++ [g]))
        by (now rewrite map_app).
      rewrite IH; [now rewrite <- app_assoc|].
      apply Forall_app. split.
      * eapply Stdlib.Lists.List.Forall_impl; [|exact Htaken].
        intros a Ha. cbn beta in Ha. now inversion Ha.
      * now repeat constructor.
    + eapply Stdlib.Lists.List.Forall_impl; [|exact Htaken].
      intros a Ha. cbn beta in Ha. now inversion Ha.
Qed.

(** X5.  When no group is compatible with a group taken after it (the
    groups are taken from the back of the vector), [createMergedGroups]
    appends one merged group per group, each with its group as the only
    member, in the reverse of the order of [unmergedGroups]. *)
Theorem createMergedGroups_none_compatible
        (unmergedGroups : list Group) (mergedGroups : list (MergedGroup Group Role))
        (prefix : string) (role : Role) :
  ForallOrdPairs (fun a b => canMerge a b = false) (rev unmergedGroups) ->
  exists merged : list (MergedGroup Group Role),
    createMergedGroups canMerge unmergedGroups mergedGroups prefix role
      = inr ([], mergedGroups ++ merged) /\
    map getGroups merged = map (fun g => [g]) (rev unmergedGroups).
Proof.
  intros Hnone. unfold createMergedGroups.
  pose proof (mergeLoop_none_compatible (rev unmergedGroups) Hnone [] ltac:(constructor)) as H.
  cbn [map app] in H. rewrite H.
  eexists. split; [reflexivity|]. apply buildMerged_groups.
Qed.

End MergeOrderFacts.

Lemma createMergedGroups_equivalence_classes_witness :
  exists merged : list (Merge.MergedGroup nat unit),
    Merge.createMergedGroups Inputs.sameParity [1; 2; 3; 4; 5]%nat [] "" tt
      = inr ([], [] ++ merged) /\
    forall i j Gi Gj a b,
      nth_error merged i = Some Gi -> nth_error merged j = Some Gj ->
      In a (Merge.getGroups Gi) -> In b (Merge.getGroups Gj) ->
      (Inputs.sameParity a b = true <-> i = j).
Proof.
  apply (createMergedGroups_equivalence_classes Inputs.sameParity [1; 2; 3; 4; 5]%nat [] "" tt);
    unfold Inputs.sameParity.
  - intros x. now destruct (Nat.even x).
  - intros x y. now destruct (Nat.even x), (Nat.even y).
  - intros x y z. now destruct (Nat.even x), (Nat.even y), (Nat.even z).
Defined.

Lemma createMergedGroups_all_compatible_witness :
  Merge.createMergedGroups (fun _ _ : nat => true) [1; 2; 3]%nat [] "neuronUpdate" tt
  = inr ([], [] ++ [Merge.mkMergedGroup 0 "neuronUpdate" (rev [1; 2; 3]%nat) tt]).
Proof.
  apply (createMergedGroups_all_compatible (fun _ _ : nat => true) [1; 2; 3]%nat [] "neuronUpdate" tt).
  - reflexivity.
  - discriminate.
Defined.

Lemma createMergedGroups_none_compatible_witness :
  exists merged : list (Merge.MergedGroup nat unit),
    Merge.createMergedGroups Nat.eqb [1; 2; 3]%nat [] "" tt = inr ([], [] ++ merged) /\
    map Merge.getGroups merged = map (fun g => [g]) (rev [1; 2; 3]%nat).
Proof.
  apply (createMergedGroups_none_compatible Nat.eqb [1; 2; 3]%nat [] "" tt).
  cbn. repeat constructor.
Defined.

Section DispatchOneGroup.
Import Dispatch DispatchText.
Context {T : Type}.
Variable getPaddedSizeFunc : T -> N.
Variable filter : T -> bool.
Variable handler : T -> Substitutions.t -> Gen Substitutions.t.

Lemma groupLoop_skips (groups : list (string * T)) :
  dispatched filter groups = [] ->
  forall popSubs st,
    groupLoop getPaddedSizeFunc filter handler groups popSubs st = (inr tt, st).
Proof.
  induction groups as [|[name g] rest IH]; intros Hnone popSubs st.
  - reflexivity.
  - cbn [groupLoop]. cbn [dispatched List.filter snd] in Hnone.
    destruct (filter g); [discriminate|]. now apply IH.
Qed.

(** X6.  When the filter rejects every group, [genParallelGroup] writes
    nothing and leaves [idStart] as it was: no comment, no guard and no
    call of the handler. *)
Theorem genParallelGroup_nothing_dispatched
        (kernelSubs : Substitutions.t) (groups : list (string * T)) (st : St) :
  Forall (fun g => filter (snd g) = false) groups ->
  genParallelGroup getPaddedSizeFunc filter handler kernelSubs groups st = (inr tt, st).
Proof.
  intros Hall. apply groupLoop_skips.
  unfold dispatched. induction Hall as [|g groups Hg _ IH]; [reflexivity|].
  cbn. now rewrite Hg.
Qed.

Lemma addVarSubstitution_child (name repl : string) (kernelSubs : Substitutions.t) :
  Substitutions.addVarSubstitution name repl false (Substitutions.child kernelSubs)
  = inr (Substitutions.Child (<[name := repl]> empty) empty kernelSubs).
Proof.
  unfold Substitutions.addVarSubstitution, Substitutions.child. cbn [Substitutions.vars].
  now rewrite lookup_empty.
Qed.

(** X7.  When the filter passes exactly one group, [genParallelGroup]
    writes the comment and the guard of that group, then what the handler
    writes, then the closing bracket, and advances [idStart] by the padded
    size of that group alone; the rejected groups before and after it
    leave no trace.  The handler receives a child of the kernel frame in
    which ["id"] stands for [id] when the range starts at 0 and for
    [lid] otherwise. *)
Theorem genParallelGroup_one_group
        (kernelSubs : Substitutions.t) (skipped rest : list (string * T))
        (name : string) (g : T) (os : CodeStream.t) (idStart : N)
        (popSubs' : Substitutions.t) (out : list tok) :
  dispatched filter skipped = [] ->
  dispatched filter rest = [] ->
  filter g = true ->
  writes (handler g (groupFrame kernelSubs idStart)) popSubs' out ->
  genParallelGroup getPaddedSizeFunc filter handler kernelSubs
                   (skipped ++ (name, g) :: rest) (os, idStart)
  = (inr tt,
     (os ++ groupHeader name idStart (getPaddedSizeFunc g) ++ out ++ [CB 1; Endl],
      SizeT.add idStart (getPaddedSizeFunc g))).
Proof.
  intros Hskipped Hrest Hg Hh. unfold genParallelGroup.
  generalize (eq_refl (Substitutions.child kernelSubs)).
  generalize (Substitutions.child kernelSubs) at 1 3 as popSubs.
  induction skipped as [|[name' g'] skipped IH]; intros popSubs Hpop.
  - cbn [app groupLoop]. rewrite Hg. subst popSubs.
    unfold groupHeader, groupFrame in *.
    unfold bind at 1. unfold onStream at 1, emit at 1.
    unfold bind at 1. unfold getRef at 1.
    unfold bind at 1.
    destruct (idStart =? 0)%N.
    + unfold bind at 1. unfold onStream at 1, emit at 1.
      rewrite addVarSubstitution_child. unfold lift at 1.
      unfold bind at 1. unfold onStream at 1. rewrite Hh.
      unfold bind, putRef, onStream, emit.
      rewrite groupLoop_skips by assumption.
      cbn [app]. rewrite <- ?app_assoc. cbn [app]. reflexivity.
    + unfold bind at 1. unfold onStream at 1, emit at 1.
      unfold bind at 1. unfold onStream at 1, emit at 1.
      rewrite addVarSubstitution_child. unfold lift at 1.
      unfold bind at 1. unfold onStream at 1. rewrite Hh.
      unfold bind, putRef, onStream, emit.
      rewrite groupLoop_skips by assumption.
      cbn [app]. rewrite <- ?app_assoc. cbn [app]. reflexivity.
  - cbn [app groupLoop]. cbn [dispatched List.filter snd] in Hskipped.
    destruct (filter g'); [discriminate|]. now apply IH.
Qed.

End DispatchOneGroup.

Lemma genParallelGroup_nothing_dispatched_witness :
  Forall (fun g : string * N => (fun _ : N => false) (snd g) = false) Inputs.twoGroups /\
  Dispatch.genParallelGroup Inputs.pad32 (fun _ => false) Inputs.workHandler
                            Inputs.kernelSubs Inputs.twoGroups ([], 64%N)
  = (inr tt, ([], 64%N)).
Proof.
  assert (H : Forall (fun g : string * N => (fun _ : N => false) (snd g) = false)
                     Inputs.twoGroups) by (repeat constructor).
  split; [exact H|].
  apply (genParallelGroup_nothing_dispatched Inputs.pad32 (fun _ => false) Inputs.workHandler
                                             Inputs.kernelSubs Inputs.twoGroups ([], 64%N) H).
Defined.

Lemma workHandler_lid_writes (numNeurons idStart : N) :
  idStart <> 0%N ->
  writes (Inputs.workHandler numNeurons (DispatchText.groupFrame Inputs.kernelSubs idStart))
         (DispatchText.groupFrame Inputs.kernelSubs idStart)
         [Str "if("; Str "lid"; Str " < "; Num numNeurons; Str ") work("; Str "lid";
          Str ");"; Endl].
Proof.
  intros Hid os. unfold DispatchText.groupFrame.
  apply N.eqb_neq in Hid. rewrite Hid.
  unfold Inputs.workHandler, bind, emit, lift, ret.
  change (Substitutions.get "id" _) with (@inr exn string "lid").
  cbn. rewrite <- app_assoc. reflexivity.
Qed.

Lemma genParallelGroup_one_group_witness :
  let filter := fun numNeurons : N => (200 <? numNeurons)%N in
  let out := [Str "if("; Str "lid"; Str " < "; Num 250; Str ") work("; Str "lid";
              Str ");"; Endl] in
  Dispatch.dispatched filter [("a", 100%N)] = [] /\
  Dispatch.dispatched filter [("c", 10%N)] = [] /\
  filter 250%N = true /\
  writes (Inputs.workHandler 250 (DispatchText.groupFrame Inputs.kernelSubs 64))
         (DispatchText.groupFrame Inputs.kernelSubs 64) out /\
  Dispatch.genParallelGroup Inputs.pad32 filter Inputs.workHandler Inputs.kernelSubs
                            ([("a", 100%N)] ++ ("b", 250%N) :: [("c", 10%N)]) ([], 64%N)
  = (inr tt,
     ([] ++ DispatchText.groupHeader "b" 64 (Inputs.pad32 250) ++ out ++ [CB 1; Endl],
      SizeT.add 64 (Inputs.pad32 250))).
Proof.
  intros filter out.
  assert (H : writes (Inputs.workHandler 250 (DispatchText.groupFrame Inputs.kernelSubs 64))
                     (DispatchText.groupFrame Inputs.kernelSubs 64) out)
    by (apply workHandler_lid_writes; discriminate).
  split; [reflexivity|]. split; [reflexivity|]. split; [reflexivity|]. split; [exact H|].
  apply (genParallelGroup_one_group Inputs.pad32 filter Inputs.workHandler Inputs.kernelSubs
                                    [("a", 100%N)] [("c", 10%N)] "b" 250%N [] 64%N
                                    (DispatchText.groupFrame Inputs.kernelSubs 64) out
                                    eq_refl eq_refl eq_refl H).
Defined.

Section StartIDFacts.
Import Merge StartIDs.
Context {Role : Type}.
Variable workgroupSize : N.
Hypothesis workgroupSize_positive : (0 < workgroupSize)%N.

Lemma padded_bounds (n : N) :
  (n <= padded workgroupSize n < n + workgroupSize)%N /\
  (padded workgroupSize n mod workgroupSize = 0)%N.
Proof.
  unfold padded. split.
  - pose proof (N.div_mod (n + workgroupSize - 1) workgroupSize ltac:(lia)) as Hdm.
    pose proof (N.mod_lt (n + workgroupSize - 1) workgroupSize ltac:(lia)) as Hlt.
    rewrite (N.mul_comm _ workgroupSize).
    remember ((n + workgroupSize - 1) / workgroupSize)%N as q.
    remember ((n + workgroupSize - 1) mod workgroupSize)%N as r.
    lia.
  - apply N.Div0.mod_mul.
Qed.

Lemma padSize_padded (n : N) :
  (n + workgroupSize <= SizeT.modulus)%N ->
  SizeT.padSize n workgroupSize = padded workgroupSize n.
Proof.
  intros Hn. unfold SizeT.padSize, SizeT.ceilDivide, SizeT.mul, SizeT.add, SizeT.sub,
              SizeT.wrap, padded.
  assert (Hm : (SizeT.modulus = 2 ^ 64)%N) by reflexivity.
  rewrite (N.mod_small 1) by (rewrite Hm; lia).
  replace (workgroupSize + SizeT.modulus - 1)%N
    with ((workgroupSize - 1) + 1 * SizeT.modulus)%N by lia.
  rewrite N.Div0.mod_add. rewrite (N.mod_small (workgroupSize - 1)) by lia.
  rewrite (N.mod_small (n + (workgroupSize - 1))) by lia.
  replace (n + (workgroupSize - 1))%N with (n + workgroupSize - 1)%N by lia.
  apply N.mod_small.
  pose proof (padded_bounds n) as [Hb _]. unfold padded in Hb. lia.
Qed.

Lemma membersEnd_le {T} (getNumThreads : T -> N) (groups : list T) :
  forall start, (start <= membersEnd workgroupSize getNumThreads start groups)%N.
Proof.
  unfold membersEnd. induction groups as [|ng rest IH]; intros start; cbn; [lia|].
  specialize (IH (start + padded workgroupSize (getNumThreads ng))%N). lia.
Qed.

Lemma mergedEnd_le {T} (getNumThreads : T -> N) (mergedGroups : list (MergedGroup T Role)) :
  forall start, (start <= mergedEnd workgroupSize getNumThreads start mergedGroups)%N.
Proof.
  unfold mergedEnd. induction mergedGroups as [|m rest IH]; intros start; cbn; [lia|].
  specialize (IH (membersEnd workgroupSize getNumThreads start (getGroups m))).
  pose proof (membersEnd_le getNumThreads (getGroups m) start). lia.
Qed.

Lemma allEnd_le (args : list (GroupArgs Role)) :
  forall start, (start <= allEnd workgroupSize start args)%N.
Proof.
  unfold allEnd. induction args as [|a rest IH]; intros start; cbn; [lia|].
  specialize (IH (mergedEnd workgroupSize (getNumThreads a) start (mergedGroups a))).
  pose proof (mergedEnd_le (getNumThreads a) (mergedGroups a) start). lia.
Qed.

Lemma membersEnd_aligned {T} (getNumThreads : T -> N) (groups : list T) :
  forall start, (start mod workgroupSize = 0)%N ->
                (membersEnd workgroupSize getNumThreads start groups mod workgroupSize = 0)%N.
Proof.
  unfold membersEnd. induction groups as [|ng rest IH]; intros start Hs; cbn; [assumption|].
  apply IH. rewrite N.Div0.add_mod, Hs, (proj2 (padded_bounds _)). cbn.
  apply N.Div0.mod_0_l.
Qed.

Lemma mergedEnd_aligned {T} (getNumThreads : T -> N)
      (mergedGroups : list (MergedGroup T Role)) :
  forall start, (start mod workgroupSize = 0)%N ->
                (mergedEnd workgroupSize getNumThreads start mergedGroups mod workgroupSize = 0)%N.
Proof.
  unfold mergedEnd. induction mergedGroups as [|m rest IH]; intros start Hs; cbn; [assumption|].
  apply IH. now apply membersEnd_aligned.
Qed.

Lemma allEnd_aligned (args : list (GroupArgs Role)) :
  forall start, (start mod workgroupSize = 0)%N ->
                (allEnd workgroupSize start args mod workgroupSize = 0)%N.
Proof.
  unfold allEnd. induction args as [|a rest IH]; intros start Hs; cbn; [assumption|].
  apply IH. now apply mergedEnd_aligned.
Qed.

Lemma genGroupStartIDs_members_run {T} (getNumThreads : T -> N) (groups : list T) :
  forall os start,
    (membersEnd workgroupSize getNumThreads start groups + workgroupSize <= SizeT.modulus)%N ->
    genGroupStartIDs_members workgroupSize getNumThreads groups (os, start)
    = (inr tt,
       (os ++ flat_map (fun s => [Num s; Str ", "])
                       (memberStarts workgroupSize getNumThreads start groups),
        membersEnd workgroupSize getNumThreads start groups)).
Proof.
  induction groups as [|ng rest IH]; intros os start Hend.
  - cbn. now rewrite app_nil_r.
  - cbn [genGroupStartIDs_members memberStarts flat_map].
    unfold membersEnd in *. cbn [fold_left] in *.
    pose proof (membersEnd_le getNumThreads rest
                  (start + padded workgroupSize (getNumThreads ng))%N) as Hle.
    unfold membersEnd in Hle.
    pose proof (padded_bounds (getNumThreads ng)) as [Hb _].
    unfold bind at 1. unfold getRef at 1.
    unfold bind at 1. unfold onStream at 1, emit at 1.
    unfold bind at 1. unfold putRef at 1.
    rewrite padSize_padded by lia.
    unfold SizeT.add, SizeT.wrap. rewrite N.mod_small by lia.
    rewrite IH by assumption. now rewrite <- app_assoc.
Qed.

Lemma genGroupStartIDs_merged_run {T} (prefix : string) (getNumThreads : T -> N)
      (mergedGroups : list (MergedGroup T Role)) :
  forall os start,
    (mergedEnd workgroupSize getNumThreads start mergedGroups + workgroupSize
       <= SizeT.modulus)%N ->
    genGroupStartIDs_merged workgroupSize prefix getNumThreads mergedGroups (os, start)
    = (inr tt,
       (os ++ mergedArrays workgroupSize prefix getNumThreads start mergedGroups,
        mergedEnd workgroupSize getNumThreads start mergedGroups)).
Proof.
  induction mergedGroups as [|m rest IH]; intros os start Hend.
  - cbn. now rewrite app_nil_r.
  - cbn [genGroupStartIDs_merged mergedArrays].
    unfold mergedEnd in *. cbn [fold_left] in *.
    pose proof (mergedEnd_le getNumThreads rest
                  (membersEnd workgroupSize getNumThreads start (getGroups m))) as Hle.
    unfold mergedEnd in Hle.
    unfold bind at 1. unfold onStream at 1, emit at 1.
    unfold bind at 1. rewrite genGroupStartIDs_members_run by lia.
    unfold bind at 1. unfold onStream at 1, emit at 1.
    rewrite IH by assumption. unfold startIDArray.
    rewrite <- !app_assoc. reflexivity.
Qed.

Lemma genGroupStartIDs_run (args : list (GroupArgs Role)) :
  forall os start,
    (allEnd workgroupSize start args + workgroupSize <= SizeT.modulus)%N ->
    genGroupStartIDs workgroupSize args (os, start)
    = (inr tt, (os ++ allArrays workgroupSize start args, allEnd workgroupSize start args)).
Proof.
  induction args as [|a rest IH]; intros os start Hend.
  - cbn. now rewrite app_nil_r.
  - cbn [genGroupStartIDs allArrays].
    unfold allEnd in *. cbn [fold_left] in *.
    pose proof (allEnd_le rest
                  (mergedEnd workgroupSize (getNumThreads a) start (mergedGroups a))) as Hle.
    unfold allEnd in Hle.
    unfold bind at 1. rewrite genGroupStartIDs_merged_run by lia.
    rewrite IH by assumption. now rewrite <- app_assoc.
Qed.


Lemma memberStarts_ranges {T} (getNumThreads : T -> N) (groups : list T) :
  forall start,
    (start mod workgroupSize = 0)%N ->
    List.length (memberStarts workgroupSize getNumThreads start groups) = List.length groups /\
    forall k s ng,
      nth_error (memberStarts workgroupSize getNumThreads start groups) k = Some s ->
      nth_error groups k = Some ng ->
      (s mod workgroupSize = 0)%N /\ (start <= s)%N /\
      (s + getNumThreads ng <= membersEnd workgroupSize getNumThreads start groups)%N /\
      (forall j s', (k < j)%nat ->
         nth_error (memberStarts workgroupSize getNumThreads start groups) j = Some s' ->
         (s + getNumThreads ng <= s')%N).
Proof.
  induction groups as [|g rest IH]; intros start Hs.
  - split; [reflexivity|]. intros k; destruct k; discriminate.
  - cbn [memberStarts List.length].
    pose proof (padded_bounds (getNumThreads g)) as [Hb Hmod].
    assert (Hs' : ((start + padded workgroupSize (getNumThreads g)) mod workgroupSize = 0)%N).
    { rewrite N.Div0.add_mod, Hs, Hmod. cbn. apply N.Div0.mod_0_l. }
    destruct (IH _ Hs') as [Hlen Hrest]. split; [now rewrite Hlen|].
    unfold membersEnd in *. cbn [fold_left].
    pose proof (membersEnd_le getNumThreads rest
                  (start + padded workgroupSize (getNumThreads g))%N) as Hle.
    unfold membersEnd in Hle.
    intros k s ng Hk Hng. destruct k as [|k]; cbn [nth_error] in Hk, Hng.
    + injection Hk as <-. injection Hng as <-.
      repeat split; [assumption | lia | lia |].
      intros j s' Hj Hs'j. destruct j as [|j]; [lia|]. cbn [nth_error] in Hs'j.
      destruct (nth_error rest j) as [ng'|] eqn:Eng.
      * destruct (Hrest j s' ng' Hs'j Eng) as (_ & Hge & _). lia.
      * apply nth_error_None in Eng. rewrite <- Hlen in Eng.
        apply nth_error_None in Eng. congruence.
    + destruct (Hrest k s ng Hk Hng) as (Hm & Hge & Hend & Hlater).
      repeat split; [assumption | lia | assumption |].
      intros j s' Hj Hs'j. destruct j as [|j]; [lia|]. cbn [nth_error] in Hs'j.
      apply (Hlater j s'); [lia | assumption].
Qed.

(** X8.  [genMergedKernelDataStructures] writes, for every merged group
    of every vector it is given, the array [d_merged<prefix>GroupStartID<i>]
    of the first threads of its members.  One counter runs through all the
    vectors: it starts at 0 and every member starts where the padded
    range of the member before it ends, also across merged groups and
    across vectors.  The counter ends at a multiple of the workgroup
    size, so [genKernelDimensions] launches exactly that many threads for
    it.  This holds for a positive workgroup size and a total that stays
    within [size_t]. *)
Theorem genMergedKernelDataStructures_tables
        (args : list (GroupArgs Role)) (sizes : OpenCL.Kernel -> N) (kernel : OpenCL.Kernel) :
  sizes kernel = workgroupSize ->
  (allEnd workgroupSize 0 args + workgroupSize <= SizeT.modulus)%N ->
  writes (genMergedKernelDataStructures workgroupSize args) tt
         (allArrays workgroupSize 0 args) /\
  (forall os, genGroupStartIDs workgroupSize args (os, 0%N)
              = (inr tt, (os ++ allArrays workgroupSize 0 args, allEnd workgroupSize 0 args))) /\
  OpenCL.globalWorkSize sizes kernel (allEnd workgroupSize 0 args)
  = allEnd workgroupSize 0 args.
Proof.
  intros Hsize Hend. repeat split.
  - intros os. unfold genMergedKernelDataStructures.
    now rewrite genGroupStartIDs_run by assumption.
  - intros os. now apply genGroupStartIDs_run.
  - pose proof (allEnd_aligned args 0%N (N.Div0.mod_0_l _)) as Hal.
    apply N.Div0.div_exact in Hal.
    rewrite Hal. rewrite (N.mul_comm workgroupSize). rewrite <- Hsize.
    apply globalWorkSize_of_multiple; rewrite Hsize; [assumption|].
    rewrite (N.mul_comm _ workgroupSize), <- Hal. assumption.
Qed.

(** X9.  The start IDs that [genGroupStartIDs] writes for the members
    of one merged group give the members ranges of threads that do not
    overlap: there is one start per member, every start is a multiple of
    the workgroup size, and the threads a member needs end before the
    start of every later member and before the final [idStart].  This
    holds when the first start is a multiple of the positive workgroup
    size and the total stays within [size_t]. *)
Theorem genGroupStartIDs_members_disjoint {T} (getNumThreads : T -> N) (groups : list T)
        (os : CodeStream.t) (start : N) :
  (start mod workgroupSize = 0)%N ->
  (membersEnd workgroupSize getNumThreads start groups + workgroupSize <= SizeT.modulus)%N ->
  exists (starts : list N) (idStart' : N),
    genGroupStartIDs_members workgroupSize getNumThreads groups (os, start)
    = (inr tt, (os ++ flat_map (fun s => [Num s; Str ", "]) starts, idStart')) /\
    List.length starts = List.length groups /\
    forall k s ng,
      nth_error starts k = Some s -> nth_error groups k = Some ng ->
      (s mod workgroupSize = 0)%N /\ (start <= s)%N /\
      (s + getNumThreads ng <= idStart')%N /\
      (forall j s', (k < j)%nat -> nth_error starts j = Some s' ->
                    (s + getNumThreads ng <= s')%N).
Proof.
  intros Hs Hend.
  exists (memberStarts workgroupSize getNumThreads start groups),
         (membersEnd workgroupSize getNumThreads start groups).
  split; [now apply genGroupStartIDs_members_run|].
  now apply memberStarts_ranges.
Qed.

End StartIDFacts.

Lemma genMergedKernelDataStructures_tables_witness :
  let args := [StartIDs.mkGroupArgs OpenCL.NeuronGroupInternal
                 Inputs.neuronUpdateGroups "NeuronUpdate" OpenCL.getNumNeurons;
               StartIDs.mkGroupArgs OpenCL.NeuronGroupInternal
                 Inputs.spikeQueueGroups "NeuronSpikeQueueUpdate" (fun _ => 1%N)] in
  (0 < 32)%N /\
  Inputs.wgs32 OpenCL.KernelNeuronUpdate = 32%N /\
  (StartIDs.allEnd 32 0 args + 32 <= SizeT.modulus)%N /\
  writes (StartIDs.genMergedKernelDataStructures 32 args) tt (StartIDs.allArrays 32 0 args) /\
  (forall os, StartIDs.genGroupStartIDs 32 args (os, 0%N)
              = (inr tt, (os ++ StartIDs.allArrays 32 0 args, StartIDs.allEnd 32 0 args))) /\
  OpenCL.globalWorkSize Inputs.wgs32 OpenCL.KernelNeuronUpdate (StartIDs.allEnd 32 0 args)
  = StartIDs.allEnd 32 0 args.
Proof.
  intros args.
  assert (H1 : (0 < 32)%N) by reflexivity.
  assert (H2 : Inputs.wgs32 OpenCL.KernelNeuronUpdate = 32%N) by reflexivity.
  assert (H3 : (StartIDs.allEnd 32 0 args + 32 <= SizeT.modulus)%N) by (vm_compute; discriminate).
  split; [exact H1|]. split; [exact H2|]. split; [exact H3|].
  apply (genMergedKernelDataStructures_tables 32 H1 args Inputs.wgs32
                                              OpenCL.KernelNeuronUpdate H2 H3).
Defined.

Lemma genGroupStartIDs_members_disjoint_witness :
  let groups := [100; 250; 7]%N in
  (0 < 32)%N /\ (64 mod 32 = 0)%N /\
  (StartIDs.membersEnd 32 (fun n : N => n) 64 groups + 32 <= SizeT.modulus)%N /\
  exists (starts : list N) (idStart' : N),
    StartIDs.genGroupStartIDs_members 32 (fun n : N => n) groups ([], 64%N)
    = (inr tt, ([] ++ flat_map (fun s => [Num s; Str ", "]) starts, idStart')) /\
    List.length starts = List.length groups /\
    forall k s ng,
      nth_error starts k = Some s -> nth_error groups k = Some ng ->
      (s mod 32 = 0)%N /\ (64 <= s)%N /\
      (s + ng <= idStart')%N /\
      (forall j s', (k < j)%nat -> nth_error starts j = Some s' -> (s + ng <= s')%N).
Proof.
  intros groups.
  assert (H1 : (0 < 32)%N) by reflexivity.
  assert (H2 : (64 mod 32 = 0)%N) by reflexivity.
  assert (H3 : (StartIDs.membersEnd 32 (fun n : N => n) 64 groups + 32 <= SizeT.modulus)%N)
    by (vm_compute; discriminate).
  split; [exact H1|]. split; [exact H2|]. split; [exact H3|].
  apply (genGroupStartIDs_members_disjoint 32 H1 (fun n : N => n) groups [] 64%N H2 H3).
Defined.

(** X10.  [genKernelDimensions] declares a local work size equal to the
    workgroup size of the kernel and a global work size that covers the
    requested threads with less than one workgroup to spare: it is the
    least multiple of the workgroup size that is not below the number of
    threads.  This holds for a positive workgroup size when the number of
    threads plus the workgroup size stays within [size_t]. *)
Theorem genKernelDimensions_covers_threads
        (KernelWorkGroupSizes : OpenCL.Kernel -> N) (kernel : OpenCL.Kernel) (numThreads : N) :
  (0 < KernelWorkGroupSizes kernel)%N ->
  (numThreads + KernelWorkGroupSizes kernel <= SizeT.modulus)%N ->
  exists globalWorkSize : N,
    writes (OpenCL.genKernelDimensions KernelWorkGroupSizes kernel numThreads) tt
           [Str "const cl::NDRange globalWorkSize("; Num globalWorkSize; Str ", 1);"; Endl;
            Str "const cl::NDRange localWorkSize("; Num (KernelWorkGroupSizes kernel);
            Str ", 1);"; Endl] /\
    (numThreads <= globalWorkSize < numThreads + KernelWorkGroupSizes kernel)%N /\
    (globalWorkSize mod KernelWorkGroupSizes kernel = 0)%N.
Proof.
  intros Hpos Hfit.
  exists (OpenCL.globalWorkSize KernelWorkGroupSizes kernel numThreads). split.
  - unfold OpenCL.genKernelDimensions. eapply writes_eq; [writes_run | reflexivity].
  - assert (E : OpenCL.globalWorkSize KernelWorkGroupSizes kernel numThreads
                = StartIDs.padded (KernelWorkGroupSizes kernel) numThreads).
    { rewrite <- (padSize_padded _ Hpos) by assumption.
      unfold OpenCL.globalWorkSize, SizeT.padSize, SizeT.mul. now rewrite N.mul_comm. }
    rewrite E. apply (padded_bounds _ Hpos).
Qed.

Section StrategyPriority.
Import PresynapticUpdateStrategy.
Context {SynapseGroupInternal : Type}.
Variable getName : SynapseGroupInternal -> string.

(** X11.  A strategy registered with [addPresynapticUpdateStrategy] has
    priority over all strategies registered before it: when it is
    compatible with a synapse group it is the one selected, and its
    thread count the one reported; otherwise the selection and the thread
    count (or the error) are those of the registry before the
    registration. *)
Theorem addPresynapticUpdateStrategy_has_priority
        (r : Registry) (strategy : @Base SynapseGroupInternal) (sg : SynapseGroupInternal) :
  getPresynapticUpdateStrategy getName (addPresynapticUpdateStrategy strategy r) sg
  = (if isCompatible strategy sg then inr strategy
     else getPresynapticUpdateStrategy getName r sg) /\
  getNumPresynapticUpdateThreads getName (addPresynapticUpdateStrategy strategy r) sg
  = (if isCompatible strategy sg then inr (getNumThreads strategy sg)
     else getNumPresynapticUpdateThreads getName r sg).
Proof.
  unfold getNumPresynapticUpdateThreads, getPresynapticUpdateStrategy,
    addPresynapticUpdateStrategy.
  rewrite rev_app_distr. cbn [rev app scan].
  destruct (isCompatible strategy sg); split; reflexivity.
Qed.

End StrategyPriority.

Section ThreadFacts.
Import Synapse.
Variable SPARSE : N.

(** X12.  For neuron counts and row lengths that fit [unsigned int],
    the product in [getNumSynapseDynamicsThreads] does not wrap: the
    result is the number of presynaptic neurons times the maximum row
    length for sparse connectivity, and times the number of postsynaptic
    neurons otherwise. *)
Theorem getNumSynapseDynamicsThreads_exact (sg : SynapseGroupInternal) :
  wellTyped sg ->
  getNumSynapseDynamicsThreads SPARSE sg
  = (OpenCL.getNumNeurons (getSrcNeuronGroup sg)
     * (if hasConnectivity (getMatrixType sg) SPARSE
        then getMaxConnections sg
        else OpenCL.getNumNeurons (getTrgNeuronGroup sg)))%N.
Proof.
  intros (Hsrc & Htrg & Hmax). unfold getNumSynapseDynamicsThreads.
  unfold UINT_MAX in *.
  destruct (hasConnectivity (getMatrixType sg) SPARSE);
    unfold SizeT.mul, SizeT.wrap, SizeT.modulus; apply N.mod_small; nia.
Qed.

End ThreadFacts.

Lemma genKernelDimensions_covers_threads_witness :
  (0 < Inputs.wgs32 OpenCL.KernelInitialize)%N /\
  (100 + Inputs.wgs32 OpenCL.KernelInitialize <= SizeT.modulus)%N /\
  exists globalWorkSize : N,
    writes (OpenCL.genKernelDimensions Inputs.wgs32 OpenCL.KernelInitialize 100) tt
           [Str "const cl::NDRange globalWorkSize("; Num globalWorkSize; Str ", 1);"; Endl;
            Str "const cl::NDRange localWorkSize("; Num (Inputs.wgs32 OpenCL.KernelInitialize);
            Str ", 1);"; Endl] /\
    (100 <= globalWorkSize < 100 + Inputs.wgs32 OpenCL.KernelInitialize)%N /\
    (globalWorkSize mod Inputs.wgs32 OpenCL.KernelInitialize = 0)%N.
Proof.
  assert (H1 : (0 < Inputs.wgs32 OpenCL.KernelInitialize)%N) by reflexivity.
  assert (H2 : (100 + Inputs.wgs32 OpenCL.KernelInitialize <= SizeT.modulus)%N)
    by (vm_compute; discriminate).
  split; [exact H1|]. split; [exact H2|].
  apply (genKernelDimensions_covers_threads Inputs.wgs32 OpenCL.KernelInitialize 100 H1 H2).
Defined.

Lemma getNumSynapseDynamicsThreads_exact_witness :
  Synapse.wellTyped SynapseInputs.sparseGroup /\
  Synapse.getNumSynapseDynamicsThreads SynapseInputs.SPARSE SynapseInputs.sparseGroup
  = (100 * 20)%N.
Proof.
  assert (H : Synapse.wellTyped SynapseInputs.sparseGroup)
    by (repeat split; vm_compute; discriminate).
  split; [exact H|].
  apply (getNumSynapseDynamicsThreads_exact SynapseInputs.SPARSE SynapseInputs.sparseGroup H).
Defined.

Section VariableFacts.
Import ExtraGlobalParam HostVariables.
Variable HOST DEVICE ZERO_COPY HOST_DEVICE : VarLocation.
Variable isTypePointer : string -> bool.
Variable getUnderlyingType : string -> string.
Context {BackendBase MemAlloc : Type}.
Variable addType : string -> N -> BackendBase -> BackendBase.
Variable MemAlloc_zero : MemAlloc.
Variable getName : OpenCL.NeuronGroupInternal -> string.
Variable isVarQueueRequired : OpenCL.NeuronGroupInternal -> string -> bool.
Variable getSpikeLocation : OpenCL.NeuronGroupInternal -> VarLocation.

(** X13.  After [addDeviceType(type, size)], [isDeviceType] accepts the
    types it accepted before and, in addition, [type] itself and the
    pointer types whose underlying type is [type]; nothing else. *)
Theorem addDeviceType_isDeviceType (b : @Backend BackendBase) (type type' : string) (size : N) :
  isDeviceType isTypePointer getUnderlyingType (addDeviceType addType type size b) type'
  = isDeviceType isTypePointer getUnderlyingType b type'
    || String.eqb (if isTypePointer type' then getUnderlyingType type' else type') type.
Proof.
  unfold isDeviceType, addDeviceType. cbn [m_DeviceTypes].
  set (u := if isTypePointer type' then getUnderlyingType type' else type').
  destruct (String.eqb_spec u type) as [->|Hne].
  - rewrite orb_true_r. apply bool_decide_eq_true.
    apply elem_of_union. left. now apply elem_of_singleton.
  - rewrite orb_false_r. apply bool_decide_ext.
    rewrite elem_of_union, elem_of_singleton. tauto.
Qed.

(** X14.  [genVariableDefinition] throws for a variable of a
    device-only type that is located on the host, and has written nothing
    by then; in every other case it returns, and writes to no stream but
    the two it was handed. *)
Theorem genVariableDefinition_device_only_type
        (b : @Backend BackendBase) (definitions definitionsInternal : Stream)
        (type name : string) (loc : VarLocation) (streams : Streams) :
  let run := genVariableDefinition HOST DEVICE isTypePointer getUnderlyingType b
                                   definitions definitionsInternal type name loc streams in
  if hasFlag loc HOST && isDeviceType isTypePointer getUnderlyingType b type
  then run = (inl (runtime_error ("Variable '" +:+ name +:+ "' is of device-only type '"
                                    +:+ type +:+ "' but is located on the host")),
              streams)
  else fst run = inr tt /\
       forall s, Stream_eqb definitions s = false ->
                 Stream_eqb definitionsInternal s = false ->
                 snd run s = streams s.
Proof.
  unfold genVariableDefinition, bind, onStore, emit, ret, throw. cbn.
  destruct (hasFlag loc HOST), (isDeviceType isTypePointer getUnderlyingType b type),
    (hasFlag loc DEVICE); cbn; try reflexivity;
    (split; [reflexivity|]); intros s H1 H2; now rewrite ?H1, ?H2.
Qed.


(** X15.  [genVariablePush] and [genVariablePull] mirror each other:
    for a variable that is not zero-copy the pull is one blocking
    [enqueueReadBuffer] of [count * sizeof(type)] bytes from [d_<name>]
    into [name], and the push is the [enqueueWriteBuffer] with the same
    arguments, guarded by [if(!uninitialisedOnly)] when the variable is
    initialised automatically; for a zero-copy variable neither writes
    anything. *)
Theorem genVariablePush_genVariablePull_mirror
        (type name : string) (loc : VarLocation) (autoInitialized : bool) (count : N) :
  exists push pull : list tok,
    writes (genVariablePush ZERO_COPY type name loc autoInitialized count) tt push /\
    writes (genVariablePull ZERO_COPY type name loc count) tt pull /\
    if hasFlag loc ZERO_COPY then push = [] /\ pull = []
    else
      CodeStream.same_text pull (transfer "Read" name (elements count type)) /\
      CodeStream.same_text push
        (if autoInitialized
         then [Str "if(!uninitialisedOnly)"; OB 1101]
                ++ transfer "Write" name (elements count type) ++ [CB 1101]
         else transfer "Write" name (elements count type)).
Proof.
  unfold genVariablePush, genVariablePull.
  destruct (hasFlag loc ZERO_COPY); cbn [negb].
  - exists [], []. repeat split; apply writes_ret.
  - eexists. eexists. split; [writes_run|]. split; [writes_run|]. split.
    + unfold CodeStream.same_text, transfer, elements. reflexivity.
    + destruct autoInitialized;
        unfold CodeStream.same_text, transfer, elements; reflexivity.
Qed.

(** X16.  The push and the pull of the current value of a variable
    ignore the delay queue: whether or not the variable is queued and the
    population delayed, the code emitted is the transfer of
    [getNumNeurons() * sizeof(type)] bytes from the start of
    [<name><population>]; nothing is emitted for a zero-copy variable. *)
Theorem genCurrentVariablePush_whole_population
        (ng : OpenCL.NeuronGroupInternal) (type name : string) (loc : VarLocation) :
  exists push pull : list tok,
    writes (genCurrentVariablePush ZERO_COPY getName isVarQueueRequired ng type name loc)
           tt push /\
    writes (genCurrentVariablePull ZERO_COPY getName isVarQueueRequired ng type name loc)
           tt pull /\
    if hasFlag loc ZERO_COPY then push = [] /\ pull = []
    else
      CodeStream.same_text push
        (transfer "Write" (name +:+ getName ng) (elements (OpenCL.getNumNeurons ng) type)) /\
      CodeStream.same_text pull
        (transfer "Read" (name +:+ getName ng) (elements (OpenCL.getNumNeurons ng) type)).
Proof.
  unfold genCurrentVariablePush, genCurrentVariablePull, genVariablePush, genVariablePull.
  destruct (hasFlag loc ZERO_COPY); cbn [negb andb].
  - rewrite andb_false_r. exists [], []. repeat split; apply writes_ret.
  - rewrite andb_true_r.
    destruct (isVarQueueRequired ng name && OpenCL.isDelayRequired ng);
      (eexists; eexists; split; [writes_run|]; split; [writes_run|];
       split; unfold CodeStream.same_text, transfer, elements; reflexivity).
Qed.

(** X17.  [genCurrentSpikePush] and [genCurrentSpikePull] emit the same
    two transfers in opposite directions: the first spike count, and then
    the spikes from the start of the buffer.  As many spikes are copied
    as the population has neurons exactly when the kernel indexes the
    spike count with the queue pointer (delay is required and, for true
    spikes, true spikes are required); otherwise as many spikes as the
    first count says.  Nothing is emitted for zero-copy spikes. *)
Theorem genCurrentSpikePush_genCurrentSpikePull_mirror
        (ng : OpenCL.NeuronGroupInternal) (spikeEvent : bool) :
  let suffix := if spikeEvent then "Evnt" else "" in
  let allNeurons :=
    if spikeEvent then OpenCL.isDelayRequired ng
    else OpenCL.isTrueSpikeRequired ng && OpenCL.isDelayRequired ng in
  exists push pull : list tok,
    writes (genCurrentSpikePush ZERO_COPY getName getSpikeLocation ng spikeEvent) tt push /\
    writes (genCurrentSpikePull ZERO_COPY getName getSpikeLocation ng spikeEvent) tt pull /\
    (if hasFlag (getSpikeLocation ng) ZERO_COPY then push = [] /\ pull = []
     else
       CodeStream.same_text push (spikeTransfers getName "Write" ng suffix allNeurons) /\
       CodeStream.same_text pull (spikeTransfers getName "Read" ng suffix allNeurons)) /\
    (allNeurons = true <->
     (if spikeEvent then Emitted.eventIndex ng else Emitted.spikeIndex ng)
     = "*group->spkQuePtr").
Proof.
  cbv zeta. unfold genCurrentSpikePush, genCurrentSpikePull.
  assert (Hindex :
            (if spikeEvent then OpenCL.isDelayRequired ng
             else OpenCL.isTrueSpikeRequired ng && OpenCL.isDelayRequired ng) = true <->
            (if spikeEvent then Emitted.eventIndex ng else Emitted.spikeIndex ng)
            = "*group->spkQuePtr").
  { unfold Emitted.eventIndex, Emitted.spikeIndex.
    destruct spikeEvent, (OpenCL.isDelayRequired ng), (OpenCL.isTrueSpikeRequired ng);
      cbn; split; (reflexivity || discriminate). }
  destruct (hasFlag (getSpikeLocation ng) ZERO_COPY); cbn [negb].
  - exists [], []. repeat split; try apply writes_ret; apply Hindex.
  - destruct spikeEvent, (OpenCL.isDelayRequired ng), (OpenCL.isTrueSpikeRequired ng);
      cbn [andb];
      (eexists; eexists; split; [writes_run|]; split; [writes_run|]; split;
       [split; unfold CodeStream.same_text, spikeTransfers, transfer; reflexivity
       | exact Hindex]).
Qed.

(** X18.  [genPopulationRNG] hands [definitionsInternal] to
    [genVariableDefinition] for both of its streams: when
    [VarLocation::HOST_DEVICE] has the host and the device flag, both
    declarations of the generator land in [definitionsInternal] and the
    stream [definitions] stays as it was; the implementation goes to
    [runner], the release to [free] and the creation of the streams and
    of the buffer to [allocations].  If the stream type had been
    registered as a device type, the function would throw before writing
    anything. *)
Theorem genPopulationRNG_streams (b : @Backend BackendBase) (name : string) (count : N)
        (streams : Streams) :
  hasFlag HOST_DEVICE HOST = true ->
  hasFlag HOST_DEVICE DEVICE = true ->
  let run := genPopulationRNG HOST DEVICE HOST_DEVICE isTypePointer getUnderlyingType
                              MemAlloc_zero b
                              definitions definitionsInternal runner allocations free
                              name count streams in
  if isDeviceType isTypePointer getUnderlyingType b "clrngLfsr113Stream*"
  then run = (inl (runtime_error
                     ("Variable '" +:+ name
                        +:+ "' is of device-only type 'clrngLfsr113Stream*' but is located on the host")),
              streams)
  else
    fst run = inr MemAlloc_zero /\
    snd run definitions = streams definitions /\
    snd run definitionsInternal
    = streams definitionsInternal
        ++ [Str "EXPORT_VAR "; Str "clrngLfsr113Stream*"; Str " "; Str name; Str ";"; Endl]
        ++ [Str "EXPORT_VAR cl::Buffer d_"; Str name; Str ";"; Endl] /\
    snd run runner
    = streams runner
        ++ [Str "clrngLfsr113Stream*"; Str " "; Str name; Str ";"; Endl]
        ++ [Str "cl::Buffer d_"; Str name; Str ";"; Endl] /\
    snd run free = streams free ++ [Str "delete[] "; Str name; Str ";"; Endl] /\
    snd run allocations
    = streams allocations
        ++ [Str name; Str " = clrngLfsr113CreateStreams(NULL, "; Num count;
            Str ", &"; Str name; Str "Count, NULL);"; Endl]
        ++ [Str "d_"; Str name;
            Str " = cl::Buffer(clContext, CL_MEM_READ_WRITE | CL_MEM_COPY_HOST_PTR, ";
            Num count; Str ", "; Str name; Str ");"; Endl].
Proof.
  intros Hhost Hdevice.
  unfold genPopulationRNG, genVariableDefinition, genVariableImplementation, genVariableFree.
  rewrite Hhost, Hdevice.
  destruct (isDeviceType isTypePointer getUnderlyingType b "clrngLfsr113Stream*").
  - reflexivity.
  - unfold bind, onStore, emit, ret. cbn.
    rewrite <- ?app_assoc. repeat split; reflexivity.
Qed.

End VariableFacts.

Lemma genPopulationRNG_streams_witness :
  let HOST := 1%N in
  let DEVICE := 2%N in
  let HOST_DEVICE := 3%N in
  let isTypePointer := fun type : string => String.eqb type "clrngLfsr113Stream*" in
  let getUnderlyingType := fun _ : string => "clrngLfsr113Stream" in
  let b := HostVariables.mkBackend tt {[ "scalar" ]} in
  let streams := fun _ : HostVariables.Stream => @nil tok in
  ExtraGlobalParam.hasFlag HOST_DEVICE HOST = true /\
  ExtraGlobalParam.hasFlag HOST_DEVICE DEVICE = true /\
  let run := HostVariables.genPopulationRNG HOST DEVICE HOST_DEVICE isTypePointer
               getUnderlyingType tt b
               HostVariables.definitions HostVariables.definitionsInternal
               HostVariables.runner HostVariables.allocations HostVariables.free
               "rngpop" 100 streams in
  if HostVariables.isDeviceType isTypePointer getUnderlyingType b "clrngLfsr113Stream*"
  then run = (inl (runtime_error
                     ("Variable '" +:+ "rngpop"
                        +:+ "' is of device-only type 'clrngLfsr113Stream*' but is located on the host")),
              streams)
  else
    fst run = inr tt /\
    snd run HostVariables.definitions = streams HostVariables.definitions /\
    snd run HostVariables.definitionsInternal
    = streams HostVariables.definitionsInternal
        ++ [Str "EXPORT_VAR "; Str "clrngLfsr113Stream*"; Str " "; Str "rngpop"; Str ";"; Endl]
        ++ [Str "EXPORT_VAR cl::Buffer d_"; Str "rngpop"; Str ";"; Endl] /\
    snd run HostVariables.runner
    = streams HostVariables.runner
        ++ [Str "clrngLfsr113Stream*"; Str " "; Str "rngpop"; Str ";"; Endl]
        ++ [Str "cl::Buffer d_"; Str "rngpop"; Str ";"; Endl] /\
    snd run HostVariables.free
    = streams HostVariables.free ++ [Str "delete[] "; Str "rngpop"; Str ";"; Endl] /\
    snd run HostVariables.allocations
    = streams HostVariables.allocations
        ++ [Str "rngpop"; Str " = clrngLfsr113CreateStreams(NULL, "; Num 100;
            Str ", &"; Str "rngpop"; Str "Count, NULL);"; Endl]
        ++ [Str "d_"; Str "rngpop";
            Str " = cl::Buffer(clContext, CL_MEM_READ_WRITE | CL_MEM_COPY_HOST_PTR, ";
            Num 100; Str ", "; Str "rngpop"; Str ");"; Endl].
Proof.
  intros HOST DEVICE HOST_DEVICE isTypePointer getUnderlyingType b streams.
  assert (H1 : ExtraGlobalParam.hasFlag HOST_DEVICE HOST = true) by reflexivity.
  assert (H2 : ExtraGlobalParam.hasFlag HOST_DEVICE DEVICE = true) by reflexivity.
  split; [exact H1|]. split; [exact H2|].
  apply (genPopulationRNG_streams HOST DEVICE HOST_DEVICE isTypePointer getUnderlyingType
                                  tt b "rngpop" 100 streams H1 H2).
Defined.

Section InitFacts.
Import Merge OpenCL Emitted Synapse Init.
Variable wgs : Kernel -> N.
Variable SPARSE : N.
Variable BITMASK : N.

Lemma pointers_with_commas_app (a b : list KernelParam) :
  concat (map (fun p => declaration "" p ++ [Str ", "]) (a ++ b))
  = concat (map (fun p => declaration "" p ++ [Str ", "]) a)
      ++ concat (map (fun p => declaration "" p ++ [Str ", "]) b).
Proof. now rewrite map_app, concat_app. Qed.

Lemma params_then_last (pointers : list KernelParam) (last : list tok) :
  CodeStream.same_text
    (concat (map (fun p => declaration "" p ++ [Str ", "]) pointers) ++ last)
    (commaSeparated (map (declaration "") pointers ++ [last])).
Proof.
  unfold CodeStream.same_text.
  induction pointers as [|p pointers IH].
  - reflexivity.
  - cbn [map concat app]. rewrite commaSeparated_cons.
    + rewrite <- !app_assoc. rewrite !flat_app. f_equal. f_equal.
      rewrite <- flat_app. exact IH.
    + destruct pointers; discriminate.
Qed.

Lemma genInitialize_fills_writes (synapseGroups : list (string * SynapseGroupInternal)) :
  exists out, writes (genInitialize_fills SPARSE BITMASK synapseGroups) tt out.
Proof.
  induction synapseGroups as [|[name s] rest (out & IH)].
  - exists []. apply writes_ret.
  - cbn [genInitialize_fills].
    destruct (isSparseConnectivityInitRequired s && hasConnectivity (getMatrixType s) BITMASK);
      [|destruct (hasConnectivity (getMatrixType s) SPARSE
                  && negb (string_empty (getLearnPostCode s)))];
      eexists; writes_run.
Qed.

(** X19.  The parameters of the initialisation kernel and the host
    arguments set for it.  The signature emitted for [initializeKernel]
    lists the pointers to the merged neuron-initialisation,
    dense-initialisation and connectivity-initialisation groups, in this
    order, and the seed as last parameter.  When there are initialisation
    threads, the emitted host code sets the seed at the position that is
    the number of all these groups, which is the position of the seed in
    the signature, and configures the pointers of each of the three kinds
    at the positions counted from 0 for that kind.  This holds when the
    number of groups stays within [size_t]. *)
Theorem initialize_kernel_arguments
        (neuronInitGroups : list NeuronGroupMerged)
        (denseInitGroups connectivityInitGroups sparseInitGroups : list SynapseGroupMerged)
        (synapseGroups : list (string * SynapseGroupInternal))
        (idInitStart idSparseInitStart : N) :
  let n := List.length neuronInitGroups in
  let d := List.length denseInitGroups in
  let c := List.length connectivityInitGroups in
  (0 < idInitStart)%N ->
  (N.of_nat (n + d + c) < SizeT.modulus)%N ->
  exists sig cfg launch pointerArgs : list tok,
    writes (genInitializeKernelSignature neuronInitGroups denseInitGroups
                                         connectivityInitGroups) tt sig /\
    writes (genInit_configureKernels neuronInitGroups denseInitGroups
                                     connectivityInitGroups sparseInitGroups
                                     idInitStart idSparseInitStart) tt cfg /\
    writes (genInitialize wgs SPARSE BITMASK neuronInitGroups denseInitGroups
                          connectivityInitGroups synapseGroups idInitStart) tt launch /\
    CodeStream.same_text sig (initializeKernelSignature n d c) /\
    occursIn pointerArgs cfg /\
    CodeStream.same_text pointerArgs (initPointerArguments n d c) /\
    occursIn (setSeedArgument (N.of_nat (n + d + c))) launch.
Proof.
  intros n d c Hstart Hfit.
  destruct (setMergedGroupKernelParams_text KernelInitialize neuronInitGroups "NeuronInit")
    as (a1 & Ha1 & Ht1).
  destruct (setMergedGroupKernelParams_text KernelInitialize denseInitGroups "SynapseDenseInit")
    as (a2 & Ha2 & Ht2).
  destruct (setMergedGroupKernelParams_text KernelInitialize connectivityInitGroups
                                            "SynapseConnectivityInit")
    as (a3 & Ha3 & Ht3).
  destruct (setMergedGroupKernelParams_text KernelInitializeSparse sparseInitGroups
                                            "SynapseSparseInit") as (a4 & Ha4 & _).
  destruct (genInitialize_fills_writes synapseGroups) as (fills & Hfills).
  pose proof (genKernelDimensions_writes wgs KernelInitialize idInitStart) as Hdim.
  pose proof (kernelParams_with_final_comma "" "NeuronInit" (size neuronInitGroups) n 0%N)
    as Hp1.
  pose proof (kernelParams_with_final_comma "" "SynapseDenseInit" (size denseInitGroups) d 0%N)
    as Hp2.
  pose proof (kernelParams_with_final_comma "" "SynapseConnectivityInit"
                                            (size connectivityInitGroups) c 0%N) as Hp3.
  apply N.ltb_lt in Hstart.
  eexists. eexists. eexists. exists (a1 ++ a2 ++ a3).
  split; [|split; [|split; [|split; [|split; [|split]]]]].
  - unfold genInitializeKernelSignature, genMergedGroupKernelParams. writes_run.
  - unfold genInit_configureKernels. rewrite Hstart. writes_run.
  - unfold genInitialize. rewrite Hstart. writes_run.
  - unfold initializeKernelSignature, initPointers. cbn [KernelNames].
    apply same_text_app; [reflexivity|].
    match goal with
    | |- CodeStream.same_text (?A ++ ?B ++ ?C ++ ?S ++ ?P) _ =>
        replace (A ++ B ++ C ++ S ++ P)
          with ((concat (map (fun p => declaration "" p ++ [Str ", "])
                             (mergedGroupPointers "NeuronInit" 0 n
                                ++ mergedGroupPointers "SynapseDenseInit" 0 d
                                ++ mergedGroupPointers "SynapseConnectivityInit" 0 c))
                   ++ S) ++ P)
          by (rewrite !pointers_with_commas_app, <- !app_assoc; reflexivity)
    end.
    apply same_text_app; [apply params_then_last | reflexivity].
  - exists ([Str "// Configure initialization kernel"; Endl]
              ++ [Str (KernelNames KernelInitialize);
                  Str (" = cl::Kernel(initializeProgram, " +:+ KernelSource.dquote);
                  Str (KernelNames KernelInitialize);
                  Str (KernelSource.dquote +:+ ");"); Endl]).
    eexists. rewrite <- !app_assoc. reflexivity.
  - unfold initPointerArguments.
    apply same_text_app; [exact Ht1|]. apply same_text_app; [exact Ht2 | exact Ht3].
  - unfold setSeedArgument. cbn [KernelNames].
    replace (SizeT.add (SizeT.add (size neuronInitGroups) (size denseInitGroups))
                       (size connectivityInitGroups))
      with (N.of_nat (n + d + c)).
    + find_block.
    + unfold SizeT.add, SizeT.wrap, size. fold n d c.
      rewrite (N.mod_small (N.of_nat n + N.of_nat d)) by lia.
      rewrite N.mod_small by lia. lia.
Qed.


(** X20.  The parameters of the sparse initialisation kernel and their
    host arguments agree.  The signature emitted for
    [initializeSparseKernel] lists one pointer per merged
    sparse-initialisation group, separated by commas and without a
    trailing comma; when there are sparse initialisation threads, the
    host code sets the pointer of the group with index [i] at the
    position [i], and [initializeSparse] copies the state and the
    connectivity to the device, declares the work sizes and launches the
    kernel, in this order. *)
Theorem initializeSparse_kernel_arguments
        (sparseInitGroups : list SynapseGroupMerged)
        (neuronInitGroups : list NeuronGroupMerged)
        (denseInitGroups connectivityInitGroups : list SynapseGroupMerged)
        (idInitStart idSparseInitStart : N) :
  let params := mergedGroupPointers "SynapseSparseInit" 0 (List.length sparseInitGroups) in
  (0 < idSparseInitStart)%N ->
  (size sparseInitGroups < SizeT.modulus)%N ->
  exists sig cfg launch pointerArgs : list tok,
    writes (genInitializeSparseKernelSignature sparseInitGroups) tt sig /\
    writes (genInit_configureKernels neuronInitGroups denseInitGroups
                                     connectivityInitGroups sparseInitGroups
                                     idInitStart idSparseInitStart) tt cfg /\
    writes (genInitializeSparse wgs idSparseInitStart) tt launch /\
    sig = [Str "__kernel void "; Str "initializeSparseKernel"; Str "("]
            ++ commaSeparated (map (declaration "") params) ++ [Str ")"] /\
    occursIn pointerArgs cfg /\
    CodeStream.same_text pointerArgs (setArgs KernelInitializeSparse 0 params) /\
    exists globalSize : N,
      launch
      = [Str "void initializeSparse()"; ScopeB;
         Str "copyStateToDevice(true);"; Endl;
         Str "copyConnectivityToDevice(true);"; Endl; ScopeB]
          ++ workSizes (globalSize, wgs KernelInitializeSparse)
          ++ enqueueNDRangeKernel "initializeSparseKernel"
          ++ [ScopeE; ScopeE].
Proof.
  intros params Hstart Hfit.
  destruct (setMergedGroupKernelParams_text KernelInitialize neuronInitGroups "NeuronInit")
    as (a1 & Ha1 & _).
  destruct (setMergedGroupKernelParams_text KernelInitialize denseInitGroups "SynapseDenseInit")
    as (a2 & Ha2 & _).
  destruct (setMergedGroupKernelParams_text KernelInitialize connectivityInitGroups
                                            "SynapseConnectivityInit")
    as (a3 & Ha3 & _).
  destruct (setMergedGroupKernelParams_text KernelInitializeSparse sparseInitGroups
                                            "SynapseSparseInit") as (a4 & Ha4 & Ht4).
  pose proof (genKernelDimensions_writes wgs KernelInitializeSparse idSparseInitStart) as Hdim.
  pose proof (kernelParams_without_final_comma
                "" "SynapseSparseInit" (size sparseInitGroups) Hfit
                (List.length sparseInitGroups) 0%N ltac:(unfold size; lia)) as Hp.
  apply N.ltb_lt in Hstart.
  eexists. eexists. eexists. exists a4.
  split; [|split; [|split; [|split; [|split; [|split]]]]].
  - unfold genInitializeSparseKernelSignature, genMergedGroupKernelParams. writes_run.
  - unfold genInit_configureKernels. rewrite Hstart. writes_run.
  - unfold genInitializeSparse. rewrite Hstart. writes_run.
  - reflexivity.
  - apply occursIn_skip. find_block.
  - exact Ht4.
  - exists (globalWorkSize wgs KernelInitializeSparse idSparseInitStart).
    rewrite <- ?app_assoc. reflexivity.
Qed.

Lemma high_bits_zero (x : N) :
  (x < 2 ^ 64)%N ->
  (N.land x 0xFFFFFFFF00000000 = 0)%N <-> (x < 2 ^ 32)%N.
Proof.
  intros Hx.
  assert (E : N.land x 0xFFFFFFFF00000000 = N.shiftl (N.shiftr x 32) 32).
  { apply N.bits_inj. intros i.
    rewrite N.land_spec.
    change 0xFFFFFFFF00000000%N with (N.shiftl (N.ones 32) 32).
    destruct (N.lt_ge_cases i 32) as [Hi|Hi].
    - rewrite !N.shiftl_spec_low by assumption. apply andb_false_r.
    - rewrite !N.shiftl_spec_high' by assumption.
      rewrite N.shiftr_spec'. replace (i - 32 + 32)%N with i by lia.
      destruct (N.lt_ge_cases (i - 32) 32) as [Hlo|Hhi].
      + rewrite N.ones_spec_low by assumption. apply andb_true_r.
      + rewrite N.ones_spec_high by assumption. rewrite andb_false_r.
        symmetry. rewrite <- (N.mod_small x (2 ^ 64)) by assumption.
        apply N.mod_pow2_bits_high. lia. }
  rewrite E, N.shiftl_mul_pow2, N.shiftr_div_pow2. split.
  - intros H. apply N.eq_mul_0_l in H; [|discriminate].
    apply N.div_small_iff in H; [assumption | discriminate].
  - intros H. now rewrite N.div_small.
Qed.

Lemma maxSynapses_spec (groups : list SynapseGroupInternal) :
  Forall wellTyped groups ->
  forall acc,
    (acc < 2 ^ 64)%N ->
    let m := fold_left (fun maxSynapses s =>
                          N.max maxSynapses
                                (SizeT.mul (getNumNeurons (getTrgNeuronGroup s))
                                           (getNumNeurons (getSrcNeuronGroup s))))
                       groups acc in
    (m < 2 ^ 64)%N /\
    ((2 ^ 32 <= m)%N <->
     (2 ^ 32 <= acc)%N \/
     Exists (fun s => 2 ^ 32 <= getNumNeurons (getSrcNeuronGroup s)
                               * getNumNeurons (getTrgNeuronGroup s))%N groups).
Proof.
  induction 1 as [|s groups (Hsrc & Htrg & _) _ IH]; intros acc Hacc; cbn [fold_left].
  - split; [assumption|]. split; [now left|]. intros [H|H]; [assumption | inversion H].
  - assert (Hmul : SizeT.mul (getNumNeurons (getTrgNeuronGroup s))
                             (getNumNeurons (getSrcNeuronGroup s))
                   = (getNumNeurons (getSrcNeuronGroup s)
                      * getNumNeurons (getTrgNeuronGroup s))%N).
    { unfold SizeT.mul, SizeT.wrap, SizeT.modulus, UINT_MAX in *.
      rewrite N.mod_small by nia. apply N.mul_comm. }
    rewrite Hmul.
    assert (Hprod : (getNumNeurons (getSrcNeuronGroup s)
                     * getNumNeurons (getTrgNeuronGroup s) < 2 ^ 64)%N)
      by (unfold UINT_MAX in *; nia).
    destruct (IH (N.max acc (getNumNeurons (getSrcNeuronGroup s)
                             * getNumNeurons (getTrgNeuronGroup s)))%N
                 ltac:(lia)) as (Hlt & Hiff).
    split; [exact Hlt|]. cbv zeta in Hiff. rewrite Hiff. split.
    + intros [H|H]; [|right; now constructor 2].
      destruct (N.max_spec acc (getNumNeurons (getSrcNeuronGroup s)
                                * getNumNeurons (getTrgNeuronGroup s))) as [[_ E]|[_ E]];
        rewrite E in H; [right; now constructor 1 | now left].
    + intros [H|H]; [left; lia|]. inversion H; subst; [left; lia | now right].
Qed.

(** X21.  The row start [rowStartGID] of a bitmask is declared as
    [ulong] exactly when some member of the merged group has at least
    2^32 potential synapses (presynaptic times postsynaptic neurons), and
    as [unsigned int] otherwise; this holds for neuron counts that fit
    [unsigned int], for which the products do not wrap. *)
Theorem genRowStartGID_wide_when_needed
        (groups : list SynapseGroupInternal) (popSubs : Substitutions.t) (id : string) :
  Forall wellTyped groups ->
  Substitutions.get "id" popSubs = inr id ->
  exists type : string,
    writes (genRowStartGID groups popSubs) tt
           [Str "// Calculate indices"; Endl;
            Str type; Str id; Str " * group->trgNumNeurons;"; Endl] /\
    (type = "const ulong rowStartGID = " \/ type = "const unsigned int rowStartGID = ") /\
    (type = "const ulong rowStartGID = " <->
     Exists (fun s => 2 ^ 32 <= getNumNeurons (getSrcNeuronGroup s)
                               * getNumNeurons (getTrgNeuronGroup s))%N groups).
Proof.
  intros Hwt Hid.
  destruct (maxSynapses_spec groups Hwt 0%N ltac:(lia)) as (Hlt & Hiff).
  cbv zeta in Hlt, Hiff. fold (maxSynapses groups) in Hlt, Hiff.
  pose proof (high_bits_zero (maxSynapses groups) Hlt) as Hbits.
  unfold genRowStartGID. rewrite Hid.
  destruct (N.land (maxSynapses groups) 0xFFFFFFFF00000000 =? 0)%N eqn:E; cbn [negb].
  - exists "const unsigned int rowStartGID = ". split; [|split].
    + eapply writes_eq; [writes_run | reflexivity].
    + now right.
    + split; [discriminate|]. intros Hex.
      apply N.eqb_eq in E. apply Hbits in E.
      assert (2 ^ 32 <= maxSynapses groups)%N by (apply Hiff; now right). lia.
  - exists "const ulong rowStartGID = ". split; [|split].
    + eapply writes_eq; [writes_run | reflexivity].
    + now left.
    + split; [|reflexivity]. intros _.
      apply N.eqb_neq in E.
      assert (Hge : (2 ^ 32 <= maxSynapses groups)%N).
      { apply N.le_ngt. intros Hlt32. apply E. now apply Hbits. }
      apply Hiff in Hge as [H|H]; [lia | exact H].
Qed.

Lemma gpSize_exact (s : SynapseGroupInternal) :
  wellTyped s ->
  gpSize s = (getNumNeurons (getSrcNeuronGroup s) * getNumNeurons (getTrgNeuronGroup s) / 32
              + 1)%N.
Proof.
  intros (Hsrc & Htrg & _). unfold gpSize, SizeT.add, SizeT.mul, SizeT.wrap, SizeT.modulus.
  unfold UINT_MAX in *.
  assert (Hprod : (getNumNeurons (getSrcNeuronGroup s)
                   * getNumNeurons (getTrgNeuronGroup s) < 2 ^ 64)%N) by nia.
  rewrite (N.mod_small _ _ Hprod).
  apply N.mod_small.
  pose proof (N.Div0.div_le_upper_bound
                (getNumNeurons (getSrcNeuronGroup s) * getNumNeurons (getTrgNeuronGroup s))
                32 (2 ^ 59)%N) as Hd.
  assert (getNumNeurons (getSrcNeuronGroup s) * getNumNeurons (getTrgNeuronGroup s) / 32
          <= 2 ^ 59)%N by (apply N.Div0.div_le_upper_bound; lia).
  lia.
Qed.

(** X22.  For every synapse group with bitmask connectivity that is
    initialised on the device, [initialize] clears the whole bitmask: it
    emits a fill of [d_gp<name>] with zeros whose number of 32-bit words
    exceeds the word index of the bit of every pair of a presynaptic and a
    postsynaptic neuron.  This holds for neuron counts that fit
    [unsigned int]. *)
Theorem genInitialize_clears_whole_bitmask
        (synapseGroups : list (string * SynapseGroupInternal)) :
  Forall (fun g => wellTyped (snd g)) synapseGroups ->
  exists out : list tok,
    writes (genInitialize_fills SPARSE BITMASK synapseGroups) tt out /\
    forall name s,
      In (name, s) synapseGroups ->
      isSparseConnectivityInitRequired s = true ->
      hasConnectivity (getMatrixType s) BITMASK = true ->
      exists words : N,
        occursIn (clearBitmask name words) out /\
        forall pre post,
          (pre < getNumNeurons (getSrcNeuronGroup s))%N ->
          (post < getNumNeurons (getTrgNeuronGroup s))%N ->
          ((pre * getNumNeurons (getTrgNeuronGroup s) + post) / 32 < words)%N.
Proof.
  induction 1 as [|[name0 s0] rest Hwt _ (out & Hout & IH)].
  - exists []. split; [apply writes_ret|]. intros name s [].
  - cbn [snd] in Hwt. cbn [genInitialize_fills].
    destruct (isSparseConnectivityInitRequired s0
              && hasConnectivity (getMatrixType s0) BITMASK) eqn:Ebit.
    + eexists. split; [writes_run|].
      intros name s [[= <- <-]|Hin] Hreq Hmask.
      * exists (gpSize s0). split; [apply occursIn_here|].
        intros pre post Hpre Hpost. rewrite (gpSize_exact s0 Hwt).
        assert (pre * getNumNeurons (getTrgNeuronGroup s0) + post
                < getNumNeurons (getSrcNeuronGroup s0) * getNumNeurons (getTrgNeuronGroup s0))%N
          by nia.
        assert ((pre * getNumNeurons (getTrgNeuronGroup s0) + post) / 32
                <= getNumNeurons (getSrcNeuronGroup s0) * getNumNeurons (getTrgNeuronGroup s0) / 32)%N
          by (apply N.Div0.div_le_mono; lia).
        lia.
      * destruct (IH name s Hin Hreq Hmask) as (words & Hocc & Hcover).
        exists words. split; [|exact Hcover]. now apply occursIn_skip.
    + destruct (hasConnectivity (getMatrixType s0) SPARSE
                && negb (string_empty (getLearnPostCode s0))).
      * eexists. split; [writes_run|].
        intros name s [[= <- <-]|Hin] Hreq Hmask.
        -- rewrite Hreq, Hmask in Ebit. discriminate.
        -- destruct (IH name s Hin Hreq Hmask) as (words & Hocc & Hcover).
           exists words. split; [|exact Hcover]. now apply occursIn_skip.
      * exists out. split; [eapply writes_eq; [writes_run | reflexivity]|].
        intros name s [[= <- <-]|Hin] Hreq Hmask.
        -- rewrite Hreq, Hmask in Ebit. discriminate.
        -- now apply IH.
Qed.

(** X23.  The handler of the connectivity-initialisation groups fails
    on its assertion for a merged group whose archetype has neither
    bitmask nor sparse connectivity: the handler of the caller is not
    run. *)
Theorem connectivityInitHandler_needs_bitmask_or_sparse
        (sgSparseConnectHandler : SynapseGroupMerged -> Substitutions.t -> Gen Substitutions.t)
        (sg : SynapseGroupMerged) (archetype : SynapseGroupInternal)
        (popSubs : Substitutions.t) (id : string) (os : CodeStream.t) :
  getArchetype sg = inr archetype ->
  Substitutions.get "id" popSubs = inr id ->
  hasConnectivity (getMatrixType archetype) BITMASK = false ->
  hasConnectivity (getMatrixType archetype) SPARSE = false ->
  fst (connectivityInitHandler SPARSE BITMASK sgSparseConnectHandler sg popSubs os)
  = inl assertion_failed.
Proof.
  intros Harch Hid Hbit Hsparse.
  unfold connectivityInitHandler, bind, emit, lift, Scope, throw.
  rewrite Hid, Harch, Hbit, Hsparse. reflexivity.
Qed.

End InitFacts.

Lemma initialize_kernel_arguments_witness :
  let n := List.length Inputs.neuronUpdateGroups in
  let d := List.length InitInputs.denseInitGroups in
  let c := List.length InitInputs.connectivityInitGroups in
  (0 < 384)%N /\
  (N.of_nat (n + d + c) < SizeT.modulus)%N /\
  exists sig cfg launch pointerArgs : list tok,
    writes (Init.genInitializeKernelSignature Inputs.neuronUpdateGroups
              InitInputs.denseInitGroups InitInputs.connectivityInitGroups) tt sig /\
    writes (Init.genInit_configureKernels Inputs.neuronUpdateGroups
              InitInputs.denseInitGroups InitInputs.connectivityInitGroups
              InitInputs.sparseInitGroups 384 128) tt cfg /\
    writes (Init.genInitialize Inputs.wgs32 SynapseInputs.SPARSE SynapseInputs.BITMASK
              Inputs.neuronUpdateGroups InitInputs.denseInitGroups
              InitInputs.connectivityInitGroups InitInputs.synapseGroups 384) tt launch /\
    CodeStream.same_text sig (Init.initializeKernelSignature n d c) /\
    Emitted.occursIn pointerArgs cfg /\
    CodeStream.same_text pointerArgs (Init.initPointerArguments n d c) /\
    Emitted.occursIn (Init.setSeedArgument (N.of_nat (n + d + c))) launch.
Proof.
  intros n d c.
  assert (H1 : (0 < 384)%N) by reflexivity.
  assert (H2 : (N.of_nat (n + d + c) < SizeT.modulus)%N) by reflexivity.
  split; [exact H1|]. split; [exact H2|].
  apply (initialize_kernel_arguments Inputs.wgs32 SynapseInputs.SPARSE SynapseInputs.BITMASK
           Inputs.neuronUpdateGroups InitInputs.denseInitGroups
           InitInputs.connectivityInitGroups InitInputs.sparseInitGroups
           InitInputs.synapseGroups 384 128 H1 H2).
Defined.

Lemma initializeSparse_kernel_arguments_witness :
  let params := Emitted.mergedGroupPointers "SynapseSparseInit" 0
                  (List.length InitInputs.sparseInitGroups) in
  (0 < 128)%N /\
  (OpenCL.size InitInputs.sparseInitGroups < SizeT.modulus)%N /\
  exists sig cfg launch pointerArgs : list tok,
    writes (Init.genInitializeSparseKernelSignature InitInputs.sparseInitGroups) tt sig /\
    writes (Init.genInit_configureKernels Inputs.neuronUpdateGroups
              InitInputs.denseInitGroups InitInputs.connectivityInitGroups
              InitInputs.sparseInitGroups 384 128) tt cfg /\
    writes (Init.genInitializeSparse Inputs.wgs32 128) tt launch /\
    sig = [Str "__kernel void "; Str "initializeSparseKernel"; Str "("]
            ++ Emitted.commaSeparated (map (Emitted.declaration "") params) ++ [Str ")"] /\
    Emitted.occursIn pointerArgs cfg /\
    CodeStream.same_text pointerArgs
      (Emitted.setArgs OpenCL.KernelInitializeSparse 0 params) /\
    exists globalSize : N,
      launch
      = [Str "void initializeSparse()"; ScopeB;
         Str "copyStateToDevice(true);"; Endl;
         Str "copyConnectivityToDevice(true);"; Endl; ScopeB]
          ++ Emitted.workSizes (globalSize, Inputs.wgs32 OpenCL.KernelInitializeSparse)
          ++ Emitted.enqueueNDRangeKernel "initializeSparseKernel"
          ++ [ScopeE; ScopeE].
Proof.
  intros params.
  assert (H1 : (0 < 128)%N) by reflexivity.
  assert (H2 : (OpenCL.size InitInputs.sparseInitGroups < SizeT.modulus)%N) by reflexivity.
  split; [exact H1|]. split; [exact H2|].
  apply (initializeSparse_kernel_arguments Inputs.wgs32 InitInputs.sparseInitGroups
           Inputs.neuronUpdateGroups InitInputs.denseInitGroups
           InitInputs.connectivityInitGroups 384 128 H1 H2).
Defined.

Lemma wellTyped_inputs :
  Synapse.wellTyped SynapseInputs.sparseGroup /\
  Synapse.wellTyped SynapseInputs.bitmaskGroup /\
  Synapse.wellTyped SynapseInputs.denseGroup.
Proof. repeat split; vm_compute; discriminate. Qed.

Lemma genRowStartGID_wide_when_needed_witness :
  let groups := [SynapseInputs.bitmaskGroup] in
  Forall Synapse.wellTyped groups /\
  Substitutions.get "id" InitInputs.lidFrame = inr "lid" /\
  exists type : string,
    writes (Init.genRowStartGID groups InitInputs.lidFrame) tt
           [Str "// Calculate indices"; Endl;
            Str type; Str "lid"; Str " * group->trgNumNeurons;"; Endl] /\
    (type = "const ulong rowStartGID = " \/ type = "const unsigned int rowStartGID = ") /\
    (type = "const ulong rowStartGID = " <->
     Exists (fun s => 2 ^ 32 <= OpenCL.getNumNeurons (Synapse.getSrcNeuronGroup s)
                               * OpenCL.getNumNeurons (Synapse.getTrgNeuronGroup s))%N groups).
Proof.
  intros groups.
  assert (H1 : Forall Synapse.wellTyped groups)
    by (repeat constructor; apply wellTyped_inputs).
  assert (H2 : Substitutions.get "id" InitInputs.lidFrame = inr "lid") by reflexivity.
  split; [exact H1|]. split; [exact H2|].
  apply (genRowStartGID_wide_when_needed groups InitInputs.lidFrame "lid" H1 H2).
Defined.

Lemma genInitialize_clears_whole_bitmask_witness :
  Forall (fun g => Synapse.wellTyped (snd g)) InitInputs.synapseGroups /\
  exists out : list tok,
    writes (Init.genInitialize_fills SynapseInputs.SPARSE SynapseInputs.BITMASK
                                     InitInputs.synapseGroups) tt out /\
    forall name s,
      In (name, s) InitInputs.synapseGroups ->
      Synapse.isSparseConnectivityInitRequired s = true ->
      Synapse.hasConnectivity (Synapse.getMatrixType s) SynapseInputs.BITMASK = true ->
      exists words : N,
        Emitted.occursIn (Init.clearBitmask name words) out /\
        forall pre post,
          (pre < OpenCL.getNumNeurons (Synapse.getSrcNeuronGroup s))%N ->
          (post < OpenCL.getNumNeurons (Synapse.getTrgNeuronGroup s))%N ->
          ((pre * OpenCL.getNumNeurons (Synapse.getTrgNeuronGroup s) + post) / 32 < words)%N.
Proof.
  assert (H : Forall (fun g => Synapse.wellTyped (snd g)) InitInputs.synapseGroups)
    by (repeat constructor; apply wellTyped_inputs).
  split; [exact H|].
  apply (genInitialize_clears_whole_bitmask SynapseInputs.SPARSE SynapseInputs.BITMASK
                                            InitInputs.synapseGroups H).
Defined.

Lemma connectivityInitHandler_needs_bitmask_or_sparse_witness :
  let sg := Merge.mkMergedGroup 0 "" [SynapseInputs.denseGroup]
                                OpenCL.RoleSynapseConnectivityInit in
  Merge.getArchetype sg = inr SynapseInputs.denseGroup /\
  Substitutions.get "id" InitInputs.lidFrame = inr "lid" /\
  Synapse.hasConnectivity (Synapse.getMatrixType SynapseInputs.denseGroup)
                          SynapseInputs.BITMASK = false /\
  Synapse.hasConnectivity (Synapse.getMatrixType SynapseInputs.denseGroup)
                          SynapseInputs.SPARSE = false /\
  fst (Init.connectivityInitHandler SynapseInputs.SPARSE SynapseInputs.BITMASK
                                    InitInputs.noHandler sg InitInputs.lidFrame [])
  = inl assertion_failed.
Proof.
  intros sg.
  split; [reflexivity|]. split; [reflexivity|]. split; [reflexivity|]. split; [reflexivity|].
  apply (connectivityInitHandler_needs_bitmask_or_sparse
           SynapseInputs.SPARSE SynapseInputs.BITMASK InitInputs.noHandler sg
           SynapseInputs.denseGroup InitInputs.lidFrame "lid" []
           eq_refl eq_refl eq_refl eq_refl).
Defined.

Section SynapseResetFacts.
Import Merge OpenCL Synapse Init SynapseReset.

Lemma genPreSynapseReset_groups_run (groups : list SynapseGroupMerged) :
  forall idPreSynapseReset os kernels,
    Forall (fun n => getGroups n <> []) groups ->
    (idPreSynapseReset + totalDelayMembers groups < SizeT.modulus)%N ->
    genPreSynapseReset_groups groups idPreSynapseReset (os, kernels)
    = (inr (idPreSynapseReset + totalDelayMembers groups)%N,
       (os ++ concat (map (fun _ => [ScopeB; ScopeE]) groups),
        kernels ++ dendriticDelayUpdates idPreSynapseReset groups)).
Proof.
  induction groups as [|n rest IH]; intros id os kernels Hne Hsum.
  - cbn. now rewrite N.add_0_r, !app_nil_r.
  - inversion Hne as [|? ? Hn Hne']; subst.
    cbn [totalDelayMembers fold_right] in Hsum. fold (totalDelayMembers rest) in Hsum.
    assert (Hadd : SizeT.add id (size (getGroups n)) = (id + size (getGroups n))%N).
    { unfold SizeT.add, SizeT.wrap. apply N.mod_small. lia. }
    cbn [genPreSynapseReset_groups dendriticDelayUpdates map concat totalDelayMembers fold_right].
    fold (totalDelayMembers rest). rewrite Hadd.
    unfold getArchetype. destruct (getGroups n) as [|archetype others] eqn:E; [congruence|].
    unfold bind at 1. unfold onKernels at 1, emit at 1.
    unfold bind at 1.
    unfold dendriticDelayUpdate, Emitted.guard. cbn [fst snd].
    destruct (id =? 0)%N eqn:E0.
    + apply N.eqb_eq in E0. subst id. rewrite ?N.add_0_l in *.
      unfold onKernels at 1, emit at 1.
      unfold bind at 1. unfold ScopeOnHost, bind, onKernels, emit, lift.
      rewrite IH by (assumption || lia).
      rewrite <- !app_assoc. reflexivity.
    + unfold onKernels at 1, emit at 1.
      unfold bind at 1. unfold ScopeOnHost, bind, onKernels, emit, lift.
      rewrite IH by (assumption || lia).
      rewrite <- !app_assoc, N.add_assoc. reflexivity.
Qed.


Lemma size_le_totalSynapseMembers (groups : list SynapseGroupMerged) :
  Forall (fun n => getGroups n <> []) groups ->
  (size groups <= totalDelayMembers groups)%N.
Proof.
  induction 1 as [|n rest Hn _ IH]; [reflexivity|].
  cbn [totalDelayMembers fold_right]. fold (totalDelayMembers rest).
  assert (1 <= size (getGroups n))%N.
  { unfold size. destruct (getGroups n); [congruence|]. cbn [List.length]. lia. }
  unfold size in *. cbn [List.length]. lia.
Qed.

(** X24.  In the dendritic-delay reset kernel the scope of the body of a
    merged group is opened on the host stream [os], not on the kernel
    stream.  For non-empty merged groups whose members can be counted in
    [size_t], the kernel stream holds, for every merged group, the guard
    of its thread range followed without braces by the pointer to the
    member and the advance of [denDelayPtr] by one slot modulo the number
    of dendritic delay slots of the archetype; the host stream receives
    one empty pair of braces per merged group and a line end; and
    [idPreSynapseReset] ends at the number of all members. *)
Theorem preSynapseReset_kernel_scopes_on_host_stream
        (groups : list SynapseGroupMerged) (os kernels : CodeStream.t) :
  groups <> [] ->
  Forall (fun n => getGroups n <> []) groups ->
  (totalDelayMembers groups < SizeT.modulus)%N ->
  genPreSynapseResetKernel groups (os, kernels)
  = (inr (totalDelayMembers groups),
     (os ++ concat (map (fun _ => [ScopeB; ScopeE]) groups) ++ [Endl],
      kernels
        ++ [Str "__kernel void "; Str "preSynapseResetKernel"; Str "("]
        ++ Emitted.commaSeparated
             (map (Emitted.declaration "")
                  (Emitted.mergedGroupPointers "SynapseDendriticDelayUpdate" 0
                                               (List.length groups)))
        ++ [Str ")"; ScopeB; Str "const unsigned int id = get_global_id(0);"; Endl]
        ++ dendriticDelayUpdates 0 groups ++ [ScopeE])).
Proof.
  intros Hgroups Hne Hsum.
  assert (Hsize : (size groups < SizeT.modulus)%N).
  { pose proof (size_le_totalSynapseMembers groups Hne). lia. }
  pose proof (kernelParams_without_final_comma
                "" "SynapseDendriticDelayUpdate" (size groups) Hsize
                (List.length groups) 0%N ltac:(unfold size; lia)) as Hparams.
  unfold genPreSynapseResetKernel.
  destruct groups as [|n rest] eqn:E; [congruence|]. rewrite <- E in *.
  unfold bind at 1. unfold onKernels at 1, emit at 1.
  unfold bind at 1. unfold onKernels at 1, genMergedGroupKernelParams. rewrite Hparams.
  unfold bind at 1. unfold onKernels at 1, emit at 1.
  unfold ScopeOnKernels. unfold bind at 1. unfold onKernels at 1, emit at 1.
  unfold bind at 1.
  rewrite genPreSynapseReset_groups_run by (assumption || now rewrite N.add_0_l).
  unfold bind, onHost, emit, ret. cbn [KernelNames].
  rewrite N.add_0_l. rewrite <- !app_assoc. reflexivity.
Qed.

End SynapseResetFacts.

Section LaunchFacts.
Import OpenCL Emitted SynapseLaunch.
Variable wgs : Kernel -> N.
Variable timePrecision : string.

(** X25.  The host function [updateSynapses] launches the kernels in a
    fixed order: the dendritic-delay reset kernel, then the presynaptic
    update kernel, then the postsynaptic update kernel, each in a block of
    its own and only when it has threads.  The time [t] is set as the
    argument after the pointers to the merged groups of the presynaptic
    and of the postsynaptic kernel; the reset kernel receives no time.
    No kernel of the synapse dynamics is launched. *)
Theorem updateSynapses_launch_order {T}
        (presynapticUpdateGroups postsynapticUpdateGroups : list T)
        (idPreSynapseReset idPresynapticStart idPostsynapticStart : N) :
  exists globalReset globalPresynaptic globalPostsynaptic : N,
    writes (genUpdateSynapses wgs timePrecision presynapticUpdateGroups
                              postsynapticUpdateGroups idPreSynapseReset
                              idPresynapticStart idPostsynapticStart) tt
           ([Str "void updateSynapses("; Str timePrecision; Str " t)"; ScopeB]
              ++ launch "preSynapseResetKernel" (0 <? idPreSynapseReset)%N []
                        (globalReset, wgs KernelPreSynapseReset)
              ++ launch "updatePresynapticKernel" (0 <? idPresynapticStart)%N
                        (setTimeArgument "updatePresynapticKernel"
                                         (size presynapticUpdateGroups) ++ [Endl])
                        (globalPresynaptic, wgs KernelPresynapticUpdate)
              ++ launch "updatePostsynapticKernel" (0 <? idPostsynapticStart)%N
                        (setTimeArgument "updatePostsynapticKernel"
                                         (size postsynapticUpdateGroups) ++ [Endl])
                        (globalPostsynaptic, wgs KernelPostsynapticUpdate)
              ++ [ScopeE]).
Proof.
  exists (globalWorkSize wgs KernelPreSynapseReset idPreSynapseReset),
         (globalWorkSize wgs KernelPresynapticUpdate idPresynapticStart),
         (globalWorkSize wgs KernelPostsynapticUpdate idPostsynapticStart).
  unfold genUpdateSynapses, launch, setTimeArgument, workSizes, enqueueNDRangeKernel.
  pose proof (genKernelDimensions_writes wgs KernelPreSynapseReset idPreSynapseReset).
  pose proof (genKernelDimensions_writes wgs KernelPresynapticUpdate idPresynapticStart).
  pose proof (genKernelDimensions_writes wgs KernelPostsynapticUpdate idPostsynapticStart).
  eapply writes_eq; [writes_run|].
  destruct (0 <? idPreSynapseReset)%N, (0 <? idPresynapticStart)%N,
    (0 <? idPostsynapticStart)%N; rewrite <- ?app_assoc; reflexivity.
Qed.

End LaunchFacts.

Section NeuronKernelFacts.
Import Merge OpenCL NeuronKernel.
Variable wgs : Kernel -> N.

Lemma any_of_archetype (flag : NeuronGroupInternal -> bool) (groups : list NeuronGroupMerged) :
  Forall (fun n => getGroups n <> []) groups ->
  any_of (fun n => match getArchetype n with
                   | inr archetype => inr (flag archetype)
                   | inl e => inl e
                   end) groups
  = inr (existsb (fun n => match getGroups n with
                           | archetype :: _ => flag archetype
                           | [] => false
                           end) groups).
Proof.
  induction 1 as [|n rest Hn _ IH]; [reflexivity|].
  cbn [any_of existsb]. unfold getArchetype at 1.
  destruct (getGroups n) as [|archetype others]; [congruence|].
  destruct (flag archetype); [reflexivity | exact IH].
Qed.

(** X26.  Before the neuron groups, the neuron-update kernel declares
    the shared buffer of spike-like events exactly when the archetype of
    some merged group requires spike-like events, and the shared buffer of
    true spikes exactly when the archetype of some merged group has a
    threshold condition; the count of the events is set to zero by the
    thread with local id 1, the count of the spikes by the thread with
    local id 0, and a barrier follows in every case.  The frame returned
    is the kernel frame with the time variable. *)
Theorem neuron_kernel_declares_shared_spikes
        (kernelSubs0 kernelSubs : Substitutions.t) (groups : list NeuronGroupMerged) :
  Forall (fun n => getGroups n <> []) groups ->
  Substitutions.addVarSubstitution "t" "t" false kernelSubs0 = inr kernelSubs ->
  exists (events trueSpikes : bool) (out : list tok),
    writes (genNeuronUpdateKernelProlog wgs kernelSubs0 groups) kernelSubs out /\
    CodeStream.same_text out
      ([Str "const unsigned int localId = get_local_id(0);"; Endl;
        Str "const unsigned int id = get_global_id(0);"; Endl]
         ++ (if events
             then sharedSpikes "Evnt" (wgs KernelNeuronUpdate) ++ [Endl]
                    ++ zeroCount "Evnt" "1" ++ [Endl]
             else [])
         ++ (if trueSpikes
             then sharedSpikes "" (wgs KernelNeuronUpdate) ++ zeroCount "" "0" ++ [Endl]
             else [])
         ++ [Str "barrier(CLK_LOCAL_MEM_FENCE);"; Endl]) /\
    (events = true <->
     exists n archetype, In n groups /\ getArchetype n = inr archetype /\
                         isSpikeEventRequired archetype = true) /\
    (trueSpikes = true <->
     exists n archetype, In n groups /\ getArchetype n = inr archetype /\
                         Emitted.hasThreshold archetype = true).
Proof.
  intros Hne Hsubs.
  exists (existsb (fun n => match getGroups n with
                            | archetype :: _ => isSpikeEventRequired archetype
                            | [] => false
                            end) groups),
         (existsb (fun n => match getGroups n with
                            | archetype :: _ =>
                                negb (string_empty (getThresholdConditionCode archetype))
                            | [] => false
                            end) groups).
  eexists. split; [|split; [|split]].
  - unfold genNeuronUpdateKernelProlog. rewrite Hsubs.
    rewrite (any_of_archetype isSpikeEventRequired groups Hne).
    rewrite (any_of_archetype
               (fun a => negb (string_empty (getThresholdConditionCode a))) groups Hne).
    writes_run.
  - unfold CodeStream.same_text, sharedSpikes, zeroCount.
    match goal with
    | |- context [if existsb ?f groups then _ else _] => destruct (existsb f groups)
    end;
    match goal with
    | |- context [if existsb ?f groups then _ else _] => destruct (existsb f groups)
    end; reflexivity.
  - rewrite existsb_exists. split.
    + intros (n & Hin & Hflag). unfold getArchetype.
      destruct (getGroups n) as [|archetype others] eqn:E; [discriminate|].
      exists n, archetype. rewrite E. auto.
    + intros (n & archetype & Hin & Harch & Hflag). exists n. split; [assumption|].
      unfold getArchetype in Harch.
      destruct (getGroups n); [discriminate|]. now injection Harch as ->.
  - rewrite existsb_exists. unfold Emitted.hasThreshold. split.
    + intros (n & Hin & Hflag). unfold getArchetype.
      destruct (getGroups n) as [|archetype others] eqn:E; [discriminate|].
      exists n, archetype. rewrite E. auto.
    + intros (n & archetype & Hin & Harch & Hflag). exists n. split; [assumption|].
      unfold getArchetype in Harch.
      destruct (getGroups n); [discriminate|]. now injection Harch as ->.
Qed.

End NeuronKernelFacts.

Section AtomicAddFacts.
Import AtomicAdd.

(** X27.  The function that [genAtomicAddFloat] defines for a memory
    type has the name that [getFloatAtomicAdd] returns for that memory
    type and the types [float] and [double]; for both types it is the
    function whose operands are declared as [float]. *)
Theorem genAtomicAddFloat_defines_getFloatAtomicAdd (ftype memoryType : string) :
  ftype = "float" \/ ftype = "double" ->
  exists out body : list tok,
    writes (genAtomicAddFloat memoryType) tt out /\
    CodeStream.same_text out
      ([Str "void "; Str (getFloatAtomicAdd ftype memoryType); Str "(volatile __";
        Str memoryType; Str " float *source, const float operand)"] ++ body).
Proof.
  intros Hftype.
  assert (E : getFloatAtomicAdd ftype memoryType = "atomic_add_f_" +:+ memoryType).
  { unfold getFloatAtomicAdd. destruct Hftype as [-> | ->]; reflexivity. }
  rewrite E. eexists. eexists. split.
  - unfold genAtomicAddFloat. writes_run.
  - apply same_text_app; [|reflexivity].
    unfold CodeStream.same_text. reflexivity.
Qed.

End AtomicAddFacts.

Section NeuronStateFacts.
Import NeuronState.
Variable getVarPrefix : string.
Variable ngName : string.
Variable isVarQueueRequired : string -> bool.
Variable isDelayRequired : bool.

(** X28.  The neuron update loads and stores the same elements of the
    state: for every variable of the neuron model, in order, one
    statement loads the element of the neuron ["id"] stands for into the
    local [l<name>], and one statement stores the local back into the
    same array at the same index; a queued variable of a delayed
    population is read at [readDelayOffset] and written at
    [writeDelayOffset]. *)
Theorem neuron_state_loaded_and_stored
        (vars : list (string * string)) (popSubs : Substitutions.t) (id : string) :
  Substitutions.get "id" popSubs = inr id ->
  exists loads stores : list tok,
    writes (genLoadVars getVarPrefix ngName isVarQueueRequired isDelayRequired vars popSubs)
           tt loads /\
    writes (genStoreVars getVarPrefix ngName isVarQueueRequired isDelayRequired vars popSubs)
           tt stores /\
    CodeStream.same_text loads
      (concat (map (loadVar getVarPrefix ngName isVarQueueRequired isDelayRequired id) vars)) /\
    CodeStream.same_text stores
      (concat (map (storeVar getVarPrefix ngName isVarQueueRequired isDelayRequired id) vars)).
Proof.
  intros Hid. induction vars as [|[name type] rest (loads & stores & Hl & Hs & Htl & Hts)].
  - exists [], []. repeat split; apply writes_ret.
  - eexists. eexists. split; [|split; [|split]].
    + cbn [genLoadVars]. rewrite Hid. writes_run.
    + cbn [genStoreVars]. rewrite Hid. writes_run.
    + cbn [map concat]. unfold CodeStream.same_text in *.
      rewrite !flat_app, Htl. unfold loadVar, element. cbn [fst snd].
      destruct (isVarQueueRequired name && isDelayRequired);
        rewrite ?flat_app; unfold CodeStream.flat; cbn [flat_map];
        rewrite <- ?app_assoc; reflexivity.
    + cbn [map concat]. unfold CodeStream.same_text in *.
      rewrite !flat_app, Hts. unfold storeVar, element. cbn [fst snd].
      destruct (isVarQueueRequired name && isDelayRequired);
        rewrite ?flat_app; unfold CodeStream.flat; cbn [flat_map];
        rewrite <- ?app_assoc; reflexivity.
Qed.

End NeuronStateFacts.

Lemma preSynapseReset_kernel_scopes_on_host_stream_witness :
  let groups := SynapseResetInputs.dendriticDelayUpdateGroups in
  groups <> [] /\
  Forall (fun n => Merge.getGroups n <> []) groups /\
  (SynapseReset.totalDelayMembers groups < SizeT.modulus)%N /\
  SynapseReset.genPreSynapseResetKernel groups ([], [])
  = (inr (SynapseReset.totalDelayMembers groups),
     ([] ++ concat (map (fun _ => [ScopeB; ScopeE]) groups) ++ [Endl],
      []
        ++ [Str "__kernel void "; Str "preSynapseResetKernel"; Str "("]
        ++ Emitted.commaSeparated
             (map (Emitted.declaration "")
                  (Emitted.mergedGroupPointers "SynapseDendriticDelayUpdate" 0
                                               (List.length groups)))
        ++ [Str ")"; ScopeB; Str "const unsigned int id = get_global_id(0);"; Endl]
        ++ SynapseReset.dendriticDelayUpdates 0 groups ++ [ScopeE])).
Proof.
  intros groups.
  assert (H1 : groups <> []) by discriminate.
  assert (H2 : Forall (fun n => Merge.getGroups n <> []) groups)
    by (repeat constructor; discriminate).
  assert (H3 : (SynapseReset.totalDelayMembers groups < SizeT.modulus)%N) by reflexivity.
  split; [exact H1|]. split; [exact H2|]. split; [exact H3|].
  apply (preSynapseReset_kernel_scopes_on_host_stream groups [] [] H1 H2 H3).
Defined.

Lemma neuron_kernel_declares_shared_spikes_witness :
  let groups := Inputs.neuronUpdateGroups in
  let kernelSubs0 := Substitutions.Root empty empty in
  Forall (fun n => Merge.getGroups n <> []) groups /\
  Substitutions.addVarSubstitution "t" "t" false kernelSubs0 = inr Inputs.kernelSubs /\
  exists (events trueSpikes : bool) (out : list tok),
    writes (NeuronKernel.genNeuronUpdateKernelProlog Inputs.wgs32 kernelSubs0 groups)
           Inputs.kernelSubs out /\
    CodeStream.same_text out
      ([Str "const unsigned int localId = get_local_id(0);"; Endl;
        Str "const unsigned int id = get_global_id(0);"; Endl]
         ++ (if events
             then NeuronKernel.sharedSpikes "Evnt" (Inputs.wgs32 OpenCL.KernelNeuronUpdate)
                    ++ [Endl] ++ NeuronKernel.zeroCount "Evnt" "1" ++ [Endl]
             else [])
         ++ (if trueSpikes
             then NeuronKernel.sharedSpikes "" (Inputs.wgs32 OpenCL.KernelNeuronUpdate)
                    ++ NeuronKernel.zeroCount "" "0" ++ [Endl]
             else [])
         ++ [Str "barrier(CLK_LOCAL_MEM_FENCE);"; Endl]) /\
    (events = true <->
     exists n archetype, In n groups /\ Merge.getArchetype n = inr archetype /\
                         OpenCL.isSpikeEventRequired archetype = true) /\
    (trueSpikes = true <->
     exists n archetype, In n groups /\ Merge.getArchetype n = inr archetype /\
                         Emitted.hasThreshold archetype = true).
Proof.
  intros groups kernelSubs0.
  assert (H1 : Forall (fun n => Merge.getGroups n <> []) groups)
    by (repeat constructor; discriminate).
  assert (H2 : Substitutions.addVarSubstitution "t" "t" false kernelSubs0
               = inr Inputs.kernelSubs) by reflexivity.
  split; [exact H1|]. split; [exact H2|].
  apply (neuron_kernel_declares_shared_spikes Inputs.wgs32 kernelSubs0 Inputs.kernelSubs
                                              groups H1 H2).
Defined.

Lemma genAtomicAddFloat_defines_getFloatAtomicAdd_witness :
  ("double" = "float" \/ "double" = "double") /\
  exists out body : list tok,
    writes (AtomicAdd.genAtomicAddFloat "local") tt out /\
    CodeStream.same_text out
      ([Str "void "; Str (AtomicAdd.getFloatAtomicAdd "double" "local"); Str "(volatile __";
        Str "local"; Str " float *source, const float operand)"] ++ body).
Proof.
  assert (H : "double" = "float" \/ "double" = "double") by (right; reflexivity).
  split; [exact H|].
  apply (genAtomicAddFloat_defines_getFloatAtomicAdd "double" "local" H).
Defined.

Lemma neuron_state_loaded_and_stored_witness :
  let queued := String.eqb "V" in
  Substitutions.get "id" InitInputs.lidFrame = inr "lid" /\
  exists loads stores : list tok,
    writes (NeuronState.genLoadVars "d_" "pop" queued true SynapseResetInputs.neuronVars
                                    InitInputs.lidFrame) tt loads /\
    writes (NeuronState.genStoreVars "d_" "pop" queued true SynapseResetInputs.neuronVars
                                     InitInputs.lidFrame) tt stores /\
    CodeStream.same_text loads
      (concat (map (NeuronState.loadVar "d_" "pop" queued true "lid") SynapseResetInputs.neuronVars)) /\
    CodeStream.same_text stores
      (concat (map (NeuronState.storeVar "d_" "pop" queued true "lid") SynapseResetInputs.neuronVars)).
Proof.
  intros queued.
  assert (H : Substitutions.get "id" InitInputs.lidFrame = inr "lid") by reflexivity.
  split; [exact H|].
  apply (neuron_state_loaded_and_stored "d_" "pop" queued true SynapseResetInputs.neuronVars
                                        InitInputs.lidFrame "lid" H).
Defined.
